(** * The diff-construction engine of libgit2 (src/diff.c) and the stash
      callbacks built on it (src/stash.c), as a shallow embedding.

    Integers of the C code are [Z]; bit masks are tested with [Z.land].
    Paths are [string]s.  A [git_oid] (twenty raw bytes) is the number those
    bytes spell in big-endian order, so that the all-zero hash is [0] and
    [memcmp] order is numeric order.

    Allocation ([git__calloc], [git_pool_strdup], [git_vector_insert]) is
    taken to succeed: the [-1] paths of the construction primitives that
    only report an allocation failure are not modelled.  The providers the
    engine calls can fail; their calls are recorded in order.  The
    [while] loop of the driver runs on fuel, and a run that ends for lack
    of fuel is told apart from one that fails.

    The two entry sources are listings held in memory: [git_iterator_current],
    [git_iterator_advance], [git_iterator_advance_into_directory] and
    [git_iterator_spoolandsort] always answer, so the [goto fail] exits the
    driver takes when one of them reports a failure are not modelled.  What
    is proved of a whole run is therefore proved of the runs in which the
    sources never fail; the failures that are modelled are those of the
    configuration store and of the providers.  File modes are taken to fit
    the sixteen bits of the mode field of a [git_diff_file], as every mode
    git records does. *)

From Stdlib Require Import ZArith List String Ascii Bool Lia.
From Stdlib Require Import Sorted.
Import ListNotations.

Open Scope Z_scope.

(* ================================================================== *)
(** * Constants and macros declared in headers *)

(** Modelled from the spec: the status kinds of [git_delta_t]
    (include/git2/diff.h, not under src/), numbered in the order in which
    the data model lists them. *)
Inductive git_delta_t :=
| GIT_DELTA_UNMODIFIED
| GIT_DELTA_ADDED
| GIT_DELTA_DELETED
| GIT_DELTA_MODIFIED
| GIT_DELTA_RENAMED
| GIT_DELTA_COPIED
| GIT_DELTA_IGNORED
| GIT_DELTA_UNTRACKED
| GIT_DELTA_TYPECHANGE.

Definition delta_t_to_int (s : git_delta_t) : Z :=
  match s with
  | GIT_DELTA_UNMODIFIED => 0
  | GIT_DELTA_ADDED => 1
  | GIT_DELTA_DELETED => 2
  | GIT_DELTA_MODIFIED => 3
  | GIT_DELTA_RENAMED => 4
  | GIT_DELTA_COPIED => 5
  | GIT_DELTA_IGNORED => 6
  | GIT_DELTA_UNTRACKED => 7
  | GIT_DELTA_TYPECHANGE => 8
  end.

Definition delta_t_eqb (a b : git_delta_t) : bool :=
  delta_t_to_int a =? delta_t_to_int b.

(** Modelled from the spec: the option flags of [git_diff_options.flags]
    (include/git2/diff.h); each is one bit of a 32-bit mask. *)
Definition GIT_DIFF_REVERSE : Z := Z.shiftl 1 0.
Definition GIT_DIFF_IGNORE_SUBMODULES : Z := Z.shiftl 1 5.
Definition GIT_DIFF_INCLUDE_IGNORED : Z := Z.shiftl 1 7.
Definition GIT_DIFF_INCLUDE_UNTRACKED : Z := Z.shiftl 1 8.
Definition GIT_DIFF_INCLUDE_UNMODIFIED : Z := Z.shiftl 1 9.
Definition GIT_DIFF_RECURSE_UNTRACKED_DIRS : Z := Z.shiftl 1 10.
Definition GIT_DIFF_DISABLE_PATHSPEC_MATCH : Z := Z.shiftl 1 11.
Definition GIT_DIFF_DELTAS_ARE_ICASE : Z := Z.shiftl 1 12.
Definition GIT_DIFF_INCLUDE_TYPECHANGE : Z := Z.shiftl 1 15.
Definition GIT_DIFF_INCLUDE_TYPECHANGE_TREES : Z := Z.shiftl 1 16.
Definition GIT_DIFF_IGNORE_FILEMODE : Z := Z.shiftl 1 17.

(** Modelled from the spec: the derived capability flags of
    [git_diff_list.diffcaps] (src/diff.h). *)
Definition GIT_DIFFCAPS_HAS_SYMLINKS : Z := Z.shiftl 1 0.
Definition GIT_DIFFCAPS_ASSUME_UNCHANGED : Z := Z.shiftl 1 1.
Definition GIT_DIFFCAPS_TRUST_MODE_BITS : Z := Z.shiftl 1 2.
Definition GIT_DIFFCAPS_TRUST_CTIME : Z := Z.shiftl 1 3.
Definition GIT_DIFFCAPS_USE_DEV : Z := Z.shiftl 1 4.

(** Modelled from the spec: the hash-valid flag of a file side and the
    extended index-entry flags (intent-to-add, skip-worktree). *)
Definition GIT_DIFF_FILE_VALID_OID : Z := Z.shiftl 1 0.
Definition GIT_IDXENTRY_INTENT_TO_ADD : Z := Z.shiftl 1 13.
Definition GIT_IDXENTRY_SKIP_WORKTREE : Z := Z.shiftl 1 14.

(** Modelled from the spec: error codes of include/git2/errors.h. *)
Definition GIT_ENOTFOUND : Z := -3.
Definition GIT_EUSER : Z := -7.

(** Modelled from the spec: file modes and the POSIX type tests on them
    (octal 0170000 is the type field). *)
Definition S_IFMT : Z := 61440.          (* 0170000 *)
Definition GIT_FILEMODE_TREE : Z := 16384.   (* 0040000 *)
Definition GIT_FILEMODE_BLOB : Z := 33188.   (* 0100644 *)
Definition GIT_FILEMODE_LINK : Z := 40960.   (* 0120000 *)
Definition GIT_FILEMODE_COMMIT : Z := 57344. (* 0160000 *)

Definition S_ISDIR (m : Z) : bool := Z.land m S_IFMT =? 16384.
Definition S_ISREG (m : Z) : bool := Z.land m S_IFMT =? 32768.
Definition S_ISLNK (m : Z) : bool := Z.land m S_IFMT =? 40960.
Definition S_ISGITLINK (m : Z) : bool := Z.land m S_IFMT =? 57344.

(** [#define MODE_BITS_MASK 0000777] *)
Definition MODE_BITS_MASK : Z := 511.

(** Modelled from the spec: [GIT_MODE_TYPE], the type class of a mode
    (file, symlink, submodule, directory): the mode without its
    permission bits. *)
Definition GIT_MODE_TYPE (m : Z) : Z := Z.land m (Z.lnot MODE_BITS_MASK).

(** [(x & FLAG) != 0] *)
Definition flag_set (x flag : Z) : bool := negb (Z.land x flag =? 0).

(* ================================================================== *)
(** * Strings: the libc and util.c comparators *)

Definition uchar (c : ascii) : Z := Z.of_N (N_of_ascii c).

(** Modelled from the spec: [strcmp], byte-wise lexicographic order on
    unsigned chars; only the sign of the result is specified. *)
Fixpoint strcmp (a b : string) : Z :=
  match a, b with
  | EmptyString, EmptyString => 0
  | EmptyString, String _ _ => -1
  | String _ _, EmptyString => 1
  | String c a', String d b' =>
      if Ascii.eqb c d then strcmp a' b' else uchar c - uchar d
  end.

Definition tolower (c : ascii) : ascii :=
  let n := N_of_ascii c in
  if ((65 <=? n) && (n <=? 90))%N then ascii_of_N (n + 32) else c.

Fixpoint strlower (s : string) : string :=
  match s with
  | EmptyString => EmptyString
  | String c s' => String (tolower c) (strlower s')
  end.

(** Modelled from the spec: [strcasecmp] compares the lower-cased bytes. *)
Definition strcasecmp (a b : string) : Z := strcmp (strlower a) (strlower b).

(** Modelled from the spec: [git__prefixcmp str prefix] is [0] exactly when
    [str] starts with [prefix] (util.c). *)
Fixpoint git__prefixcmp (str pfx : string) : Z :=
  match pfx with
  | EmptyString => 0
  | String p pfx' =>
      match str with
      | EmptyString => 0 - uchar p
      | String s str' =>
          if Ascii.eqb s p then git__prefixcmp str' pfx' else uchar s - uchar p
      end
  end.

Definition git__prefixcmp_icase (str pfx : string) : Z :=
  git__prefixcmp (strlower str) (strlower pfx).

(** [s[i]], with the terminating NUL read as [None]. *)
Definition char_at (s : string) (i : nat) : option ascii := String.get i s.

Definition is_slash (c : option ascii) : bool :=
  match c with Some c => Ascii.eqb c "/"%char | None => false end.

Definition is_nul (c : option ascii) : bool :=
  match c with Some _ => false | None => true end.

(* ================================================================== *)
(** * Data model *)

Definition git_oid := Z.

Definition git_oid_iszero (a : git_oid) : bool := a =? 0.
Definition git_oid_equal (a b : git_oid) : bool := a =? b.
Definition git_oid_cmp (a b : git_oid) : Z := a - b.

(** [git_index_entry]: the entry an Entry Source exposes. *)
Record git_index_entry := mk_entry {
  e_ctime_seconds : Z;
  e_mtime_seconds : Z;
  e_dev : Z;
  e_ino : Z;
  e_mode : Z;
  e_uid : Z;
  e_gid : Z;
  e_file_size : Z;
  e_oid : git_oid;
  e_flags_extended : Z;
  e_path : string
}.

(** Modelled from the spec: [git_index_entry__cmp] and its icase variant
    (index.c) order entries by path. *)
Definition git_index_entry__cmp (a b : git_index_entry) : Z :=
  strcmp (e_path a) (e_path b).
Definition git_index_entry__cmp_icase (a b : git_index_entry) : Z :=
  strcasecmp (e_path a) (e_path b).

(** [git_diff_file]: one side of a delta. *)
Record git_diff_file := mk_file {
  f_oid : git_oid;
  f_path : string;
  f_size : Z;
  f_flags : Z;
  f_mode : Z
}.

Record git_diff_delta := mk_delta {
  old_file : git_diff_file;
  new_file : git_diff_file;
  status : git_delta_t
}.

Definition set_oid (f : git_diff_file) (o : git_oid) : git_diff_file :=
  mk_file o (f_path f) (f_size f) (f_flags f) (f_mode f).
Definition set_path (f : git_diff_file) (p : string) : git_diff_file :=
  mk_file (f_oid f) p (f_size f) (f_flags f) (f_mode f).
Definition set_size (f : git_diff_file) (s : Z) : git_diff_file :=
  mk_file (f_oid f) (f_path f) s (f_flags f) (f_mode f).
Definition set_flags (f : git_diff_file) (fl : Z) : git_diff_file :=
  mk_file (f_oid f) (f_path f) (f_size f) fl (f_mode f).
Definition set_mode (f : git_diff_file) (m : Z) : git_diff_file :=
  mk_file (f_oid f) (f_path f) (f_size f) (f_flags f) m.

Definition with_old (d : git_diff_delta) (f : git_diff_file) :=
  mk_delta f (new_file d) (status d).
Definition with_new (d : git_diff_delta) (f : git_diff_file) :=
  mk_delta (old_file d) f (status d).
Definition with_status (d : git_diff_delta) (s : git_delta_t) :=
  mk_delta (old_file d) (new_file d) s.

(* ================================================================== *)
(** * External collaborators *)

(** Modelled from the spec: the configuration store.  A boolean lookup
    either yields the stored value or fails (absent key, unparsable value,
    I/O error) with a negative error code. *)
Inductive cfg_lookup :=
| CfgValue (b : bool)
| CfgNotFound
| CfgFailure.

Definition git_config := string -> cfg_lookup.

(** [git_config_get_bool(&val, cfg, name)]: the return code and the content
    of [val] afterwards; [val] is written on success only. *)
Definition git_config_get_bool (val : Z) (cfg : git_config) (name : string)
  : Z * Z :=
  match cfg name with
  | CfgValue b => (0, if b then 1 else 0)
  | CfgNotFound => (GIT_ENOTFOUND, val)
  | CfgFailure => (-1, val)
  end.

(** Modelled from the spec: the submodule provider: ignore policy, status
    bitmask (or a failure to compute it) and working-directory hash. *)
Record git_submodule := mk_submodule {
  sm_ignore : Z;
  sm_status : option Z;
  sm_wd_oid : option git_oid
}.

Definition GIT_SUBMODULE_IGNORE_ALL : Z := 0.

(** The status bits that only say where the submodule is present. *)
Definition GIT_SUBMODULE_STATUS_IS_UNMODIFIED (s : Z) : bool :=
  Z.land s (Z.lnot 15) =? 0.

(** Modelled from the spec: what the engine reaches through [diff->repo]:
    the configuration store (absent when it cannot be opened), the
    submodule provider, and the working-directory reads of the content
    hasher ([p_stat], [git_odb__hashlink], and the filtered blob hash of
    [git_filters_load], [git_futils_open_ro], [git_odb__hashfd_filtered]). *)
Record git_repository := mk_repo {
  repo_config : option git_config;
  repo_workdir : string;
  repo_submodule_lookup : string -> option git_submodule;
  repo_stat : string -> option (Z * Z);
  repo_hashlink : string -> option git_oid;
  repo_hash_filtered : string -> Z -> option git_oid;
  repo_is_sizet : Z -> bool
}.

(** A pathspec pattern, known by what it matches: the test takes the path,
    the disable-fnmatch toggle and the casefold toggle. *)
Record pathspec_pattern := mk_pattern {
  pat_matches : string -> bool -> bool -> bool;
  pat_negative : bool
}.

Definition git_pathspec := list pathspec_pattern.

(** Modelled from the spec: [git_pathspec_match_path] (pathspec.c).  An
    empty pathspec matches every path; otherwise the first pattern that
    matches decides, by its polarity. *)
Fixpoint pathspec_first_match (ps : git_pathspec) (path : string)
    (disable_fnmatch casefold : bool) : bool :=
  match ps with
  | [] => false
  | p :: ps' =>
      if pat_matches p path disable_fnmatch casefold
      then negb (pat_negative p)
      else pathspec_first_match ps' path disable_fnmatch casefold
  end.

Definition git_pathspec_match_path (ps : git_pathspec) (path : string)
    (disable_fnmatch casefold : bool) : bool :=
  match ps with
  | [] => true
  | _ => pathspec_first_match ps path disable_fnmatch casefold
  end.

(* ================================================================== *)
(** * Provider calls and failure: the monad of the engine *)

Inductive provider_call :=
| Call_oid_for_file (path : string) (mode size : Z)
| Call_submodule_lookup (path : string)
| Call_submodule_status (path : string).

(** A C call either returns a value, fails ([-1]), or, for the loop of
    the driver, has not finished within the given number of iterations. *)
Inductive outcome (A : Type) :=
| Ok (a : A)
| Error
| Timeout.
Arguments Ok {A} a.
Arguments Error {A}.
Arguments Timeout {A}.

(** The provider calls made so far, in order, and the outcome. *)
Definition M (A : Type) : Type := (list provider_call * outcome A)%type.

Definition ret {A} (a : A) : M A := ([], Ok a).
Definition fail {A} : M A := ([], Error).
Definition timeout {A} : M A := ([], Timeout).
Definition tell (c : provider_call) : M unit := ([c], Ok tt).

Definition bind {A B} (m : M A) (k : A -> M B) : M B :=
  match m with
  | (l, Ok a) => let (l', r) := k a in (l ++ l', r)
  | (l, Error) => (l, Error)
  | (l, Timeout) => (l, Timeout)
  end.

Notation "x <- m ;; k" := (bind m (fun x => k))
  (at level 61, m at next level, right associativity).
Notation "m ;;; k" := (bind m (fun _ => k))
  (at level 61, right associativity).

(** A provider lookup that may fail. *)
Definition lift_option {A} (o : option A) : M A :=
  match o with Some a => ret a | None => fail end.

(* ================================================================== *)
(** * The diff list *)

Record git_diff_options := mk_opts {
  opt_flags : Z;
  opt_old_prefix : option string;
  opt_new_prefix : option string;
  opt_pathspec : git_pathspec
}.

Inductive git_iterator_type_t :=
| GIT_ITERATOR_EMPTY
| GIT_ITERATOR_TREE
| GIT_ITERATOR_INDEX
| GIT_ITERATOR_WORKDIR
| GIT_ITERATOR_SPOOLANDSORT.

Definition is_workdir (t : git_iterator_type_t) : bool :=
  match t with GIT_ITERATOR_WORKDIR => true | _ => false end.

(** [git_diff_list].  The reference count and the string pool are left
    out; [deltas] is the vector in append order. *)
Record git_diff_list := mk_diff {
  repo : git_repository;
  opts : git_diff_options;
  pathspec : git_pathspec;
  deltas : list git_diff_delta;
  old_src : git_iterator_type_t;
  new_src : git_iterator_type_t;
  diffcaps : Z;
  strcomp : string -> string -> Z;
  pfxcomp : string -> string -> Z;
  entrycomp : git_index_entry -> git_index_entry -> Z
}.

Definition diff_flags (diff : git_diff_list) : Z := opt_flags (opts diff).

Definition set_deltas (diff : git_diff_list) (ds : list git_diff_delta) :=
  mk_diff (repo diff) (opts diff) (pathspec diff) ds (old_src diff)
    (new_src diff) (diffcaps diff) (strcomp diff) (pfxcomp diff)
    (entrycomp diff).

Definition set_opts (diff : git_diff_list) (o : git_diff_options) :=
  mk_diff (repo diff) o (pathspec diff) (deltas diff) (old_src diff)
    (new_src diff) (diffcaps diff) (strcomp diff) (pfxcomp diff)
    (entrycomp diff).

Definition set_opt_flags (o : git_diff_options) (f : Z) :=
  mk_opts f (opt_old_prefix o) (opt_new_prefix o) (opt_pathspec o).

Definition set_diffcaps (diff : git_diff_list) (c : Z) :=
  mk_diff (repo diff) (opts diff) (pathspec diff) (deltas diff)
    (old_src diff) (new_src diff) c (strcomp diff) (pfxcomp diff)
    (entrycomp diff).

(** [git_vector_insert(&diff->deltas, delta)] *)
Definition git_vector_insert (diff : git_diff_list) (d : git_diff_delta) :=
  set_deltas diff (deltas diff ++ [d]).

(** [git_vector_last(&diff->deltas)] *)
Definition git_vector_last (diff : git_diff_list) : option git_diff_delta :=
  match deltas diff with
  | [] => None
  | d :: ds => Some (last ds d)
  end.

(** Assignment through the pointer [git_vector_last] returned. *)
Definition set_vector_last (diff : git_diff_list) (d : git_diff_delta) :=
  set_deltas diff (removelast (deltas diff) ++ [d]).

(* ================================================================== *)
(** * Delta construction primitives (src/diff.c) *)

(** What [git__calloc] leaves in a file side. *)
Definition zero_file : git_diff_file := mk_file 0 EmptyString 0 0 0.

Definition diff_delta__alloc (diff : git_diff_list) (st : git_delta_t)
    (path : string) : git_diff_delta :=
  let delta := mk_delta zero_file zero_file GIT_DELTA_UNMODIFIED in
  let delta := with_old delta (set_path (old_file delta) path) in
  let delta :=
    with_new delta (set_path (new_file delta) (f_path (old_file delta))) in
  let st :=
    if flag_set (diff_flags diff) GIT_DIFF_REVERSE then
      match st with
      | GIT_DELTA_ADDED => GIT_DELTA_DELETED
      | GIT_DELTA_DELETED => GIT_DELTA_ADDED
      | _ => st (* leave other status values alone *)
      end
    else st in
  with_status delta st.

(** The body of [diff_delta__from_one] after the filters: the delta that
    is inserted. *)
Definition delta_from_one (diff : git_diff_list) (st : git_delta_t)
    (entry : git_index_entry) : git_diff_delta :=
  let delta := diff_delta__alloc diff st (e_path entry) in
  let delta :=
    if delta_t_eqb (status delta) GIT_DELTA_DELETED then
      with_old delta
        (set_oid (set_size (set_mode (old_file delta) (e_mode entry))
                    (e_file_size entry)) (e_oid entry))
    else (* ADDED, IGNORED, UNTRACKED *)
      with_new delta
        (set_oid (set_size (set_mode (new_file delta) (e_mode entry))
                    (e_file_size entry)) (e_oid entry)) in
  let delta :=
    with_old delta
      (set_flags (old_file delta)
         (Z.lor (f_flags (old_file delta)) GIT_DIFF_FILE_VALID_OID)) in
  if delta_t_eqb (status delta) GIT_DELTA_DELETED
     || negb (git_oid_iszero (f_oid (new_file delta)))
  then
    with_new delta
      (set_flags (new_file delta)
         (Z.lor (f_flags (new_file delta)) GIT_DIFF_FILE_VALID_OID))
  else delta.

Definition diff_delta__from_one (diff : git_diff_list) (st : git_delta_t)
    (entry : git_index_entry) : git_diff_list :=
  if delta_t_eqb st GIT_DELTA_IGNORED
     && negb (flag_set (diff_flags diff) GIT_DIFF_INCLUDE_IGNORED)
  then diff
  else if delta_t_eqb st GIT_DELTA_UNTRACKED
     && negb (flag_set (diff_flags diff) GIT_DIFF_INCLUDE_UNTRACKED)
  then diff
  else if negb (git_pathspec_match_path (pathspec diff) (e_path entry)
                  (flag_set (diff_flags diff) GIT_DIFF_DISABLE_PATHSPEC_MATCH)
                  (flag_set (diff_flags diff) GIT_DIFF_DELTAS_ARE_ICASE))
  then diff
  else git_vector_insert diff (delta_from_one diff st entry).

(** The body of [diff_delta__from_two] after the filter: the delta that is
    inserted.  [new_oid] is the override hash, [None] for a null pointer. *)
Definition delta_from_two (diff : git_diff_list) (st : git_delta_t)
    (old_entry : git_index_entry) (old_mode : Z)
    (new_entry : git_index_entry) (new_mode : Z)
    (new_oid : option git_oid) : git_diff_delta :=
  let reverse := flag_set (diff_flags diff) GIT_DIFF_REVERSE in
  let '(old_entry, new_entry, old_mode, new_mode) :=
    if reverse
    then (new_entry, old_entry, new_mode, old_mode)
    else (old_entry, new_entry, old_mode, new_mode) in
  let delta := diff_delta__alloc diff st (e_path old_entry) in
  let delta :=
    with_old delta
      (set_flags (set_mode (set_size (set_oid (old_file delta)
                                        (e_oid old_entry))
                              (e_file_size old_entry)) old_mode)
         (Z.lor (f_flags (old_file delta)) GIT_DIFF_FILE_VALID_OID)) in
  let delta :=
    with_new delta
      (set_mode (set_size (set_oid (new_file delta) (e_oid new_entry))
                   (e_file_size new_entry)) new_mode) in
  let delta :=
    match new_oid with
    | Some o =>
        if reverse
        then with_old delta (set_oid (old_file delta) o)
        else with_new delta (set_oid (new_file delta) o)
    | None => delta
    end in
  if (match new_oid with Some _ => true | None => false end)
     || negb (git_oid_iszero (e_oid new_entry))
  then
    with_new delta
      (set_flags (new_file delta)
         (Z.lor (f_flags (new_file delta)) GIT_DIFF_FILE_VALID_OID))
  else delta.

Definition diff_delta__from_two (diff : git_diff_list) (st : git_delta_t)
    (old_entry : git_index_entry) (old_mode : Z)
    (new_entry : git_index_entry) (new_mode : Z)
    (new_oid : option git_oid) : git_diff_list :=
  if delta_t_eqb st GIT_DELTA_UNMODIFIED
     && negb (flag_set (diff_flags diff) GIT_DIFF_INCLUDE_UNMODIFIED)
  then diff
  else
    git_vector_insert diff
      (delta_from_two diff st old_entry old_mode new_entry new_mode
         new_oid).

Definition diff_delta__last_for_item (diff : git_diff_list)
    (item : git_index_entry) : option git_diff_delta :=
  match git_vector_last diff with
  | None => None
  | Some delta =>
      match status delta with
      | GIT_DELTA_UNMODIFIED
      | GIT_DELTA_DELETED =>
          if git_oid_cmp (f_oid (old_file delta)) (e_oid item) =? 0
          then Some delta else None
      | GIT_DELTA_ADDED =>
          if git_oid_cmp (f_oid (new_file delta)) (e_oid item) =? 0
          then Some delta else None
      | GIT_DELTA_MODIFIED =>
          if (git_oid_cmp (f_oid (old_file delta)) (e_oid item) =? 0)
             || (git_oid_cmp (f_oid (new_file delta)) (e_oid item) =? 0)
          then Some delta else None
      | _ => None
      end
  end.

Definition last_char (s : string) : option ascii :=
  match String.length s with
  | O => None
  | S n => String.get n s
  end.

Definition diff_strdup_prefix (prefix : string) : string :=
  (* append '/' at end if needed *)
  if (0 <? Z.of_nat (String.length prefix))
     && negb (is_slash (last_char prefix))
  then String.append prefix "/"
  else prefix.

Definition git_diff_delta__cmp (da db : git_diff_delta) : Z :=
  let val := strcmp (f_path (old_file da)) (f_path (old_file db)) in
  if negb (val =? 0) then val
  else delta_t_to_int (status da) - delta_t_to_int (status db).

Definition git_diff_delta__should_skip (opts : option git_diff_options)
    (delta : git_diff_delta) : bool :=
  let flags := match opts with Some o => opt_flags o | None => 0 end in
  if delta_t_eqb (status delta) GIT_DELTA_UNMODIFIED
     && negb (flag_set flags GIT_DIFF_INCLUDE_UNMODIFIED) then true
  else if delta_t_eqb (status delta) GIT_DELTA_IGNORED
     && negb (flag_set flags GIT_DIFF_INCLUDE_IGNORED) then true
  else if delta_t_eqb (status delta) GIT_DELTA_UNTRACKED
     && negb (flag_set flags GIT_DIFF_INCLUDE_UNTRACKED) then true
  else false.

(* ================================================================== *)
(** * Capability negotiation (src/diff.c) *)

Definition config_bool (cfg : git_config) (name : string) (defvalue : Z)
  : Z :=
  let val := defvalue in
  let '(rc, val) := git_config_get_bool val cfg name in
  (* a negative [rc] only clears the error *)
  val.

Definition DIFF_OLD_PREFIX_DEFAULT : string := "a/".
Definition DIFF_NEW_PREFIX_DEFAULT : string := "b/".

(** A null comparator pointer, as [git__calloc] leaves it until
    [diff_list_init_from_iterators] runs; it is never called. *)
Definition null_comparator {A} : A -> A -> Z := fun _ _ => 0.

(** "load config values that affect diff behavior" *)
Definition load_config_caps (cfg : git_config) (diff : git_diff_list)
  : git_diff_list :=
  let diff :=
    if negb (config_bool cfg "core.symlinks" 1 =? 0)
    then set_diffcaps diff (Z.lor (diffcaps diff) GIT_DIFFCAPS_HAS_SYMLINKS)
    else diff in
  let diff :=
    if negb (config_bool cfg "core.ignorestat" 0 =? 0)
    then set_diffcaps diff
           (Z.lor (diffcaps diff) GIT_DIFFCAPS_ASSUME_UNCHANGED)
    else diff in
  let diff :=
    if negb (config_bool cfg "core.filemode" 1 =? 0)
    then set_diffcaps diff
           (Z.lor (diffcaps diff) GIT_DIFFCAPS_TRUST_MODE_BITS)
    else diff in
  let diff :=
    if negb (config_bool cfg "core.trustctime" 1 =? 0)
    then set_diffcaps diff (Z.lor (diffcaps diff) GIT_DIFFCAPS_TRUST_CTIME)
    else diff in
  (* Don't set GIT_DIFFCAPS_USE_DEV - compile time option in core git *)
  diff.

(** The part of [git_diff_list_alloc] that runs when options are given. *)
Definition apply_options (diff : git_diff_list) (o : git_diff_options)
  : git_diff_list :=
  (* memcpy(&diff->opts, opts, sizeof(git_diff_options)) *)
  let diff := set_opts diff o in
  let diff :=
    if flag_set (opt_flags o) GIT_DIFF_IGNORE_FILEMODE
    then set_diffcaps diff
           (Z.land (diffcaps diff) (Z.lnot GIT_DIFFCAPS_TRUST_MODE_BITS))
    else diff in
  (* pathspec init will do nothing for empty pathspec *)
  let diff :=
    mk_diff (repo diff) (opts diff) (opt_pathspec o) (deltas diff)
      (old_src diff) (new_src diff) (diffcaps diff) (strcomp diff)
      (pfxcomp diff) (entrycomp diff) in
  let old_prefix :=
    diff_strdup_prefix
      (match opt_old_prefix o with
       | Some p => p | None => DIFF_OLD_PREFIX_DEFAULT end) in
  let new_prefix :=
    diff_strdup_prefix
      (match opt_new_prefix o with
       | Some p => p | None => DIFF_NEW_PREFIX_DEFAULT end) in
  let '(old_prefix, new_prefix) :=
    if flag_set (diff_flags diff) GIT_DIFF_REVERSE
    then (new_prefix, old_prefix)
    else (old_prefix, new_prefix) in
  let diff :=
    set_opts diff
      (mk_opts (diff_flags diff) (Some old_prefix) (Some new_prefix)
         (opt_pathspec (opts diff))) in
  (* INCLUDE_TYPECHANGE_TREES implies INCLUDE_TYPECHANGE *)
  if flag_set (diff_flags diff) GIT_DIFF_INCLUDE_TYPECHANGE_TREES
  then set_opts diff
         (set_opt_flags (opts diff)
            (Z.lor (diff_flags diff) GIT_DIFF_INCLUDE_TYPECHANGE))
  else diff.

(** [None] is the null pointer of the [fail:] exit. *)
Definition git_diff_list_alloc (rp : git_repository)
    (options : option git_diff_options) : option git_diff_list :=
  let diff :=
    mk_diff rp (mk_opts 0 None None []) [] [] GIT_ITERATOR_EMPTY
      GIT_ITERATOR_EMPTY 0 null_comparator null_comparator
      null_comparator in
  match repo_config rp with
  | None => None
  | Some cfg =>
      let diff := load_config_caps cfg diff in
      match options with
      | None => Some diff
      | Some o => Some (apply_options diff o)
      end
  end.

(* ================================================================== *)
(** * The content hasher (src/diff.c) *)

Notation "' pat <- m ;; k" :=
  (bind m (fun x => match x with pat => k end))
  (at level 61, pat pattern, m at next level, right associativity).

(** Modelled from the spec: [git_buf_joinpath] (buffer.c). *)
Definition git_buf_joinpath (a b : string) : string :=
  match a with
  | EmptyString => b
  | _ => if is_slash (last_char a) then String.append a b
         else String.append a (String "/" b)
  end.

(** [uint16_t mode]: the parameter keeps the low sixteen bits. *)
Definition to_uint16 (m : Z) : Z := m mod 65536.

Definition git_diff__oid_for_file (rp : git_repository) (path : string)
    (mode : Z) (size : Z) : M git_oid :=
  tell (Call_oid_for_file path mode size) ;;;
  let mode := to_uint16 mode in
  let full_path := git_buf_joinpath (repo_workdir rp) path in
  '(mode, size) <-
     (if mode =? 0 then
        match repo_stat rp path with
        | None => fail
        | Some (st_mode, st_size) => ret (to_uint16 st_mode, st_size)
        end
      else ret (mode, size)) ;;
  (* calculate OID for file if possible *)
  if S_ISGITLINK mode then
    tell (Call_submodule_lookup path) ;;;
    match repo_submodule_lookup rp path with
    | Some sm =>
        match sm_wd_oid sm with
        | Some sm_oid => ret sm_oid
        | None => ret 0
        end
    | None => ret 0
    end
  else if S_ISLNK mode then
    lift_option (repo_hashlink rp full_path)
  else if negb (repo_is_sizet rp size) then
    fail
  else
    lift_option (repo_hash_filtered rp full_path size).

(* ================================================================== *)
(** * Entry sources *)

(** Modelled from the spec: an Entry Source (iterator.c is not under
    src/).  A source holds the entries it has still to produce, in its
    order; a working-directory source lists a directory entry (mode
    directory, path ending in a slash) before what the directory contains.
    Each item knows whether the ignore rules match it and, for a
    directory, whether it holds a repository metadata marker. *)
Record source_item := mk_item {
  si_entry : git_index_entry;
  si_ignored : bool;
  si_has_dot_git : bool
}.

Record git_iterator := mk_iter {
  it_type : git_iterator_type_t;
  ignore_case : bool;
  it_items : list source_item
}.

Definition set_items (it : git_iterator) (l : list source_item) :=
  mk_iter (it_type it) (ignore_case it) l.

Definition git_iterator_current (it : git_iterator)
  : option git_index_entry :=
  match it_items it with
  | [] => None
  | i :: _ => Some (si_entry i)
  end.

(** What lies below the directory [dir] at the front of the listing. *)
Fixpoint skip_below (dir : string) (l : list source_item)
  : list source_item :=
  match l with
  | [] => []
  | i :: l' =>
      if git__prefixcmp (e_path (si_entry i)) dir =? 0
      then skip_below dir l' else l
  end.

(** [advance]: to the next sibling; a working-directory source steps over
    the content of a directory it is not asked to descend into. *)
Definition git_iterator_advance (it : git_iterator) : git_iterator :=
  match it_items it with
  | [] => it
  | i :: l =>
      if is_workdir (it_type it) && S_ISDIR (e_mode (si_entry i))
      then set_items it (skip_below (e_path (si_entry i)) l)
      else set_items it l
  end.

(** [advance_into_directory]: descend; on another kind of source, or when
    not at a directory, nothing moves. *)
Definition git_iterator_advance_into_directory (it : git_iterator)
  : git_iterator :=
  match it_items it with
  | [] => it
  | i :: l =>
      if is_workdir (it_type it) && S_ISDIR (e_mode (si_entry i))
      then set_items it l
      else it
  end.

Definition git_iterator_current_is_ignored (it : git_iterator) : bool :=
  match it_items it with
  | [] => false
  | i :: _ => is_workdir (it_type it) && si_ignored i
  end.

(** [git_iterator_current_workdir_path] followed by
    [git_path_contains_dir(full, DOT_GIT)]. *)
Definition current_workdir_path_contains_dot_git (it : git_iterator)
  : bool :=
  match it_items it with
  | [] => false
  | i :: _ => is_workdir (it_type it) && si_has_dot_git i
  end.

(** Stable insertion sort, for [spool_and_sort]. *)
Fixpoint insert_sorted (cmp : git_index_entry -> git_index_entry -> Z)
    (x : source_item) (l : list source_item) : list source_item :=
  match l with
  | [] => [x]
  | y :: l' =>
      if cmp (si_entry x) (si_entry y) <=? 0 then x :: l
      else y :: insert_sorted cmp x l'
  end.

(** The loop of [spool_and_sort] that drains the wrapped source with
    [advance]; a listing of [n] items is drained within [n] steps. *)
Fixpoint spool (n : nat) (it : git_iterator) : list source_item :=
  match n with
  | O => []
  | S n' =>
      match it_items it with
      | [] => []
      | i :: _ =>
          mk_item (si_entry i) false false
          :: spool n' (git_iterator_advance it)
      end
  end.

(** Modelled from the spec: [git_iterator_spoolandsort]: the entries of
    the wrapped source, re-sorted under [comparer]. *)
Definition git_iterator_spoolandsort (towrap : git_iterator)
    (comparer : git_index_entry -> git_index_entry -> Z)
    (icase : bool) : git_iterator :=
  mk_iter GIT_ITERATOR_SPOOLANDSORT icase
    (fold_right (insert_sorted comparer) []
       (spool (List.length (it_items towrap)) towrap)).

(* ================================================================== *)
(** * The classifier (src/diff.c, [maybe_modified]) *)

Definition git_submodule_lookup (rp : git_repository) (path : string)
  : M git_submodule :=
  tell (Call_submodule_lookup path) ;;;
  lift_option (repo_submodule_lookup rp path).

Definition git_submodule_status (path : string) (sub : git_submodule)
  : M Z :=
  tell (Call_submodule_status path) ;;;
  lift_option (sm_status sub).

(** The two mode normalisations that open [maybe_modified]. *)
Definition normalized_nmode (diff : git_diff_list) (new_is_workdir : bool)
    (omode nmode : Z) : Z :=
  (* on platforms with no symlinks, preserve mode of existing symlinks *)
  let nmode :=
    if S_ISLNK omode && S_ISREG nmode && new_is_workdir
       && negb (flag_set (diffcaps diff) GIT_DIFFCAPS_HAS_SYMLINKS)
    then omode else nmode in
  (* on platforms with no execmode, just preserve old mode *)
  if negb (flag_set (diffcaps diff) GIT_DIFFCAPS_TRUST_MODE_BITS)
     && negb (Z.land nmode MODE_BITS_MASK =? Z.land omode MODE_BITS_MASK)
     && new_is_workdir
  then Z.lor (Z.land nmode (Z.lnot MODE_BITS_MASK))
             (Z.land omode MODE_BITS_MASK)
  else nmode.

(** "if the stat data looks exactly alike, then assume the same" *)
Definition stat_looks_alike (diff : git_diff_list)
    (oitem nitem : git_index_entry) (omode nmode : Z) : bool :=
  (omode =? nmode)
  && (e_file_size oitem =? e_file_size nitem)
  && (negb (flag_set (diffcaps diff) GIT_DIFFCAPS_TRUST_CTIME)
      || (e_ctime_seconds oitem =? e_ctime_seconds nitem))
  && (e_mtime_seconds oitem =? e_mtime_seconds nitem)
  && (negb (flag_set (diffcaps diff) GIT_DIFFCAPS_USE_DEV)
      || (e_dev oitem =? e_dev nitem))
  && (e_ino oitem =? e_ino nitem)
  && (e_uid oitem =? e_uid nitem)
  && (e_gid oitem =? e_gid nitem).

(** The [if / else if] chain of [maybe_modified]: it either returns from
    the function with the diff list it built (the type split), or leaves
    a status and possibly a hash taken from the submodule provider. *)
Definition classify_chain (diff : git_diff_list) (new_is_workdir : bool)
    (oitem nitem : git_index_entry) (omode nmode : Z)
  : M (git_diff_list + git_delta_t * option git_oid) :=
  (* support "assume unchanged" (poorly, b/c we still stat everything) *)
  if flag_set (diffcaps diff) GIT_DIFFCAPS_ASSUME_UNCHANGED then
    ret (inr (if flag_set (e_flags_extended oitem) GIT_IDXENTRY_INTENT_TO_ADD
              then GIT_DELTA_MODIFIED else GIT_DELTA_UNMODIFIED, None))
  (* support "skip worktree" index bit *)
  else if flag_set (e_flags_extended oitem) GIT_IDXENTRY_SKIP_WORKTREE then
    ret (inr (GIT_DELTA_UNMODIFIED, None))
  (* if basic type of file changed, then split into delete and add *)
  else if negb (GIT_MODE_TYPE omode =? GIT_MODE_TYPE nmode) then
    if flag_set (diff_flags diff) GIT_DIFF_INCLUDE_TYPECHANGE then
      ret (inr (GIT_DELTA_TYPECHANGE, None))
    else
      ret (inl (diff_delta__from_one
                  (diff_delta__from_one diff GIT_DELTA_DELETED oitem)
                  GIT_DELTA_ADDED nitem))
  (* if oids and modes match, then file is unmodified *)
  else if git_oid_equal (e_oid oitem) (e_oid nitem) && (omode =? nmode) then
    ret (inr (GIT_DELTA_UNMODIFIED, None))
  (* if we have an unknown OID and a workdir iterator, then check some
     circumstances that can accelerate things or need special handling *)
  else if git_oid_iszero (e_oid nitem) && new_is_workdir then
    (* if the stat data looks exactly alike, then assume the same *)
    if stat_looks_alike diff oitem nitem omode nmode then
      ret (inr (GIT_DELTA_UNMODIFIED, None))
    else if S_ISGITLINK nmode then
      if flag_set (diff_flags diff) GIT_DIFF_IGNORE_SUBMODULES then
        ret (inr (GIT_DELTA_UNMODIFIED, None))
      else
        sub <- git_submodule_lookup (repo diff) (e_path nitem) ;;
        if sm_ignore sub =? GIT_SUBMODULE_IGNORE_ALL then
          ret (inr (GIT_DELTA_UNMODIFIED, None))
        else
          sm_status <- git_submodule_status (e_path nitem) sub ;;
          let st :=
            if GIT_SUBMODULE_STATUS_IS_UNMODIFIED sm_status
            then GIT_DELTA_UNMODIFIED else GIT_DELTA_MODIFIED in
          (* grab OID while we are here *)
          let use_noid :=
            if git_oid_iszero (e_oid nitem) then sm_wd_oid sub else None in
          ret (inr (st, use_noid))
    else ret (inr (GIT_DELTA_MODIFIED, None))
  else ret (inr (GIT_DELTA_MODIFIED, None)).

Definition maybe_modified (old_iter : git_iterator)
    (oitem : git_index_entry) (new_iter : git_iterator)
    (nitem : git_index_entry) (diff : git_diff_list) : M git_diff_list :=
  let omode := e_mode oitem in
  let nmode := e_mode nitem in
  let new_is_workdir := is_workdir (it_type new_iter) in
  if negb (git_pathspec_match_path (pathspec diff) (e_path oitem)
             (flag_set (diff_flags diff) GIT_DIFF_DISABLE_PATHSPEC_MATCH)
             (flag_set (diff_flags diff) GIT_DIFF_DELTAS_ARE_ICASE))
  then ret diff
  else
    let nmode := normalized_nmode diff new_is_workdir omode nmode in
    r <- classify_chain diff new_is_workdir oitem nitem omode nmode ;;
    match r with
    | inl diff' => ret diff'
    | inr (st, use_noid) =>
        (* if we got here and decided that the files are modified, but we
           haven't calculated the OID of the new item, then calculate it
           now *)
        '(st, use_noid) <-
           (if negb (delta_t_eqb st GIT_DELTA_UNMODIFIED)
               && git_oid_iszero (e_oid nitem)
            then
              noid <-
                (match use_noid with
                 | None =>
                     git_diff__oid_for_file (repo diff) (e_path nitem)
                       (e_mode nitem) (e_file_size nitem)
                 | Some o => ret o
                 end) ;;
              ret (if (omode =? nmode) && git_oid_equal (e_oid oitem) noid
                   then GIT_DELTA_UNMODIFIED else st, Some noid)
            else ret (st, use_noid)) ;;
        ret (diff_delta__from_two diff st oitem omode nitem nmode use_noid)
    end.

(* ================================================================== *)
(** * The merge-join driver (src/diff.c) *)

Definition entry_is_prefixed (diff : git_diff_list) (item : git_index_entry)
    (prefix_item : option git_index_entry) : bool :=
  match prefix_item with
  | None => false
  | Some prefix_item =>
      if negb (pfxcomp diff (e_path prefix_item) (e_path item) =? 0)
      then false
      else
        let pathlen := String.length (e_path item) in
        is_slash (last_char (e_path item))
        || is_nul (char_at (e_path prefix_item) pathlen)
        || is_slash (char_at (e_path prefix_item) pathlen)
  end.

Definition diff_list_init_from_iterators (diff : git_diff_list)
    (old_iter new_iter : git_iterator) : git_diff_list :=
  let o := opts diff in
  (* Use case-insensitive compare if either iterator has
     the ignore_case bit set *)
  if negb (ignore_case old_iter) && negb (ignore_case new_iter) then
    mk_diff (repo diff)
      (set_opt_flags o (Z.land (opt_flags o)
                          (Z.lnot GIT_DIFF_DELTAS_ARE_ICASE)))
      (pathspec diff) (deltas diff) (it_type old_iter) (it_type new_iter)
      (diffcaps diff) strcmp git__prefixcmp git_index_entry__cmp
  else
    mk_diff (repo diff)
      (set_opt_flags o (Z.lor (opt_flags o) GIT_DIFF_DELTAS_ARE_ICASE))
      (pathspec diff) (deltas diff) (it_type old_iter) (it_type new_iter)
      (diffcaps diff) strcasecmp git__prefixcmp_icase
      git_index_entry__cmp_icase.

(** The variables of the loop of [diff_from_iterators]; [oitem] and [nitem]
    are the current entries of the two sources. *)
Record loop_state := mk_loop {
  ls_diff : git_diff_list;
  ls_old : git_iterator;
  ls_new : git_iterator;
  ls_ignore_prefix : string
}.

(** "this entry has become a tree! convert to TYPECHANGE" *)
Definition patch_last (diff : git_diff_list)
    (last : option git_diff_delta) (new_side : bool) : git_diff_list :=
  match last with
  | Some last =>
      let last := with_status last GIT_DELTA_TYPECHANGE in
      set_vector_last diff
        (if new_side
         then with_new last (set_mode (new_file last) GIT_FILEMODE_TREE)
         else with_old last (set_mode (old_file last) GIT_FILEMODE_TREE))
  | None => diff
  end.

(** create DELETED records for old items not matched in new *)
Definition old_only (s : loop_state) (oitem : git_index_entry)
    (nitem : option git_index_entry) : M loop_state :=
  let diff := diff_delta__from_one (ls_diff s) GIT_DELTA_DELETED oitem in
  (* if we are generating TYPECHANGE records then check for that
     instead of just generating a DELETE record *)
  let diff :=
    if flag_set (diff_flags diff) GIT_DIFF_INCLUDE_TYPECHANGE_TREES
       && entry_is_prefixed diff oitem nitem
    then patch_last diff (diff_delta__last_for_item diff oitem) true
    else diff in
  ret (mk_loop diff (git_iterator_advance (ls_old s)) (ls_new s)
         (ls_ignore_prefix s)).

(** create ADDED, TRACKED, or IGNORED records for new items not matched
    in old (and/or descend into directories as needed) *)
Definition new_only (s : loop_state) (oitem : option git_index_entry)
    (nitem : git_index_entry) : M loop_state :=
  let diff := ls_diff s in
  let new_iter := ls_new s in
  let ignore_prefix := ls_ignore_prefix s in
  let delta_type := GIT_DELTA_UNTRACKED in
  (* check if contained in ignored parent directory *)
  let delta_type :=
    if negb (Z.of_nat (String.length ignore_prefix) =? 0)
       && (pfxcomp diff (e_path nitem) ignore_prefix =? 0)
    then GIT_DELTA_IGNORED else delta_type in
  (* [inl]: the iteration ends with [continue]; [inr]: the status to emit *)
  let decision : loop_state + git_delta_t :=
    if S_ISDIR (e_mode nitem) then
      (* recurse into directory only if there are tracked items in
         it or if the user requested the contents of untracked
         directories and it is not under an ignored directory. *)
      let contains_tracked := entry_is_prefixed diff nitem oitem in
      let recurse_untracked :=
        delta_t_eqb delta_type GIT_DELTA_UNTRACKED
        && flag_set (diff_flags diff) GIT_DIFF_RECURSE_UNTRACKED_DIRS in
      (* do not advance into directories that contain a .git file *)
      let recurse_untracked :=
        if negb contains_tracked && recurse_untracked then
          if current_workdir_path_contains_dot_git new_iter
          then false else recurse_untracked
        else recurse_untracked in
      if contains_tracked || recurse_untracked then
        (* if this directory is ignored, remember it as the
           "ignore_prefix" for processing contained items *)
        let ignore_prefix :=
          if delta_t_eqb delta_type GIT_DELTA_UNTRACKED
             && git_iterator_current_is_ignored new_iter
          then e_path nitem else ignore_prefix in
        inl (mk_loop diff (ls_old s)
               (git_iterator_advance_into_directory new_iter) ignore_prefix)
      else inr delta_type
    else if delta_t_eqb delta_type GIT_DELTA_IGNORED then
      (* ignored parent directory, so skip completely *)
      inl (mk_loop diff (ls_old s) (git_iterator_advance new_iter)
             ignore_prefix)
    else if git_iterator_current_is_ignored new_iter then
      inr GIT_DELTA_IGNORED
    else if negb (is_workdir (it_type new_iter)) then
      inr GIT_DELTA_ADDED
    else inr delta_type in
  match decision with
  | inl s' => ret s'
  | inr delta_type =>
      let diff := diff_delta__from_one diff delta_type nitem in
      (* if we are generating TYPECHANGE records then check for that
         instead of just generating an ADD/UNTRACKED record *)
      let diff :=
        if negb (delta_t_eqb delta_type GIT_DELTA_IGNORED)
           && flag_set (diff_flags diff) GIT_DIFF_INCLUDE_TYPECHANGE_TREES
           && entry_is_prefixed diff nitem oitem
        then
          (* this entry was a tree! convert to TYPECHANGE *)
          patch_last diff
            (match oitem with
             | Some oitem => diff_delta__last_for_item diff oitem
             | None => None
             end) false
        else diff in
      ret (mk_loop diff (ls_old s) (git_iterator_advance new_iter)
             ignore_prefix)
  end.

(** otherwise item paths match, so create MODIFIED record
    (or ADDED and DELETED pair if type changed) *)
Definition matched (s : loop_state) (oitem nitem : git_index_entry)
  : M loop_state :=
  diff <- maybe_modified (ls_old s) oitem (ls_new s) nitem (ls_diff s) ;;
  ret (mk_loop diff (git_iterator_advance (ls_old s))
         (git_iterator_advance (ls_new s)) (ls_ignore_prefix s)).

(** One pass through the body of [while (oitem || nitem)]. *)
Definition diff_iteration (s : loop_state) : M loop_state :=
  let diff := ls_diff s in
  let oitem := git_iterator_current (ls_old s) in
  let nitem := git_iterator_current (ls_new s) in
  match oitem, nitem with
  | None, None => ret s
  | Some o, None => old_only s o nitem
  | None, Some n => new_only s oitem n
  | Some o, Some n =>
      if entrycomp diff o n <? 0 then old_only s o nitem
      else if entrycomp diff o n >? 0 then new_only s oitem n
      else matched s o n
  end.

(** run iterators building diffs; [fuel] bounds the number of passes. *)
Fixpoint diff_loop (fuel : nat) (s : loop_state) : M loop_state :=
  match git_iterator_current (ls_old s), git_iterator_current (ls_new s) with
  | None, None => ret s
  | _, _ =>
      match fuel with
      | O => timeout
      | S fuel' => s' <- diff_iteration s ;; diff_loop fuel' s'
      end
  end.

(** Every pass shortens one of the two listings, so their joint length
    bounds the number of passes. *)
Definition loop_fuel (old_iter new_iter : git_iterator) : nat :=
  List.length (it_items old_iter) + List.length (it_items new_iter).

(** The sources as the loop reads them: spooled and re-sorted when the
    comparison is case-insensitive and the source is not. *)
Definition spool_if_needed (diff : git_diff_list) (it : git_iterator)
  : git_iterator :=
  if flag_set (diff_flags diff) GIT_DIFF_DELTAS_ARE_ICASE
     && negb (ignore_case it)
  then git_iterator_spoolandsort it (entrycomp diff) true
  else it.

Definition diff_from_iterators (rp : git_repository)
    (old_iter new_iter : git_iterator) (options : option git_diff_options)
  : M git_diff_list :=
  match git_diff_list_alloc rp options with
  | None => fail
  | Some diff =>
      let diff := diff_list_init_from_iterators diff old_iter new_iter in
      let old_iter := spool_if_needed diff old_iter in
      let new_iter := spool_if_needed diff new_iter in
      s <- diff_loop (loop_fuel old_iter new_iter)
             (mk_loop diff old_iter new_iter EmptyString) ;;
      ret (ls_diff s)
  end.

(* ================================================================== *)
(** * The stash callbacks (src/stash.c) *)

Module Stash.

(** Modelled from the spec: the staged index as the collaborator the
    stash layer updates (index.c is not under src/): the paths it holds,
    and which paths the working directory can supply to
    [git_index_add_from_workdir]. *)
Record git_index := mk_index {
  idx_paths : list string;
  idx_in_workdir : string -> bool
}.

Fixpoint find_pos (l : list string) (path : string) (pos : Z) : Z :=
  match l with
  | [] => GIT_ENOTFOUND
  | p :: l' => if String.eqb p path then pos else find_pos l' path (pos + 1)
  end.

Definition git_index_find (index : git_index) (path : string) : Z :=
  find_pos (idx_paths index) path 0.

Definition git_index_remove (index : git_index) (path : string)
    (stage : Z) : Z * git_index :=
  if git_index_find index path <? 0 then (GIT_ENOTFOUND, index)
  else
    (0, mk_index (filter (fun p => negb (String.eqb p path))
                    (idx_paths index))
          (idx_in_workdir index)).

Definition git_index_add_from_workdir (index : git_index) (path : string)
  : Z * git_index :=
  if idx_in_workdir index path then
    (0, mk_index
          (if git_index_find index path <? 0
           then idx_paths index ++ [path] else idx_paths index)
          (idx_in_workdir index))
  else (-1, index).

Record cb_data := mk_cb_data {
  index : git_index;
  include_changed : bool;
  include_untracked : bool;
  include_ignored : bool
}.

Definition set_index (data : cb_data) (i : git_index) : cb_data :=
  mk_cb_data i (include_changed data) (include_untracked data)
    (include_ignored data).

(** The callback returns its [int] and leaves the index, reached through
    [data->index], as updated. *)
Definition update_index_cb (data : cb_data) (delta : git_diff_delta)
    (progress : nat * nat) : Z * cb_data :=
  let add_new :=
    let '(rc, i) :=
      git_index_add_from_workdir (index data) (f_path (new_file delta)) in
    (rc, set_index data i) in
  (* default: Unimplemented *)
  let unimplemented (data : cb_data) : Z * cb_data := (-1, data) in
  match status delta with
  | GIT_DELTA_IGNORED =>
      if negb (include_ignored data) then (0, data) else add_new
  | GIT_DELTA_UNTRACKED =>
      if negb (include_untracked data) then (0, data) else add_new
  | GIT_DELTA_ADDED (* Fall through *)
  | GIT_DELTA_MODIFIED =>
      if negb (include_changed data) then (0, data) else add_new
  | GIT_DELTA_DELETED =>
      if negb (include_changed data) then (0, data)
      else
        let pos := git_index_find (index data) (f_path (new_file delta)) in
        if pos <? 0 then (-1, data)
        else
          let '(rc, i) :=
            git_index_remove (index data) (f_path (new_file delta)) 0 in
          if rc <? 0 then (-1, set_index data i)
          else
            (* no [break]: control runs on into [default] *)
            unimplemented (set_index data i)
  | _ => unimplemented data
  end.

(** Modelled from the spec: [git_diff_foreach] (diff_output.c is not
    under src/): ordered iteration with fractional progress; a callback
    that does not return zero stops the iteration, which then reports
    the user-cancellation code. *)
Fixpoint foreach_deltas (ds : list git_diff_delta) (i total : nat)
    (data : cb_data)
    (file_cb : cb_data -> git_diff_delta -> nat * nat -> Z * cb_data)
  : Z * cb_data :=
  match ds with
  | [] => (0, data)
  | d :: ds' =>
      let '(rc, data) := file_cb data d (i, total) in
      if negb (rc =? 0) then (GIT_EUSER, data)
      else foreach_deltas ds' (S i) total data file_cb
  end.

Definition git_diff_foreach (diff : git_diff_list) (data : cb_data)
    (file_cb : cb_data -> git_diff_delta -> nat * nat -> Z * cb_data)
  : Z * cb_data :=
  foreach_deltas (deltas diff) 0 (List.length (deltas diff)) data file_cb.

(** Modelled from the spec: references and reflogs (refs.c, reflog.c are
    not under src/).  A lookup yields the reference or a negative error
    code; a reflog is the list of its entries, oldest first. *)
Record git_reflog_entry := mk_reflog_entry {
  entry_msg : string;
  entry_oidnew : git_oid
}.

Record git_reference := mk_reference {
  ref_name : string;
  ref_reflog : Z + list git_reflog_entry
}.

Record stash_repository := mk_stash_repo {
  reference_lookup : string -> Z + git_reference
}.

Definition GIT_REFS_STASH_FILE : string := "refs/stash".

Definition git_reference_lookup (rp : stash_repository) (name : string)
  : Z * option git_reference :=
  match reference_lookup rp name with
  | inl code => (code, None)
  | inr r => (0, Some r)
  end.

Definition git_reflog_read (r : git_reference)
  : Z * list git_reflog_entry :=
  match ref_reflog r with
  | inl code => (code, [])
  | inr l => (0, l)
  end.

Definition null_entry : git_reflog_entry := mk_reflog_entry EmptyString 0.

Section Foreach.
(** The payload the visitor may update, and the visitor. *)
Variable payload_t : Type.
Variable callback : nat -> string -> git_oid -> payload_t -> Z * payload_t.

(** [for (i = 0; i < max; i++)], run over the values still to take. *)
Fixpoint stash_loop (reflog : list git_reflog_entry) (max : nat)
    (indices : list nat) (payload : payload_t) : Z * payload_t :=
  match indices with
  | [] => (0, payload)
  | i :: rest =>
      let entry := nth (max - i - 1) reflog null_entry in
      let '(rc, payload) :=
        callback i (entry_msg entry) (entry_oidnew entry) payload in
      if negb (rc =? 0) then (GIT_EUSER, payload)
      else stash_loop reflog max rest payload
  end.

Definition git_stash_foreach (rp : stash_repository)
    (payload : payload_t) : Z * payload_t :=
  let '(error, stash) := git_reference_lookup rp GIT_REFS_STASH_FILE in
  if error =? GIT_ENOTFOUND then (0, payload)
  else if error <? 0 then (error, payload)
  else
    match stash with
    | None => (error, payload)
    | Some stash =>
        let '(error, reflog) := git_reflog_read stash in
        if error <? 0 then (error, payload)
        else
          let max := List.length reflog in
          stash_loop reflog max (seq 0 max) payload
    end.
End Foreach.

(** ** Visiting and dropping stashed states *)

(** The visits [git_stash_foreach] is to make over the reflog entries
    [l], given with their numbers: in order, until a visitor does not
    return zero. *)
Fixpoint visit_in_order {payload_t : Type}
    (callback : nat -> string -> git_oid -> payload_t -> Z * payload_t)
    (l : list (nat * git_reflog_entry)) (payload : payload_t)
  : Z * payload_t :=
  match l with
  | [] => (0, payload)
  | (i, entry) :: rest =>
      let '(rc, payload) :=
        callback i (entry_msg entry) (entry_oidnew entry) payload in
      if negb (rc =? 0) then (GIT_EUSER, payload)
      else visit_in_order callback rest payload
  end.

(** The calls [git_stash_drop] makes on the reflog and the reference. *)
Inductive stash_call :=
| Call_reflog_drop (idx : Z) (rewrite_previous_entry : bool)
| Call_reflog_write
| Call_reference_delete.

(** Modelled from the spec: what [git_reflog_drop] (by position),
    [git_reflog_write] and [git_reference_delete] return (reflog.c and
    refs.c are not under src/); a negative code is a failure. *)
Record drop_results := mk_drop_results {
  reflog_drop_result : Z -> Z;
  reflog_write_result : Z;
  reference_delete_result : Z
}.

(** [size_t] arithmetic wraps around; [size_t] is taken to be sixty-four
    bits wide. *)
Definition SIZE_MODULUS : Z := 2 ^ 64.

Definition size_sub (a b : Z) : Z := (a - b) mod SIZE_MODULUS.

Definition git_stash_drop (rp : stash_repository) (io : drop_results)
    (index : Z) : list stash_call * Z :=
  let '(error, stash) := git_reference_lookup rp GIT_REFS_STASH_FILE in
  if error <? 0 then ([], error)
  else
    match stash with
    | None => ([], error)
    | Some stash =>
        let '(error, reflog) := git_reflog_read stash in
        if error <? 0 then ([], error)
        else
          let max := Z.of_nat (List.length reflog) in
          if index >? size_sub max 1 then ([], GIT_ENOTFOUND)
          else
            let idx := size_sub (size_sub max index) 1 in
            let error := reflog_drop_result io idx in
            if error <? 0 then ([Call_reflog_drop idx true], error)
            else
              let error := reflog_write_result io in
              if error <? 0
              then ([Call_reflog_drop idx true; Call_reflog_write], error)
              else if max =? 1 then
                ([Call_reflog_drop idx true; Call_reflog_write;
                  Call_reference_delete],
                 reference_delete_result io)
              else ([Call_reflog_drop idx true; Call_reflog_write], error)
    end.

(** A visitor that notes what it is shown and goes on. *)
Definition record_visit (i : nat) (msg : string) (oid : git_oid)
    (seen : list (nat * string * git_oid))
  : Z * list (nat * string * git_oid) :=
  (0, seen ++ [(i, msg, oid)]).

(** ** The message of a stash *)

Definition newline : ascii := "010"%char.

(** Modelled from the spec: [git_oid_allocfmt] (oid.c is not under
    src/): the forty lower-case hexadecimal digits of the hash. *)
Definition hex_digit (n : Z) : ascii :=
  if n <? 10 then ascii_of_N (Z.to_N (48 + n))
  else ascii_of_N (Z.to_N (87 + n)).

Fixpoint fmt_hex (k : nat) (x : Z) (acc : string) : string :=
  match k with
  | O => acc
  | S k' => fmt_hex k' (x / 16) (String (hex_digit (x mod 16)) acc)
  end.

Definition git_oid_allocfmt (oid : git_oid) : string :=
  fmt_hex 40 oid EmptyString.

(** [git_buf_put(out, data, len)]: the first [len] bytes of [data] are
    appended. *)
Definition git_buf_put (out data : string) (len : nat) : string :=
  String.append out (substring 0 len data).

Definition append_abbreviated_oid (out : string) (b_commit : git_oid)
  : string :=
  git_buf_put out (git_oid_allocfmt b_commit) 7.

Record git_commit := mk_commit {
  commit_id : git_oid;
  commit_message : string
}.

(** [while (pos < len && message[pos] != '\n') pos++] *)
Fixpoint first_line_length (message : string) : nat :=
  match message with
  | EmptyString => O
  | String c rest =>
      if Ascii.eqb c newline then O else S (first_line_length rest)
  end.

Definition append_commit_description (out : string) (commit : git_commit)
  : string :=
  let out := append_abbreviated_oid out (commit_id commit) in
  let message := commit_message commit in
  let pos := first_line_length message in
  let out := String.append out " " in
  let out := git_buf_put out message pos in
  String.append out (String newline EmptyString).

(** Modelled from the spec: error codes of include/git2/errors.h. *)
Definition GIT_EBAREREPO : Z := -8.
Definition GIT_EORPHANEDHEAD : Z := -9.

(** Modelled from the spec: the symbolic or direct reference
    [git_repository_head] resolves to: its name and the commit it names. *)
Record head_reference := mk_head {
  head_name : string;
  head_oid : git_oid
}.

(** Modelled from the spec: one entry [git_status_foreach_ext] visits. *)
Record status_entry := mk_status_entry {
  status_path : string;
  status_flags : Z
}.

(** Modelled from the spec: what [git_stash_save] asks of the repository
    before it builds commits: whether it is bare, its head (or the
    negative code of [git_repository_head]), its commits, and the status
    entries for a choice of [show] and [flags] (or a negative code). *)
Record working_repository := mk_working_repo {
  repository_is_bare : bool;
  repository_head : Z + head_reference;
  commit_lookup : git_oid -> option git_commit;
  status_list : Z -> Z -> Z + list status_entry
}.

(** [giterr_set] only records the text. *)
Definition create_error (error : Z) (msg : string) : Z := error.

Definition ensure_non_bare_repository (rp : working_repository) : Z :=
  if negb (repository_is_bare rp) then 0
  else
    create_error GIT_EBAREREPO
      "Stash related operations require a working directory.".

Definition retrieve_head (rp : working_repository)
  : Z * option head_reference :=
  match repository_head rp with
  | inl error =>
      (if error =? GIT_EORPHANEDHEAD
       then create_error error "You do not have the initial commit yet."
       else error, None)
  | inr head => (0, Some head)
  end.

Definition GIT_REFS_HEADS_DIR : string := "refs/heads/".

(** [name + strlen(GIT_REFS_HEADS_DIR)]: the name from that byte on.  On
    a name shorter than that the C code reads past the end of the string,
    which has no defined result: [None]. *)
Definition skip_bytes (n : nat) (s : string) : option string :=
  if (n <=? String.length s)%nat
  then Some (substring n (String.length s - n) s)
  else None.

(** The return code, the commit ([None] when the function fails) and the
    buffer, which keeps what was appended by then.  The whole result is
    [None] when the head's name is read past its end. *)
Definition retrieve_base_commit_and_message (rp : working_repository)
    (stash_message : string) : option (Z * option git_commit * string) :=
  match retrieve_head rp with
  | (error, None) => Some (error, None, stash_message)
  | (_, Some head) =>
      let printed :=
        if strcmp "HEAD" (head_name head) =? 0
        then Some (String.append stash_message "(no branch): ")
        else
          match skip_bytes (String.length GIT_REFS_HEADS_DIR)
                  (head_name head) with
          | Some branch =>
              Some (String.append stash_message
                      (String.append branch ": "))
          | None => None
          end in
      match printed with
      | None => None
      | Some stash_message =>
          match commit_lookup rp (head_oid head) with
          | None => Some (-1, None, stash_message)
          | Some b_commit =>
              Some (0, Some b_commit,
                    append_commit_description stash_message b_commit)
          end
      end
  end.

(** [strchr]: the position of the first [c]. *)
Fixpoint strchr (s : string) (c : ascii) : option nat :=
  match s with
  | EmptyString => None
  | String x rest =>
      if Ascii.eqb x c then Some O else option_map S (strchr rest c)
  end.

(** The return code and the content of [msg] afterwards. *)
Definition prepare_worktree_commit_message (msg : string)
    (user_message : option string) : Z * string :=
  let buf := msg in
  let msg := EmptyString in
  match user_message with
  | None => (0, String.append msg (String.append "WIP on " buf))
  | Some user_message =>
      match strchr buf ":" with
      | None => (-1, msg)
      | Some colon =>
          let msg := String.append msg "On " in
          let msg := git_buf_put msg buf colon in
          (0, String.append msg
                (String.append ": "
                   (String.append user_message
                      (String newline EmptyString))))
      end
  end.

(** ** Is there anything to stash *)

(** Modelled from the spec: the options of include/git2/status.h. *)
Definition GIT_STATUS_SHOW_INDEX_AND_WORKDIR : Z := 0.
Definition GIT_STATUS_OPT_INCLUDE_UNTRACKED : Z := Z.shiftl 1 0.
Definition GIT_STATUS_OPT_INCLUDE_IGNORED : Z := Z.shiftl 1 1.
Definition GIT_STATUS_OPT_RECURSE_UNTRACKED_DIRS : Z := Z.shiftl 1 4.

(** Modelled from the spec: [git_status_foreach_ext] (status.c is not
    under src/): the entries are visited in order; a callback that does
    not return zero stops the visit, which then reports the
    user-cancellation code. *)
Fixpoint status_loop (entries : list status_entry)
    (callback : string -> Z -> Z) : Z :=
  match entries with
  | [] => 0
  | e :: rest =>
      if negb (callback (status_path e) (status_flags e) =? 0)
      then GIT_EUSER else status_loop rest callback
  end.

Definition git_status_foreach_ext (rp : working_repository)
    (show flags : Z) (callback : string -> Z -> Z) : Z :=
  match status_list rp show flags with
  | inl error => error
  | inr entries => status_loop entries callback
  end.

Definition is_dirty_cb (path : string) (st : Z) : Z := 1.

(** The flags [ensure_there_are_changes_to_stash] leaves in [opts]. *)
Definition status_flags_for (include_untracked_files
    include_ignored_files : bool) : Z :=
  let flags := 0 in
  let flags :=
    if include_untracked_files
    then Z.lor GIT_STATUS_OPT_INCLUDE_UNTRACKED
           GIT_STATUS_OPT_RECURSE_UNTRACKED_DIRS
    else flags in
  if include_ignored_files then GIT_STATUS_OPT_INCLUDE_IGNORED else flags.

Definition ensure_there_are_changes_to_stash (rp : working_repository)
    (include_untracked_files include_ignored_files : bool) : Z :=
  let error :=
    git_status_foreach_ext rp GIT_STATUS_SHOW_INDEX_AND_WORKDIR
      (status_flags_for include_untracked_files include_ignored_files)
      is_dirty_cb in
  if error =? GIT_EUSER then 0
  else if error =? 0
  then create_error GIT_ENOTFOUND "There is nothing to stash."
  else error.

(** Whether the byte [c] occurs in [s]. *)
Fixpoint contains (c : ascii) (s : string) : bool :=
  match s with
  | EmptyString => false
  | String x rest => Ascii.eqb x c || contains c rest
  end.

(** The head is detached and the message names no branch, or it is the
    branch [branch], named [refs/heads/] and then [branch]. *)
Definition names_branch (head : head_reference) (branch : string) : Prop :=
  (head_name head = "HEAD"%string /\ branch = "(no branch)"%string)
  \/ head_name head = String.append GIT_REFS_HEADS_DIR branch.

(** ** The index of the untracked files *)

(** Modelled from the spec: the flags of include/git2/stash.h. *)
Definition GIT_STASH_KEEP_INDEX : Z := Z.shiftl 1 0.
Definition GIT_STASH_INCLUDE_UNTRACKED : Z := Z.shiftl 1 1.
Definition GIT_STASH_INCLUDE_IGNORED : Z := Z.shiftl 1 2.

(** Modelled from the spec: [git_index_clear] empties the index. *)
Definition git_index_clear (idx : git_index) : git_index :=
  mk_index [] (idx_in_workdir idx).

(** [build_untracked_tree] from [git_index_clear] to [git_diff_foreach].
    The two sources are those [git_diff_workdir_to_tree] makes of the
    tree of the index commit and of the working directory; the result is
    the return code of [git_diff_foreach] and the index as the callback
    left it, from which the tree is then written. *)
Definition build_untracked_index (rp : git_repository) (idx : git_index)
    (flags : Z) (tree_iter workdir_iter : git_iterator)
  : M (Z * git_index) :=
  let idx := git_index_clear idx in
  let opts_flags := 0 in
  let data := mk_cb_data idx false false false in
  let '(opts_flags, data) :=
    if flag_set flags GIT_STASH_INCLUDE_UNTRACKED then
      (Z.lor opts_flags
         (Z.lor GIT_DIFF_INCLUDE_UNTRACKED GIT_DIFF_RECURSE_UNTRACKED_DIRS),
       mk_cb_data (index data) (include_changed data) true
         (include_ignored data))
    else (opts_flags, data) in
  let '(opts_flags, data) :=
    if flag_set flags GIT_STASH_INCLUDE_IGNORED then
      (Z.lor opts_flags GIT_DIFF_INCLUDE_IGNORED,
       mk_cb_data (index data) (include_changed data)
         (include_untracked data) true)
    else (opts_flags, data) in
  diff <- diff_from_iterators rp tree_iter workdir_iter
            (Some (mk_opts opts_flags None None [])) ;;
  ret (let '(rc, data) := git_diff_foreach diff data update_index_cb in
       (rc, index data)).

End Stash.


(* ================================================================== *)
(** * Notions used by the statements *)

(** What the merge-join needs of a path comparator. *)
Record path_order (cmp : string -> string -> Z) : Prop := {
  po_refl : forall a, cmp a a = 0;
  po_antisym : forall a b, cmp b a = - cmp a b;
  po_trans : forall a b c, cmp a b <= 0 -> cmp b c <= 0 -> cmp a c <= 0
}.

(** The documented fallback of a configuration lookup: the stored value,
    or the default when the key is absent or the read fails. *)
Definition cfg_or_default (cfg : git_config) (name : string)
    (default : bool) : bool :=
  match cfg name with
  | CfgValue b => b
  | CfgNotFound | CfgFailure => default
  end.

(** The path of a delta (both sides alias one string). *)
Definition delta_path (d : git_diff_delta) : string := f_path (old_file d).

Definition valid_oid (f : git_diff_file) : bool :=
  flag_set (f_flags f) GIT_DIFF_FILE_VALID_OID.

(** The new-side entry [nitem] has no counterpart on the old side: the
    old source is exhausted or its current entry sorts after [nitem]. *)
Definition new_only_position (diff : git_diff_list) (old_iter : git_iterator)
    (nitem : git_index_entry) : Prop :=
  match git_iterator_current old_iter with
  | None => True
  | Some oitem => entrycomp diff oitem nitem > 0
  end.

(** A call finishes within its fuel, and when it succeeds its result
    satisfies [P]; a failure of a provider promises nothing. *)
Definition finishes_with {A} (m : M A) (P : A -> Prop) : Prop :=
  match snd m with
  | Ok a => P a
  | Error => True
  | Timeout => False
  end.

(** The comparison a run settles on: case-insensitive as soon as one of
    the two sources is. *)
Definition negotiated_icase (old_iter new_iter : git_iterator) : bool :=
  ignore_case old_iter || ignore_case new_iter.

Definition negotiated_strcomp (old_iter new_iter : git_iterator)
  : string -> string -> Z :=
  if negotiated_icase old_iter new_iter then strcasecmp else strcmp.

(** The listing the loop reads: the source itself, or its entries
    spooled and re-sorted when the run is case-insensitive and the source
    is not. *)
Definition listing_as_read (old_iter new_iter it : git_iterator)
  : git_iterator :=
  if negotiated_icase old_iter new_iter && negb (ignore_case it)
  then git_iterator_spoolandsort it git_index_entry__cmp_icase true
  else it.

(** Path order under [cmp]: at or before, and strictly before. *)
Definition path_le (cmp : string -> string -> Z) (a b : string) : Prop :=
  cmp a b <= 0.

Definition path_lt (cmp : string -> string -> Z) (a b : string) : Prop :=
  cmp a b < 0.

Definition item_path (i : source_item) : string := e_path (si_entry i).

(** A listing whose paths strictly increase. *)
Definition items_increasing (cmp : string -> string -> Z)
    (l : list source_item) : Prop :=
  StronglySorted (path_lt cmp) (map item_path l).

(** Paths that never decrease and strictly increase two steps apart: at
    most two neighbours share a path. *)
Definition paths_ordered (cmp : string -> string -> Z) (l : list string)
  : Prop :=
  StronglySorted (path_le cmp) l
  /\ forall i a c,
      nth_error l i = Some a -> nth_error l (2 + i) = Some c ->
      path_lt cmp a c.

Definition no_directories (l : list source_item) : Prop :=
  Forall (fun i => S_ISDIR (e_mode (si_entry i)) = false) l.

(** Directories of the source can be descended into: it is a working
    directory, or it lists no directory at all. *)
Definition can_descend (it : git_iterator) : Prop :=
  is_workdir (it_type it) = true \/ no_directories (it_items it).

(** [diff'] is [diff] with at most [k] deltas appended, whose paths
    satisfy [ok]; the deltas already there keep their paths. *)
Definition extends_by (ok : string -> Prop) (k : nat)
    (diff diff' : git_diff_list) : Prop :=
  diff' = set_deltas diff (deltas diff')
  /\ exists extra,
      map delta_path (deltas diff') = map delta_path (deltas diff) ++ extra
      /\ Forall ok extra
      /\ (List.length extra <= k)%nat.

(** The passes the loop still needs at most. *)
Definition loop_measure (s : loop_state) : nat :=
  loop_fuel (ls_old s) (ls_new s).

(** The invariant of the merge-join under the path comparator [cmp]:
    both listings strictly increase, the delta paths are in order, and
    every delta path lies strictly before every entry still to come. *)
Record loop_inv (cmp : string -> string -> Z) (s : loop_state) : Prop := {
  inv_entrycomp :
    forall a b, entrycomp (ls_diff s) a b = cmp (e_path a) (e_path b);
  inv_old : items_increasing cmp (it_items (ls_old s));
  inv_new : items_increasing cmp (it_items (ls_new s));
  inv_deltas : paths_ordered cmp (map delta_path (deltas (ls_diff s)));
  inv_below_old :
    forall p i, In p (map delta_path (deltas (ls_diff s))) ->
                In i (it_items (ls_old s)) -> path_lt cmp p (item_path i);
  inv_below_new :
    forall p i, In p (map delta_path (deltas (ls_diff s))) ->
                In i (it_items (ls_new s)) -> path_lt cmp p (item_path i);
  inv_descend : can_descend (ls_new s)
}.

(** The status the reverse option records for a requested status. *)
Definition reversed_status (st : git_delta_t) : git_delta_t :=
  match st with
  | GIT_DELTA_ADDED => GIT_DELTA_DELETED
  | GIT_DELTA_DELETED => GIT_DELTA_ADDED
  | _ => st
  end.

(** Two file sides hold the same hash, size and mode (the hash-valid
    flag and the spelling of the path apart). *)
Definition same_side (a b : git_diff_file) : Prop :=
  f_oid a = f_oid b /\ f_size a = f_size b /\ f_mode a = f_mode b.

(** [r] is what a reverse run records where the forward run records [d]:
    the same delta for ignored and untracked; otherwise the two sides
    exchanged, added and deleted swapped, and the paths equal under
    [cmp]. *)
Definition reverse_of (cmp : string -> string -> Z)
    (d r : git_diff_delta) : Prop :=
  match status d with
  | GIT_DELTA_IGNORED | GIT_DELTA_UNTRACKED => r = d
  | st =>
      status r = reversed_status st
      /\ same_side (old_file r) (new_file d)
      /\ same_side (new_file r) (old_file d)
      /\ cmp (delta_path d) (delta_path r) = 0
  end.

(** The statuses two-sided construction is called with. *)
Definition two_sided (st : git_delta_t) : Prop :=
  st = GIT_DELTA_UNMODIFIED \/ st = GIT_DELTA_MODIFIED
  \/ st = GIT_DELTA_TYPECHANGE.

(** The statuses single-sided construction is called with. *)
Definition single_sided (st : git_delta_t) : Prop :=
  st = GIT_DELTA_ADDED \/ st = GIT_DELTA_DELETED
  \/ st = GIT_DELTA_IGNORED \/ st = GIT_DELTA_UNTRACKED.

(** Two calls make the same provider calls and end alike, with results
    related by [R]. *)
Definition runs_alike {A B} (R : A -> B -> Prop) (mf : M A) (mr : M B)
  : Prop :=
  fst mr = fst mf
  /\ match snd mf, snd mr with
     | Ok a, Ok b => R a b
     | Error, Error => True
     | Timeout, Timeout => True
     | _, _ => False
     end.

(** Option flags that differ in the reverse bit only. *)
Definition flags_differ_in_reverse (ff fr : Z) : Prop :=
  flag_set ff GIT_DIFF_REVERSE = false
  /\ flag_set fr GIT_DIFF_REVERSE = true
  /\ forall k, 0 < k ->
               flag_set fr (Z.shiftl 1 k) = flag_set ff (Z.shiftl 1 k).

(** The diff list of a forward run and that of the reverse run over the
    same sources, at the same point of the loop. *)
Record reverse_sim (cmp : string -> string -> Z)
    (df dr : git_diff_list) : Prop := {
  rs_repo : repo dr = repo df;
  rs_pathspec : pathspec dr = pathspec df;
  rs_caps : diffcaps dr = diffcaps df;
  rs_pfxcomp : pfxcomp dr = pfxcomp df;
  rs_entrycomp : entrycomp dr = entrycomp df;
  rs_cmp : forall a b, entrycomp df a b = cmp (e_path a) (e_path b);
  rs_flags : flags_differ_in_reverse (diff_flags df) (diff_flags dr);
  rs_no_trees :
    flag_set (diff_flags df) GIT_DIFF_INCLUDE_TYPECHANGE_TREES = false;
  rs_deltas : Forall2 (reverse_of cmp) (deltas df) (deltas dr)
}.

Definition loop_sim (cmp : string -> string -> Z) (sf sr : loop_state)
  : Prop :=
  ls_old sr = ls_old sf
  /\ ls_new sr = ls_new sf
  /\ ls_ignore_prefix sr = ls_ignore_prefix sf
  /\ reverse_sim cmp (ls_diff sf) (ls_diff sr).

(* ================================================================== *)
(** * Notions used by the statements about whole runs *)


Definition ends_with_slash (s : string) : bool := is_slash (last_char s).

(** A call makes no provider call and succeeds, with a result that
    satisfies [P]. *)
Definition returns {A} (m : M A) (P : A -> Prop) : Prop :=
  exists a, m = ret a /\ P a.

(** A call makes no provider call and ends, and a result it gives
    satisfies [P]; it may fail. *)
Definition quietly {A} (m : M A) (P : A -> Prop) : Prop :=
  fst m = [] /\ finishes_with m P.

(** [runs_to s s']: the loop of the driver gets from [s] to [s'] in zero
    or more passes, none of which fails. *)
Inductive runs_to : loop_state -> loop_state -> Prop :=
  | runs_to_here (s : loop_state) : runs_to s s
  | runs_to_pass (s s1 s' : loop_state) (calls : list provider_call) :
      diff_iteration s = (calls, Ok s1) -> runs_to s1 s' -> runs_to s s'.

(** The entry lies under the prefix, as the driver tests it. *)
Definition under_prefix (diff : git_diff_list) (prefix : string)
    (i : source_item) : Prop :=
  pfxcomp diff (e_path (si_entry i)) prefix = 0.

(** The pathspec test as the two construction paths make it. *)
Definition passes_pathspec (diff : git_diff_list) (path : string) : bool :=
  git_pathspec_match_path (pathspec diff) path
    (flag_set (diff_flags diff) GIT_DIFF_DISABLE_PATHSPEC_MATCH)
    (flag_set (diff_flags diff) GIT_DIFF_DELTAS_ARE_ICASE).

(** What [patch_last] writes over the delta it is given. *)
Definition typechange_patch (d : git_diff_delta) (new_side : bool)
  : git_diff_delta :=
  let last := with_status d GIT_DELTA_TYPECHANGE in
  if new_side
  then with_new last (set_mode (new_file last) GIT_FILEMODE_TREE)
  else with_old last (set_mode (old_file last) GIT_FILEMODE_TREE).

(** A source at a later point of the loop: the same source, with a front
    part of its listing consumed. *)
Definition later_in (it0 it : git_iterator) : Prop :=
  it_type it = it_type it0
  /\ ignore_case it = ignore_case it0
  /\ exists pre, it_items it0 = pre ++ it_items it.

(** Where a delta of a diff list with the settings of [diff] comes from:
    single-sided construction for a status among [allowed], or two-sided
    construction (for a typechange only when typechange deltas are asked
    for), with the filters passed, and then possibly the typechange
    patch, which needs the typechange-trees flag. *)
Inductive built_delta (allowed : git_delta_t -> Prop)
    (diff : git_diff_list) : git_diff_delta -> Prop :=
| built_one (st : git_delta_t) (entry : git_index_entry) :
    allowed st ->
    (st = GIT_DELTA_IGNORED ->
     flag_set (diff_flags diff) GIT_DIFF_INCLUDE_IGNORED = true) ->
    (st = GIT_DELTA_UNTRACKED ->
     flag_set (diff_flags diff) GIT_DIFF_INCLUDE_UNTRACKED = true) ->
    passes_pathspec diff (e_path entry) = true ->
    built_delta allowed diff (delta_from_one diff st entry)
| built_two (st : git_delta_t) (o n : git_index_entry) (om nm : Z)
    (noid : option git_oid) :
    two_sided st ->
    (st = GIT_DELTA_UNMODIFIED ->
     flag_set (diff_flags diff) GIT_DIFF_INCLUDE_UNMODIFIED = true) ->
    (st = GIT_DELTA_TYPECHANGE ->
     flag_set (diff_flags diff) GIT_DIFF_INCLUDE_TYPECHANGE = true) ->
    passes_pathspec diff (e_path o) = true ->
    built_delta allowed diff (delta_from_two diff st o om n nm noid)
| built_patch (d : git_diff_delta) (new_side : bool) :
    flag_set (diff_flags diff) GIT_DIFF_INCLUDE_TYPECHANGE_TREES = true ->
    built_delta allowed diff d ->
    built_delta allowed diff (typechange_patch d new_side).

(** A diff list with the settings of [diff0] whose deltas are all built
    that way. *)
Definition built_list (allowed : git_delta_t -> Prop)
    (diff0 diff : git_diff_list) : Prop :=
  diff = set_deltas diff0 (deltas diff)
  /\ Forall (built_delta allowed diff0) (deltas diff).

(** What the new-only branch leaves in the diff list when it emits a
    delta of status [st] for [nitem]. *)
Definition new_only_emit (s : loop_state) (oitem : option git_index_entry)
    (nitem : git_index_entry) (st : git_delta_t) : git_diff_list :=
  let diff := diff_delta__from_one (ls_diff s) st nitem in
  if negb (delta_t_eqb st GIT_DELTA_IGNORED)
     && flag_set (diff_flags diff) GIT_DIFF_INCLUDE_TYPECHANGE_TREES
     && entry_is_prefixed diff nitem oitem
  then
    patch_last diff
      (match oitem with
       | Some oitem => diff_delta__last_for_item diff oitem
       | None => None
       end) false
  else diff.

(** A file side as [git__calloc] leaves it, its path and flags apart. *)
Definition absent_side (f : git_diff_file) : Prop :=
  f_oid f = 0 /\ f_size f = 0 /\ f_mode f = 0.

(** The option flags a caller asks for; none without options. *)
Definition requested_flags (options : option git_diff_options) : Z :=
  match options with Some o => opt_flags o | None => 0 end.

(** The prefix of one side as allocation normalises it: the caller's, or
    the default, with a slash appended if needed. *)
Definition normalized_prefix (given : option string) (default : string)
  : string :=
  diff_strdup_prefix (match given with Some p => p | None => default end).

(** The option flags of the diff list of a run: those the caller asked
    for, with the typechange flag implied by typechange-trees and the
    case flag as negotiated. *)
Definition run_flags (options : option git_diff_options)
    (old_iter new_iter : git_iterator) (diff : git_diff_list) : Prop :=
  flag_set (diff_flags diff) GIT_DIFF_INCLUDE_TYPECHANGE
  = flag_set (requested_flags options) GIT_DIFF_INCLUDE_TYPECHANGE
    || flag_set (requested_flags options) GIT_DIFF_INCLUDE_TYPECHANGE_TREES
  /\ flag_set (diff_flags diff) GIT_DIFF_DELTAS_ARE_ICASE
     = negotiated_icase old_iter new_iter
  /\ forall k, 0 <= k -> k <> 12 -> k <> 15 ->
       flag_set (diff_flags diff) (Z.shiftl 1 k)
       = flag_set (requested_flags options) (Z.shiftl 1 k).

(** The deltas single-sided construction yields for the entries of a
    listing, one for each entry whose path passes the pathspec. *)
Definition single_sided_deltas (diff : git_diff_list) (st : git_delta_t)
    (l : list source_item) : list git_diff_delta :=
  map (delta_from_one diff st)
    (filter (fun e => passes_pathspec diff (e_path e)) (map si_entry l)).

Definition known_hash (i : source_item) : Prop :=
  git_oid_iszero (e_oid (si_entry i)) = false.

Definition not_intent_to_add (i : source_item) : Prop :=
  flag_set (e_flags_extended (si_entry i)) GIT_IDXENTRY_INTENT_TO_ADD
  = false.

(* ================================================================== *)
(** * Sample inputs *)

Module Sample.

(** A configuration store in which every lookup fails. *)
Definition cfg_unset : git_config := fun _ => CfgNotFound.
Definition cfg_broken : git_config := fun _ => CfgFailure.

(** A repository whose content hasher answers [7] for every file. *)
Definition repo_of (cfg : git_config) : git_repository :=
  mk_repo (Some cfg) "/w" (fun _ => None) (fun _ => None)
    (fun _ => Some 7) (fun _ _ => Some 7) (fun _ => true).

Definition rp : git_repository := repo_of cfg_unset.

(** An entry with the given path, mode and hash, and zeroed stat data. *)
Definition entry (path : string) (mode : Z) (oid : git_oid)
  : git_index_entry :=
  mk_entry 0 0 0 0 mode 0 0 0 oid 0 path.

Definition source (t : git_iterator_type_t)
    (l : list git_index_entry) : git_iterator :=
  mk_iter t false (map (fun e => mk_item e false false) l).

Definition options (flags : Z) : option git_diff_options :=
  Some (mk_opts flags None None []).

(** A diff list as [diff_from_iterators] has it when its loop starts. *)
Definition diff_with (flags caps : Z) (new_kind : git_iterator_type_t)
  : git_diff_list :=
  mk_diff rp (mk_opts flags None None []) [] [] GIT_ITERATOR_INDEX
    new_kind caps strcmp git__prefixcmp git_index_entry__cmp.

(** The deltas of a finished run, [None] for a failed one. *)
Definition deltas_of (r : M git_diff_list) : option (list git_diff_delta) :=
  match snd r with
  | Ok d => Some (deltas d)
  | _ => None
  end.

(** Scenario D: a regular file [link] on the old side, a symlink [link]
    on the new side, between two trees. *)
Definition file_link : git_index_entry := entry "link" 33188 1.
Definition symlink_link : git_index_entry := entry "link" 40960 2.

(** The reverse of it in a working directory that cannot hold symlinks:
    the index has the symlink, the directory scan finds a regular file
    of another size whose hash is not known yet. *)
Definition indexed_symlink : git_index_entry := entry "link" 40960 1.
Definition scanned_file : git_index_entry :=
  mk_entry 0 0 0 0 33188 0 0 12 0 0 "link".

(** The racy pair: an indexed file and its working-directory scan with
    the same stat data and no hash yet; and the same indexed file
    flagged intent-to-add. *)
Definition indexed_file : git_index_entry :=
  mk_entry 100 200 1 42 33188 1000 1000 12 1 0 "a.txt".
Definition scanned_same_stat : git_index_entry :=
  mk_entry 100 200 1 42 33188 1000 1000 12 0 0 "a.txt".
Definition indexed_intent_to_add : git_index_entry :=
  mk_entry 100 200 1 42 33188 1000 1000 12 1 GIT_IDXENTRY_INTENT_TO_ADD
    "a.txt".

(** Scenario E: an ignored directory [build/] holding a file that no
    ignore rule matches, in a working directory. *)
Definition ignored_build_dir : git_iterator :=
  mk_iter GIT_ITERATOR_WORKDIR false
    [mk_item (entry "build/" 16384 0) true false;
     mk_item (entry "build/out.o" 33188 0) false false].

Definition report_everything : Z :=
  Z.lor GIT_DIFF_INCLUDE_IGNORED
    (Z.lor GIT_DIFF_INCLUDE_UNTRACKED GIT_DIFF_RECURSE_UNTRACKED_DIRS).

(** An index with two files, and a working directory that lists the
    directory [dir/] before its content. *)
Definition index_two_files : git_iterator :=
  source GIT_ITERATOR_INDEX [entry "a.txt" 33188 1; entry "dir/x" 33188 2].

Definition workdir_with_directory : git_iterator :=
  source GIT_ITERATOR_WORKDIR
    [entry "a.txt" 33188 0; entry "dir/" 16384 0;
     entry "dir/x" 33188 0; entry "dir/y" 33188 0].

(** A path that is a file on one side and a directory on the other. *)
Definition file_a : git_index_entry := entry "a" 33188 2.
Definition file_a_x : git_index_entry := entry "a/x" 33188 1.

(** A stash update over an index holding [a.txt], and the deleted delta
    for that path. *)
Definition stash_data : Stash.cb_data :=
  Stash.mk_cb_data (Stash.mk_index ["a.txt"%string] (fun _ => true))
    true false false.

Definition deleted_delta : git_diff_delta :=
  mk_delta (mk_file 1 "a.txt" 0 1 33188) (mk_file 0 "a.txt" 0 1 0)
    GIT_DELTA_DELETED.

(** A repository without any reference, and a visitor that counts its
    calls and asks to stop. *)
Definition repo_without_stash : Stash.stash_repository :=
  Stash.mk_stash_repo (fun _ => inl GIT_ENOTFOUND).

Definition counting_visitor (i : nat) (msg : string) (oid : git_oid)
    (calls : nat) : Z * nat :=
  (1, S calls).

(** A pathspec pattern that matches one path only, and a repository in
    which [p_stat] finds a regular file of twelve bytes everywhere. *)
Definition only_path (p : string) : pathspec_pattern :=
  mk_pattern (fun path _ _ => String.eqb path p) false.

(** A repository whose configuration store cannot be opened. *)
Definition repo_without_config : git_repository :=
  mk_repo None "/w" (fun _ => None) (fun _ => None)
    (fun _ => Some 7) (fun _ _ => Some 7) (fun _ => true).

(** An index with three files, and a working directory in which [a.txt]
    has other content, [b.txt] and [dir/y] are new and [link] has become
    a symbolic link. *)
Definition index_three_files : git_iterator :=
  source GIT_ITERATOR_INDEX
    [entry "a.txt" 33188 1; entry "dir/x" 33188 7; entry "link" 33188 3].

Definition workdir_with_changes : git_iterator :=
  source GIT_ITERATOR_WORKDIR
    [mk_entry 0 0 0 0 33188 0 0 5 0 0 "a.txt"; entry "b.txt" 33188 0;
     entry "dir/" 16384 0; entry "dir/x" 33188 0; entry "dir/y" 33188 0;
     entry "link" 40960 0].

(** An ignored directory [build/] with a file, a subdirectory with a
    file of its own, and one more file behind the subdirectory. *)
Definition ignored_build_tree : git_iterator :=
  mk_iter GIT_ITERATOR_WORKDIR false
    [mk_item (entry "build/" 16384 0) true false;
     mk_item (entry "build/a.o" 33188 0) false false;
     mk_item (entry "build/sub/" 16384 0) false false;
     mk_item (entry "build/sub/q.o" 33188 0) false false;
     mk_item (entry "build/z.o" 33188 0) false false].

Definition repo_with_files : git_repository :=
  mk_repo (Some cfg_unset) "/w" (fun _ => None) (fun _ => Some (33188, 12))
    (fun _ => Some 7) (fun _ _ => Some 7) (fun _ => true).

(** A repository with two stashed states, the older one first in the
    reflog; and the results of a drop that meets no failure. *)
Definition two_stashes : Stash.stash_repository :=
  Stash.mk_stash_repo
    (fun name =>
       if String.eqb name Stash.GIT_REFS_STASH_FILE
       then inr (Stash.mk_reference Stash.GIT_REFS_STASH_FILE
                   (inr [Stash.mk_reflog_entry "older" 1;
                         Stash.mk_reflog_entry "newer" 2]))
       else inl GIT_ENOTFOUND).

Definition one_stash : Stash.stash_repository :=
  Stash.mk_stash_repo
    (fun name =>
       if String.eqb name Stash.GIT_REFS_STASH_FILE
       then inr (Stash.mk_reference Stash.GIT_REFS_STASH_FILE
                   (inr [Stash.mk_reflog_entry "only" 1]))
       else inl GIT_ENOTFOUND).

Definition empty_stash_reflog : Stash.stash_repository :=
  Stash.mk_stash_repo
    (fun name =>
       if String.eqb name Stash.GIT_REFS_STASH_FILE
       then inr (Stash.mk_reference Stash.GIT_REFS_STASH_FILE (inr []))
       else inl GIT_ENOTFOUND).

Definition drop_succeeds : Stash.drop_results :=
  Stash.mk_drop_results (fun _ => 0) 0 0.

(** A repository on branch [master] whose head commit has a message of
    two lines, with one changed file to report. *)
Definition head_commit : Stash.git_commit :=
  Stash.mk_commit 255
    (String.append "Fix: the bug"
       (String Stash.newline "more text")).

Definition on_master : Stash.working_repository :=
  Stash.mk_working_repo false
    (inr (Stash.mk_head "refs/heads/master" 255))
    (fun _ => Some head_commit)
    (fun _ flags =>
       inr (if flags =? 0 then []
            else [Stash.mk_status_entry "new.txt" 128])).

(** The stash pass over untracked files: an index holding [a.txt], and a
    diff list with a deleted and an untracked delta. *)
Definition untracked_data : Stash.cb_data :=
  Stash.mk_cb_data (Stash.mk_index ["a.txt"%string] (fun _ => true))
    false true false.

Definition untracked_delta : git_diff_delta :=
  mk_delta (mk_file 0 "new.txt" 0 1 0) (mk_file 0 "new.txt" 5 0 33188)
    GIT_DELTA_UNTRACKED.

Definition diff_with_untracked : git_diff_list :=
  set_deltas (diff_with GIT_DIFF_INCLUDE_UNTRACKED 0 GIT_ITERATOR_WORKDIR)
    [deleted_delta; untracked_delta].

End Sample.
(* ================================================================== *)
(** * Flags are single bits *)

Lemma land_single_bit (x k : Z) :
  0 <= k -> Z.land x (Z.shiftl 1 k) = if Z.testbit x k then Z.shiftl 1 k else 0.
Proof.
  intros Hk. apply Z.bits_inj'. intros n Hn.
  rewrite Z.land_spec, Z.shiftl_spec by assumption.
  destruct (Z.eq_dec n k) as [->|Hne].
  - rewrite Z.sub_diag. change (Z.testbit 1 0) with true.
    rewrite andb_true_r. destruct (Z.testbit x k).
    + rewrite Z.shiftl_spec, Z.sub_diag by assumption. reflexivity.
    + now rewrite Z.bits_0.
  - assert (Z.testbit 1 (n - k) = false) as ->.
    { destruct (Z.ltb_spec n k).
      - apply Z.testbit_neg_r. lia.
      - apply (Z.bits_above_log2 1 (n - k)); simpl; lia. }
    rewrite andb_false_r. destruct (Z.testbit x k).
    + rewrite Z.shiftl_spec by assumption.
      destruct (Z.ltb_spec n k).
      * symmetry. apply Z.testbit_neg_r. lia.
      * symmetry. apply (Z.bits_above_log2 1 (n - k)); simpl; lia.
    + now rewrite Z.bits_0.
Qed.

Lemma flag_set_testbit (x k : Z) :
  0 <= k -> flag_set x (Z.shiftl 1 k) = Z.testbit x k.
Proof.
  intros Hk. unfold flag_set. rewrite land_single_bit by assumption.
  destruct (Z.testbit x k); [|reflexivity].
  assert (0 < Z.shiftl 1 k).
  { rewrite Z.shiftl_1_l. apply Z.pow_pos_nonneg; lia. }
  destruct (Z.eqb_spec (Z.shiftl 1 k) 0); [lia | reflexivity].
Qed.

Lemma flag_set_lor (x k j : Z) :
  0 <= k -> 0 <= j ->
  flag_set (Z.lor x (Z.shiftl 1 j)) (Z.shiftl 1 k)
  = flag_set x (Z.shiftl 1 k) || (k =? j).
Proof.
  intros Hk Hj. rewrite !flag_set_testbit by assumption.
  rewrite Z.lor_spec, Z.shiftl_spec by assumption. f_equal.
  destruct (Z.eqb_spec k j) as [->|Hne].
  - now rewrite Z.sub_diag.
  - destruct (Z.ltb_spec k j).
    + apply Z.testbit_neg_r. lia.
    + apply (Z.bits_above_log2 1 (k - j)); simpl; lia.
Qed.

Lemma flag_set_clear (x k j : Z) :
  0 <= k -> 0 <= j ->
  flag_set (Z.land x (Z.lnot (Z.shiftl 1 j))) (Z.shiftl 1 k)
  = flag_set x (Z.shiftl 1 k) && negb (k =? j).
Proof.
  intros Hk Hj. rewrite !flag_set_testbit by assumption.
  rewrite Z.land_spec, Z.lnot_spec, Z.shiftl_spec by assumption.
  f_equal. f_equal.
  destruct (Z.eqb_spec k j) as [->|Hne].
  - now rewrite Z.sub_diag.
  - destruct (Z.ltb_spec k j).
    + apply Z.testbit_neg_r. lia.
    + apply (Z.bits_above_log2 1 (k - j)); simpl; lia.
Qed.

(* ================================================================== *)
(** * The comparators are total preorders *)

Lemma uchar_inj (c d : ascii) : uchar c = uchar d -> c = d.
Proof.
  unfold uchar. intros H. apply N2Z.inj in H.
  rewrite <- (ascii_N_embedding c), <- (ascii_N_embedding d). now rewrite H.
Qed.

Lemma strcmp_refl (a : string) : strcmp a a = 0.
Proof.
  induction a as [|c a IH]; simpl; [reflexivity|].
  now rewrite Ascii.eqb_refl.
Qed.

Lemma strcmp_antisym (a b : string) : strcmp b a = - strcmp a b.
Proof.
  revert b. induction a as [|c a IH]; intros [|d b]; simpl; try reflexivity.
  rewrite (Ascii.eqb_sym d c). destruct (Ascii.eqb c d); [apply IH | lia].
Qed.

Lemma strcmp_trans (a b c : string) :
  strcmp a b <= 0 -> strcmp b c <= 0 -> strcmp a c <= 0.
Proof.
  revert b c.
  induction a as [|x a IH]; intros [|y b] [|z c]; simpl; try lia.
  destruct (Ascii.eqb_spec x y) as [->|Hxy];
    destruct (Ascii.eqb_spec y z) as [->|Hyz].
  - apply IH.
  - lia.
  - destruct (Ascii.eqb_spec x z); [contradiction | lia].
  - intros H1 H2. destruct (Ascii.eqb_spec x z) as [->|Hxz]; [|lia].
    exfalso. apply Hxy, uchar_inj. lia.
Qed.

Lemma strcmp_eq (a b : string) : strcmp a b = 0 -> a = b.
Proof.
  revert b. induction a as [|x a IH]; intros [|y b]; simpl; try lia.
  - reflexivity.
  - destruct (Ascii.eqb_spec x y) as [->|Hxy].
    + intros H. f_equal. now apply IH.
    + intros H. exfalso. apply Hxy, uchar_inj. lia.
Qed.

Lemma strcmp_order : path_order strcmp.
Proof.
  constructor; [apply strcmp_refl | apply strcmp_antisym | apply strcmp_trans].
Qed.

Lemma strcasecmp_order : path_order strcasecmp.
Proof.
  unfold strcasecmp. constructor; intros.
  - apply strcmp_refl.
  - apply strcmp_antisym.
  - eapply strcmp_trans; eassumption.
Qed.

(* ================================================================== *)
(** * Capability negotiation *)

Lemma config_bool_value (cfg : git_config) (name : string) (b : bool) :
  negb (config_bool cfg name (Z.b2z b) =? 0) = cfg_or_default cfg name b.
Proof.
  unfold config_bool, git_config_get_bool, cfg_or_default.
  destruct (cfg name) as [[]| |]; destruct b; reflexivity.
Qed.


(** The diff list [git__calloc] returns, before anything is loaded. *)
Lemma load_config_caps_bits (cfg : git_config) (diff : git_diff_list) :
  diffcaps diff = 0 ->
  flag_set (diffcaps (load_config_caps cfg diff)) GIT_DIFFCAPS_HAS_SYMLINKS
  = cfg_or_default cfg "core.symlinks" true
  /\ flag_set (diffcaps (load_config_caps cfg diff))
       GIT_DIFFCAPS_ASSUME_UNCHANGED
     = cfg_or_default cfg "core.ignorestat" false
  /\ flag_set (diffcaps (load_config_caps cfg diff))
       GIT_DIFFCAPS_TRUST_MODE_BITS
     = cfg_or_default cfg "core.filemode" true
  /\ flag_set (diffcaps (load_config_caps cfg diff)) GIT_DIFFCAPS_TRUST_CTIME
     = cfg_or_default cfg "core.trustctime" true.
Proof.
  intros H0. unfold load_config_caps.
  pose proof (config_bool_value cfg "core.symlinks" true) as H1.
  pose proof (config_bool_value cfg "core.ignorestat" false) as H2.
  pose proof (config_bool_value cfg "core.filemode" true) as H3.
  pose proof (config_bool_value cfg "core.trustctime" true) as H4.
  simpl Z.b2z in H1, H2, H3, H4. rewrite H1, H2, H3, H4.
  destruct (cfg_or_default cfg "core.symlinks" true),
    (cfg_or_default cfg "core.ignorestat" false),
    (cfg_or_default cfg "core.filemode" true),
    (cfg_or_default cfg "core.trustctime" true);
    cbn [set_diffcaps diffcaps]; rewrite H0; repeat split; reflexivity.
Qed.

Lemma apply_options_caps (diff : git_diff_list) (o : git_diff_options) :
  diffcaps (apply_options diff o)
  = if flag_set (opt_flags o) GIT_DIFF_IGNORE_FILEMODE
    then Z.land (diffcaps diff) (Z.lnot GIT_DIFFCAPS_TRUST_MODE_BITS)
    else diffcaps diff.
Proof.
  unfold apply_options.
  repeat match goal with
         | |- context [if ?c then _ else _] => destruct c
         end; reflexivity.
Qed.

(** C8. In a repository whose configuration store can be opened,
    creating a diff list succeeds whatever the four capability lookups
    answer, and each capability bit is the configured value, or its
    documented default (symlinks true, assume-unchanged false, filemode
    trust true, ctime trust true) when the lookup fails; only the
    ignore-filemode option then clears filemode trust. *)
Theorem capability_flags_fall_back_to_defaults
    (rp : git_repository) (cfg : git_config)
    (options : option git_diff_options) :
  repo_config rp = Some cfg ->
  exists diff,
    git_diff_list_alloc rp options = Some diff
    /\ flag_set (diffcaps diff) GIT_DIFFCAPS_HAS_SYMLINKS
       = cfg_or_default cfg "core.symlinks" true
    /\ flag_set (diffcaps diff) GIT_DIFFCAPS_ASSUME_UNCHANGED
       = cfg_or_default cfg "core.ignorestat" false
    /\ flag_set (diffcaps diff) GIT_DIFFCAPS_TRUST_MODE_BITS
       = cfg_or_default cfg "core.filemode" true
         && negb (match options with
                  | Some o => flag_set (opt_flags o) GIT_DIFF_IGNORE_FILEMODE
                  | None => false
                  end)
    /\ flag_set (diffcaps diff) GIT_DIFFCAPS_TRUST_CTIME
       = cfg_or_default cfg "core.trustctime" true.
Proof.
  intros Hcfg. unfold git_diff_list_alloc. rewrite Hcfg.
  match goal with
  | |- context [load_config_caps cfg ?d] =>
      destruct (load_config_caps_bits cfg d eq_refl) as (Hs & Ha & Hm & Hc)
  end.
  destruct options as [o|]; eexists; (split; [reflexivity|]).
  - rewrite apply_options_caps.
    destruct (flag_set (opt_flags o) GIT_DIFF_IGNORE_FILEMODE).
    + change GIT_DIFFCAPS_HAS_SYMLINKS with (Z.shiftl 1 0).
      change GIT_DIFFCAPS_ASSUME_UNCHANGED with (Z.shiftl 1 1).
      change GIT_DIFFCAPS_TRUST_MODE_BITS with (Z.shiftl 1 2).
      change GIT_DIFFCAPS_TRUST_CTIME with (Z.shiftl 1 3).
      rewrite !flag_set_clear by lia.
      change (Z.shiftl 1 0) with GIT_DIFFCAPS_HAS_SYMLINKS.
      change (Z.shiftl 1 1) with GIT_DIFFCAPS_ASSUME_UNCHANGED.
      change (Z.shiftl 1 2) with GIT_DIFFCAPS_TRUST_MODE_BITS.
      change (Z.shiftl 1 3) with GIT_DIFFCAPS_TRUST_CTIME.
      rewrite Hs, Ha, Hm, Hc. simpl.
      rewrite !andb_true_r, andb_false_r. repeat split; reflexivity.
    + rewrite Hs, Ha, Hm, Hc, andb_true_r. repeat split; reflexivity.
  - rewrite Hs, Ha, Hm, Hc, andb_true_r. repeat split; reflexivity.
Qed.

Lemma capability_flags_fall_back_to_defaults_witness :
  exists diff,
    git_diff_list_alloc (Sample.repo_of Sample.cfg_broken) None = Some diff
    /\ flag_set (diffcaps diff) GIT_DIFFCAPS_HAS_SYMLINKS = true
    /\ flag_set (diffcaps diff) GIT_DIFFCAPS_ASSUME_UNCHANGED = false
    /\ flag_set (diffcaps diff) GIT_DIFFCAPS_TRUST_MODE_BITS = true
    /\ flag_set (diffcaps diff) GIT_DIFFCAPS_TRUST_CTIME = true.
Proof.
  exact (capability_flags_fall_back_to_defaults
           (Sample.repo_of Sample.cfg_broken) Sample.cfg_broken None
           eq_refl).
Defined.

(** C8, the failure that is not recovered: when the configuration store
    itself cannot be opened no capability is read and no default is used;
    creating the diff list fails, and so does the compare run, before any
    entry is looked at. *)
Lemma unopened_configuration_fails_the_run :
  git_diff_list_alloc Sample.repo_without_config None = None
  /\ git_diff_list_alloc Sample.repo_without_config (Sample.options 0)
     = None
  /\ diff_from_iterators Sample.repo_without_config
       Sample.index_two_files Sample.workdir_with_directory
       (Sample.options 0)
     = fail.
Proof. repeat split; reflexivity. Qed.

(* ================================================================== *)
(** * The stash callbacks *)

Lemma update_index_cb_keeps_include_changed
    (data : Stash.cb_data) (delta : git_diff_delta) (progress : nat * nat) :
  Stash.include_changed (snd (Stash.update_index_cb data delta progress))
  = Stash.include_changed data.
Proof.
  unfold Stash.update_index_cb, Stash.git_index_add_from_workdir,
    Stash.git_index_remove.
  destruct (status delta); simpl;
    repeat match goal with
           | |- context [if ?c then _ else _] => destruct c; simpl
           end; reflexivity.
Qed.

Lemma update_index_cb_deleted_returns_error
    (data : Stash.cb_data) (delta : git_diff_delta) (progress : nat * nat) :
  status delta = GIT_DELTA_DELETED ->
  Stash.include_changed data = true ->
  fst (Stash.update_index_cb data delta progress) = -1.
Proof.
  intros Hst Hinc. unfold Stash.update_index_cb, Stash.git_index_remove.
  rewrite Hst, Hinc. simpl.
  repeat match goal with
         | |- context [if ?c then _ else _] => destruct c; simpl
         end; reflexivity.
Qed.

Lemma foreach_deltas_aborts_on_deleted
    (delta : git_diff_delta) (ds : list git_diff_delta) :
  status delta = GIT_DELTA_DELETED ->
  In delta ds ->
  forall (i total : nat) (data : Stash.cb_data),
    Stash.include_changed data = true ->
    fst (Stash.foreach_deltas ds i total data Stash.update_index_cb)
    = GIT_EUSER.
Proof.
  intros Hst. induction ds as [|d ds IH]; intros Hin i total data Hinc.
  - contradiction.
  - simpl.
    destruct (Stash.update_index_cb data d (i, total)) as [rc data'] eqn:Hcb.
    destruct (Z.eqb_spec rc 0) as [Hrc|Hrc]; simpl; [|reflexivity].
    destruct Hin as [->|Hin].
    + pose proof (update_index_cb_deleted_returns_error data delta
                    (i, total) Hst Hinc) as Herr.
      rewrite Hcb in Herr. simpl in Herr. lia.
    + apply IH; [assumption|].
      pose proof (update_index_cb_keeps_include_changed data d (i, total))
        as Hkeep.
      rewrite Hcb in Hkeep. simpl in Hkeep. congruence.
Qed.

Lemma foreach_deltas_stops_at_deleted
    (delta : git_diff_delta) (post : list git_diff_delta) :
  status delta = GIT_DELTA_DELETED ->
  forall (pre : list git_diff_delta) (i total : nat) (data : Stash.cb_data),
    Stash.include_changed data = true ->
    Stash.foreach_deltas (pre ++ delta :: post) i total data
      Stash.update_index_cb
    = Stash.foreach_deltas (pre ++ [delta]) i total data
        Stash.update_index_cb.
Proof.
  intros Hst. induction pre as [|d pre IH]; intros i total data Hinc.
  - simpl.
    pose proof (update_index_cb_deleted_returns_error data delta
                  (i, total) Hst Hinc) as Herr.
    destruct (Stash.update_index_cb data delta (i, total)) as [rc data'].
    simpl in Herr. subst rc. reflexivity.
  - simpl.
    pose proof (update_index_cb_keeps_include_changed data d (i, total))
      as Hkeep.
    destruct (Stash.update_index_cb data d (i, total)) as [rc data'].
    simpl in Hkeep. destruct (negb (rc =? 0)); [reflexivity|].
    apply IH. congruence.
Qed.

(** C9. With changed-entry inclusion on, the index-update callback returns
    an error for every deleted delta: when the path is missing, and also
    after it was found and removed from the index, because the deleted
    case runs on into the unimplemented-status branch.  A diff iteration
    that reaches such a delta therefore stops there and reports the
    cancellation code, without visiting the deltas after it. *)
Theorem deleted_delta_aborts_index_update
    (data : Stash.cb_data) (delta : git_diff_delta) :
  status delta = GIT_DELTA_DELETED ->
  Stash.include_changed data = true ->
  (forall progress,
      fst (Stash.update_index_cb data delta progress) = -1
      /\ (0 <= Stash.git_index_find (Stash.index data)
                 (f_path (new_file delta)) ->
          Stash.idx_paths
            (Stash.index (snd (Stash.update_index_cb data delta progress)))
          = filter (fun p => negb (String.eqb p (f_path (new_file delta))))
              (Stash.idx_paths (Stash.index data))))
  /\ (forall diff,
         In delta (deltas diff) ->
         fst (Stash.git_diff_foreach diff data Stash.update_index_cb)
         = GIT_EUSER)
  /\ (forall pre post i total,
         Stash.foreach_deltas (pre ++ delta :: post) i total data
           Stash.update_index_cb
         = Stash.foreach_deltas (pre ++ [delta]) i total data
             Stash.update_index_cb).
Proof.
  intros Hst Hinc. split; [|split].
  - intros progress. split.
    + now apply update_index_cb_deleted_returns_error.
    + intros Hfound. unfold Stash.update_index_cb, Stash.git_index_remove.
      rewrite Hst, Hinc. simpl.
      destruct (Z.ltb_spec
                  (Stash.git_index_find (Stash.index data)
                     (f_path (new_file delta))) 0) as [Hlt|Hge];
        [lia|]. reflexivity.
  - intros diff Hin. unfold Stash.git_diff_foreach.
    now apply (foreach_deltas_aborts_on_deleted delta).
  - intros pre post i total.
    now apply foreach_deltas_stops_at_deleted.
Qed.

Lemma deleted_delta_aborts_index_update_witness :
  fst (Stash.update_index_cb Sample.stash_data Sample.deleted_delta
         (0%nat, 1%nat)) = -1
  /\ Stash.idx_paths
       (Stash.index
          (snd (Stash.update_index_cb Sample.stash_data Sample.deleted_delta
                  (0%nat, 1%nat)))) = [].
Proof.
  destruct (deleted_delta_aborts_index_update Sample.stash_data
              Sample.deleted_delta eq_refl eq_refl) as (Hcb & _ & _).
  destruct (Hcb (0%nat, 1%nat)) as [Herr Hidx].
  split; [exact Herr|]. apply Hidx. vm_compute. discriminate.
Defined.

(** C10. When the stash reference does not exist, [git_stash_foreach]
    returns zero and hands the payload back untouched, whatever the
    visitor is: the visitor is not called. *)
Theorem stash_foreach_without_stash_is_empty_success
    (payload_t : Type)
    (callback : nat -> string -> git_oid -> payload_t -> Z * payload_t)
    (rp : Stash.stash_repository) (payload : payload_t) :
  Stash.reference_lookup rp Stash.GIT_REFS_STASH_FILE = inl GIT_ENOTFOUND ->
  Stash.git_stash_foreach payload_t callback rp payload = (0, payload).
Proof.
  intros Hlookup. unfold Stash.git_stash_foreach, Stash.git_reference_lookup.
  rewrite Hlookup. reflexivity.
Qed.

Lemma stash_foreach_without_stash_is_empty_success_witness :
  Stash.git_stash_foreach nat Sample.counting_visitor
    Sample.repo_without_stash 0%nat = (0, 0%nat).
Proof.
  apply (stash_foreach_without_stash_is_empty_success nat
           Sample.counting_visitor Sample.repo_without_stash 0%nat).
  reflexivity.
Defined.

(* ================================================================== *)
(** * Single-sided construction *)

Lemma diff_delta__from_one_cases
    (diff : git_diff_list) (st : git_delta_t) (entry : git_index_entry) :
  diff_delta__from_one diff st entry = diff
  \/ diff_delta__from_one diff st entry
     = set_deltas diff (deltas diff ++ [delta_from_one diff st entry]).
Proof.
  unfold diff_delta__from_one, git_vector_insert.
  repeat match goal with
         | |- context [if ?c then _ else _] => destruct c
         end; auto.
Qed.

Lemma delta_from_one_sides
    (diff : git_diff_list) (st : git_delta_t) (entry : git_index_entry) :
  let d := delta_from_one diff st entry in
  status d = status (diff_delta__alloc diff st (e_path entry))
  /\ delta_path d = e_path entry
  /\ f_path (new_file d) = e_path entry
  /\ valid_oid (old_file d) = true
  /\ valid_oid (new_file d)
     = delta_t_eqb (status d) GIT_DELTA_DELETED
       || negb (git_oid_iszero (e_oid entry))
  /\ (status d = GIT_DELTA_DELETED ->
      f_oid (old_file d) = e_oid entry /\ f_oid (new_file d) = 0
      /\ f_mode (old_file d) = e_mode entry
      /\ f_size (old_file d) = e_file_size entry)
  /\ (status d <> GIT_DELTA_DELETED ->
      f_oid (new_file d) = e_oid entry /\ f_oid (old_file d) = 0
      /\ f_mode (new_file d) = e_mode entry
      /\ f_size (new_file d) = e_file_size entry).
Proof.
  unfold delta_from_one, diff_delta__alloc, valid_oid, delta_path.
  destruct (flag_set (diff_flags diff) GIT_DIFF_REVERSE), st; cbn;
    try (destruct (git_oid_iszero (e_oid entry)) eqn:Hz; cbn);
    repeat split; try reflexivity; try discriminate; try congruence;
    intros; try congruence.
Qed.

(** C2, as the code has it.  Every delta appended by single-sided
    construction carries the valid-hash flag on its old side; its new
    side carries the flag exactly when the status is deleted or the
    entry's hash is non-zero.  The entry's hash, mode and size sit on the
    old side of a deleted delta and on the new side otherwise, and the
    other side's hash is zero. *)
Theorem single_sided_hash_validity
    (diff : git_diff_list) (st : git_delta_t) (entry : git_index_entry) :
  deltas (diff_delta__from_one diff st entry) = deltas diff
  \/ exists d,
      deltas (diff_delta__from_one diff st entry) = deltas diff ++ [d]
      /\ valid_oid (old_file d) = true
      /\ valid_oid (new_file d)
         = delta_t_eqb (status d) GIT_DELTA_DELETED
           || negb (git_oid_iszero (e_oid entry))
      /\ (status d = GIT_DELTA_DELETED ->
          f_oid (old_file d) = e_oid entry /\ f_oid (new_file d) = 0)
      /\ (status d <> GIT_DELTA_DELETED ->
          f_oid (new_file d) = e_oid entry /\ f_oid (old_file d) = 0).
Proof.
  destruct (diff_delta__from_one_cases diff st entry) as [-> | ->].
  - now left.
  - right. exists (delta_from_one diff st entry).
    destruct (delta_from_one_sides diff st entry)
      as (_ & _ & _ & Hold & Hnew & Hdel & Hother).
    repeat split; try assumption; try reflexivity.
    + now apply Hdel.
    + now apply Hdel.
    + now apply Hother.
    + now apply Hother.
Qed.

(** C2, as stated, fails: the deleted delta of a plain run has the
    valid-hash flag on both sides, and so has the added delta, whose old
    side holds no hash at all. *)
Lemma single_sided_delta_flags_both_sides :
  map (fun d => (status d, valid_oid (old_file d), valid_oid (new_file d),
                 f_oid (old_file d), f_oid (new_file d)))
    (deltas (diff_delta__from_one
               (diff_delta__from_one
                  (Sample.diff_with 0 0 GIT_ITERATOR_INDEX)
                  GIT_DELTA_DELETED (Sample.entry "a.txt" 33188 1))
               GIT_DELTA_ADDED (Sample.entry "b.txt" 33188 2)))
  = [(GIT_DELTA_DELETED, true, true, 1, 0);
     (GIT_DELTA_ADDED, true, true, 0, 2)].
Proof. reflexivity. Qed.

(* ================================================================== *)
(** * The classifier *)


Lemma diff_delta__from_one_passes
    (diff : git_diff_list) (st : git_delta_t) (entry : git_index_entry) :
  st = GIT_DELTA_ADDED \/ st = GIT_DELTA_DELETED ->
  git_pathspec_match_path (pathspec diff) (e_path entry)
    (flag_set (diff_flags diff) GIT_DIFF_DISABLE_PATHSPEC_MATCH)
    (flag_set (diff_flags diff) GIT_DIFF_DELTAS_ARE_ICASE) = true ->
  diff_delta__from_one diff st entry
  = set_deltas diff (deltas diff ++ [delta_from_one diff st entry]).
Proof.
  intros Hst Hps. unfold diff_delta__from_one. rewrite Hps.
  destruct Hst as [-> | ->]; reflexivity.
Qed.





Lemma normalized_nmode_same (diff : git_diff_list) (wd : bool) (m : Z) :
  normalized_nmode diff wd m m = m.
Proof.
  unfold normalized_nmode.
  assert (Hls : S_ISLNK m && S_ISREG m = false).
  { unfold S_ISLNK, S_ISREG.
    destruct (Z.eqb_spec (Z.land m S_IFMT) 40960) as [->|]; reflexivity. }
  destruct (S_ISLNK m && S_ISREG m && wd
            && negb (flag_set (diffcaps diff) GIT_DIFFCAPS_HAS_SYMLINKS));
    rewrite Z.eqb_refl; simpl negb; rewrite andb_false_r; reflexivity.
Qed.

(** C6, as the code has it.  For a matched pair that passes the pathspec
    test and that assume-unchanged does not send to modified (the
    capability is off, or the old entry is not flagged intent-to-add):
    when the new hash is unknown, the new source is the working directory
    and mode, size, modify-time seconds, inode, uid and gid agree, and so
    do change-time seconds under ctime trust and device numbers under
    device trust, the classifier makes no provider call at all and hands
    the pair to two-sided construction as unmodified, with no override
    hash. *)
Theorem racy_stat_match_is_unmodified_without_hashing
    (old_iter new_iter : git_iterator) (oitem nitem : git_index_entry)
    (diff : git_diff_list) :
  git_pathspec_match_path (pathspec diff) (e_path oitem)
    (flag_set (diff_flags diff) GIT_DIFF_DISABLE_PATHSPEC_MATCH)
    (flag_set (diff_flags diff) GIT_DIFF_DELTAS_ARE_ICASE) = true ->
  flag_set (diffcaps diff) GIT_DIFFCAPS_ASSUME_UNCHANGED
  && flag_set (e_flags_extended oitem) GIT_IDXENTRY_INTENT_TO_ADD = false ->
  git_oid_iszero (e_oid nitem) = true ->
  it_type new_iter = GIT_ITERATOR_WORKDIR ->
  e_mode oitem = e_mode nitem ->
  e_file_size oitem = e_file_size nitem ->
  e_mtime_seconds oitem = e_mtime_seconds nitem ->
  e_ino oitem = e_ino nitem ->
  e_uid oitem = e_uid nitem ->
  e_gid oitem = e_gid nitem ->
  (flag_set (diffcaps diff) GIT_DIFFCAPS_TRUST_CTIME = true ->
   e_ctime_seconds oitem = e_ctime_seconds nitem) ->
  (flag_set (diffcaps diff) GIT_DIFFCAPS_USE_DEV = true ->
   e_dev oitem = e_dev nitem) ->
  maybe_modified old_iter oitem new_iter nitem diff
  = ([], Ok (diff_delta__from_two diff GIT_DELTA_UNMODIFIED oitem
               (e_mode oitem) nitem (e_mode oitem) None)).
Proof.
  intros Hps Hita Hzero Hwd Hmode Hsize Hmtime Hino Huid Hgid Hctime Hdev.
  assert (Halike : stat_looks_alike diff oitem nitem (e_mode oitem)
                     (e_mode oitem) = true).
  { unfold stat_looks_alike.
    rewrite Hsize, Hmtime, Hino, Huid, Hgid, !Z.eqb_refl.
    destruct (flag_set (diffcaps diff) GIT_DIFFCAPS_TRUST_CTIME);
      [rewrite (Hctime eq_refl), Z.eqb_refl|];
      (destruct (flag_set (diffcaps diff) GIT_DIFFCAPS_USE_DEV);
       [rewrite (Hdev eq_refl), Z.eqb_refl|]); reflexivity. }
  assert (Hchain :
    classify_chain diff true oitem nitem (e_mode oitem) (e_mode oitem)
    = ret (inr (GIT_DELTA_UNMODIFIED, None))).
  { unfold classify_chain. rewrite Hzero, Halike, !Z.eqb_refl.
    destruct (flag_set (diffcaps diff) GIT_DIFFCAPS_ASSUME_UNCHANGED).
    - simpl in Hita. rewrite Hita. reflexivity.
    - destruct (flag_set (e_flags_extended oitem)
                  GIT_IDXENTRY_SKIP_WORKTREE); [reflexivity|].
      destruct (git_oid_equal (e_oid oitem) (e_oid nitem)); reflexivity. }
  unfold maybe_modified. rewrite Hps, Hwd, <- Hmode.
  simpl negb. simpl is_workdir. cbv iota zeta.
  rewrite normalized_nmode_same, Hchain. reflexivity.
Qed.

Lemma racy_stat_match_is_unmodified_without_hashing_witness :
  let diff :=
    Sample.diff_with GIT_DIFF_INCLUDE_UNMODIFIED 13 GIT_ITERATOR_WORKDIR in
  maybe_modified (Sample.source GIT_ITERATOR_INDEX [Sample.indexed_file])
    Sample.indexed_file
    (Sample.source GIT_ITERATOR_WORKDIR [Sample.scanned_same_stat])
    Sample.scanned_same_stat diff
  = ([], Ok (diff_delta__from_two diff GIT_DELTA_UNMODIFIED
               Sample.indexed_file 33188 Sample.scanned_same_stat 33188
               None)).
Proof.
  intros diff.
  apply (racy_stat_match_is_unmodified_without_hashing
           (Sample.source GIT_ITERATOR_INDEX [Sample.indexed_file])
           (Sample.source GIT_ITERATOR_WORKDIR [Sample.scanned_same_stat])
           Sample.indexed_file Sample.scanned_same_stat diff);
    try reflexivity; intros _; reflexivity.
Defined.

(** C6, as stated, fails under assume-unchanged: for an old entry flagged
    intent-to-add the classifier starts from modified, so the same
    stat-identical pair with an unknown new hash does reach the content
    hasher and is appended as modified. *)
Lemma assume_unchanged_intent_to_add_is_hashed :
  let diff := Sample.diff_with 0 15 GIT_ITERATOR_WORKDIR in
  stat_looks_alike diff Sample.indexed_intent_to_add
    Sample.scanned_same_stat 33188 33188 = true
  /\ git_oid_iszero (e_oid Sample.scanned_same_stat) = true
  /\ maybe_modified
       (Sample.source GIT_ITERATOR_INDEX [Sample.indexed_intent_to_add])
       Sample.indexed_intent_to_add
       (Sample.source GIT_ITERATOR_WORKDIR [Sample.scanned_same_stat])
       Sample.scanned_same_stat diff
     = ([Call_oid_for_file "a.txt" 33188 12],
        Ok (set_deltas diff
              [mk_delta (mk_file 1 "a.txt" 12 1 33188)
                 (mk_file 7 "a.txt" 12 1 33188) GIT_DELTA_MODIFIED])).
Proof. cbv zeta. repeat split; reflexivity. Qed.

(* ================================================================== *)
(** * The driver: ignored directories *)

Lemma bind_ret_l {A B} (a : A) (k : A -> M B) : bind (ret a) k = k a.
Proof. unfold bind, ret. destruct (k a). reflexivity. Qed.

Lemma diff_iteration_new_only (s : loop_state) (i : source_item)
    (rest : list source_item) :
  it_items (ls_new s) = i :: rest ->
  new_only_position (ls_diff s) (ls_old s) (si_entry i) ->
  diff_iteration s
  = new_only s (git_iterator_current (ls_old s)) (si_entry i).
Proof.
  intros Hitems Hpos.
  assert (Hcur : git_iterator_current (ls_new s) = Some (si_entry i))
    by (unfold git_iterator_current; rewrite Hitems; reflexivity).
  unfold diff_iteration. rewrite Hcur. unfold new_only_position in Hpos.
  destruct (git_iterator_current (ls_old s)) as [o|]; [|reflexivity].
  destruct (Z.ltb_spec (entrycomp (ls_diff s) o (si_entry i)) 0); [lia|].
  destruct (Z.gtb_spec (entrycomp (ls_diff s) o (si_entry i)) 0); [|lia].
  reflexivity.
Qed.

(** A new-only entry that is not a directory and lies under the active
    ignored prefix is skipped: the pass appends nothing. *)
Lemma entry_under_ignored_prefix_is_skipped (s : loop_state)
    (i : source_item) (rest : list source_item) :
  it_items (ls_new s) = i :: rest ->
  new_only_position (ls_diff s) (ls_old s) (si_entry i) ->
  S_ISDIR (e_mode (si_entry i)) = false ->
  ls_ignore_prefix s <> EmptyString ->
  pfxcomp (ls_diff s) (e_path (si_entry i)) (ls_ignore_prefix s) = 0 ->
  diff_iteration s
  = ret (mk_loop (ls_diff s) (ls_old s) (set_items (ls_new s) rest)
           (ls_ignore_prefix s)).
Proof.
  intros Hitems Hpos Hdir Hpfx Hunder.
  rewrite (diff_iteration_new_only s i rest Hitems Hpos).
  unfold new_only. rewrite Hdir, Hunder.
  assert (Hlen : (Z.of_nat (String.length (ls_ignore_prefix s)) =? 0)
                 = false).
  { destruct (ls_ignore_prefix s); [contradiction|reflexivity]. }
  rewrite Hlen. simpl.
  unfold git_iterator_advance. rewrite Hitems, Hdir, andb_false_r.
  reflexivity.
Qed.

(** A new-only directory that an ignore rule matches and that the driver
    descends into becomes the active ignored prefix. *)
Lemma ignored_directory_becomes_prefix (s : loop_state)
    (dir : source_item) (rest : list source_item) :
  it_type (ls_new s) = GIT_ITERATOR_WORKDIR ->
  it_items (ls_new s) = dir :: rest ->
  new_only_position (ls_diff s) (ls_old s) (si_entry dir) ->
  S_ISDIR (e_mode (si_entry dir)) = true ->
  si_ignored dir = true ->
  (ls_ignore_prefix s = EmptyString
   \/ pfxcomp (ls_diff s) (e_path (si_entry dir)) (ls_ignore_prefix s)
      <> 0) ->
  (entry_is_prefixed (ls_diff s) (si_entry dir)
     (git_iterator_current (ls_old s)) = true
   \/ (flag_set (diff_flags (ls_diff s)) GIT_DIFF_RECURSE_UNTRACKED_DIRS
       = true /\ si_has_dot_git dir = false)) ->
  diff_iteration s
  = ret (mk_loop (ls_diff s) (ls_old s) (set_items (ls_new s) rest)
           (e_path (si_entry dir))).
Proof.
  intros Hwd Hitems Hpos Hdir Hign Hfree Hrec.
  rewrite (diff_iteration_new_only s dir rest Hitems Hpos).
  unfold new_only. rewrite Hdir.
  assert (Hunt :
    negb (Z.of_nat (String.length (ls_ignore_prefix s)) =? 0)
    && (pfxcomp (ls_diff s) (e_path (si_entry dir)) (ls_ignore_prefix s)
        =? 0) = false).
  { destruct Hfree as [-> | Hne]; [reflexivity|].
    apply Z.eqb_neq in Hne. rewrite Hne. apply andb_false_r. }
  rewrite Hunt.
  unfold git_iterator_current_is_ignored,
    current_workdir_path_contains_dot_git,
    git_iterator_advance_into_directory.
  rewrite Hitems, Hwd, Hign, Hdir. simpl.
  destruct Hrec as [-> | [-> ->]]; simpl.
  - reflexivity.
  - destruct (entry_is_prefixed (ls_diff s) (si_entry dir)
                (git_iterator_current (ls_old s))); reflexivity.
Qed.

(** C3, as stated, fails: with ignored and untracked deltas requested and
    recursion into untracked directories on, the file inside the ignored
    directory yields no delta at all. *)
Lemma file_in_ignored_directory_is_omitted :
  flag_set Sample.report_everything GIT_DIFF_INCLUDE_IGNORED = true
  /\ Sample.deltas_of
       (diff_from_iterators Sample.rp (Sample.source GIT_ITERATOR_TREE [])
          Sample.ignored_build_dir (Sample.options Sample.report_everything))
     = Some [].
Proof. split; reflexivity. Qed.

(* ================================================================== *)
(** * The driver: typechange patch-back *)

Lemma git_vector_last_insert (diff : git_diff_list) (d : git_diff_delta) :
  git_vector_last (git_vector_insert diff d) = Some d.
Proof.
  unfold git_vector_last, git_vector_insert. cbn [deltas set_deltas].
  destruct (deltas diff) as [|d0 ds]; [reflexivity|].
  cbn [app]. f_equal. apply last_last.
Qed.

(** The old-only branch does patch the delta it has just appended: the
    lookup is made with the entry the delta was built from. *)
Lemma old_only_patches_appended_delta (s : loop_state)
    (oitem : git_index_entry) (nitem : option git_index_entry) :
  let diff := ls_diff s in
  let d := delta_from_one diff GIT_DELTA_DELETED oitem in
  flag_set (diff_flags diff) GIT_DIFF_INCLUDE_TYPECHANGE_TREES = true ->
  entry_is_prefixed diff oitem nitem = true ->
  git_pathspec_match_path (pathspec diff) (e_path oitem)
    (flag_set (diff_flags diff) GIT_DIFF_DISABLE_PATHSPEC_MATCH)
    (flag_set (diff_flags diff) GIT_DIFF_DELTAS_ARE_ICASE) = true ->
  old_only s oitem nitem
  = ret (mk_loop
           (set_deltas diff
              (deltas diff
               ++ [with_new (with_status d GIT_DELTA_TYPECHANGE)
                     (set_mode (new_file d) GIT_FILEMODE_TREE)]))
           (git_iterator_advance (ls_old s)) (ls_new s)
           (ls_ignore_prefix s)).
Proof.
  cbv zeta. intros Htt Hpfx Hps. unfold old_only.
  rewrite (diff_delta__from_one_passes (ls_diff s) GIT_DELTA_DELETED oitem)
    by (auto; exact Hps).
  change (diff_flags (set_deltas (ls_diff s) ?x))
    with (diff_flags (ls_diff s)).
  change (entry_is_prefixed (set_deltas (ls_diff s) ?x) oitem nitem)
    with (entry_is_prefixed (ls_diff s) oitem nitem).
  rewrite Htt, Hpfx. cbn [andb].
  set (d := delta_from_one (ls_diff s) GIT_DELTA_DELETED oitem).
  assert (Hlast :
    diff_delta__last_for_item
      (set_deltas (ls_diff s) (deltas (ls_diff s) ++ [d])) oitem = Some d).
  { unfold diff_delta__last_for_item.
    change (set_deltas (ls_diff s) (deltas (ls_diff s) ++ [d]))
      with (git_vector_insert (ls_diff s) d).
    rewrite git_vector_last_insert.
    destruct (delta_from_one_sides (ls_diff s) GIT_DELTA_DELETED oitem)
      as (Hst & _ & _ & _ & _ & Hdel & Hother).
    fold d in Hst, Hdel, Hother. unfold diff_delta__alloc in Hst.
    cbn [status with_status] in Hst. unfold git_oid_cmp.
    destruct (flag_set (diff_flags (ls_diff s)) GIT_DIFF_REVERSE).
    - rewrite Hst. destruct Hother as [-> _]; [congruence|].
      now rewrite Z.sub_diag.
    - rewrite Hst. destruct (Hdel Hst) as [-> _].
      now rewrite Z.sub_diag. }
  rewrite Hlast. unfold patch_last, set_vector_last.
  cbn [deltas set_deltas]. rewrite removelast_last. reflexivity.
Qed.

(** C7, at the failing input: the old tree has [a/x], the new tree has the
    file [a], typechange-as-tree reporting is on.  The new-only branch
    appends the added delta for [a], finds [a] to be a directory prefix of
    the old side's [a/x], and looks the last delta up with the old entry
    instead of the entry it was built from: the hashes differ and the
    delta stays added with an empty old mode.  The mirrored input goes
    through the old-only branch and is patched. *)
Theorem new_only_patch_back_leaves_added_delta :
  let trees := Sample.options GIT_DIFF_INCLUDE_TYPECHANGE_TREES in
  entry_is_prefixed (Sample.diff_with 0 13 GIT_ITERATOR_TREE) Sample.file_a
    (Some Sample.file_a_x) = true
  /\ Sample.deltas_of
       (diff_from_iterators Sample.rp
          (Sample.source GIT_ITERATOR_TREE [Sample.file_a_x])
          (Sample.source GIT_ITERATOR_TREE [Sample.file_a]) trees)
     = Some [mk_delta (mk_file 0 "a" 0 1 0) (mk_file 2 "a" 0 1 33188)
               GIT_DELTA_ADDED;
             mk_delta (mk_file 1 "a/x" 0 1 33188) (mk_file 0 "a/x" 0 1 0)
               GIT_DELTA_DELETED]
  /\ Sample.deltas_of
       (diff_from_iterators Sample.rp
          (Sample.source GIT_ITERATOR_TREE [Sample.file_a])
          (Sample.source GIT_ITERATOR_TREE [Sample.file_a_x]) trees)
     = Some [mk_delta (mk_file 2 "a" 0 1 33188)
               (mk_file 0 "a" 0 1 GIT_FILEMODE_TREE) GIT_DELTA_TYPECHANGE;
             mk_delta (mk_file 0 "a/x" 0 1 0) (mk_file 1 "a/x" 0 1 33188)
               GIT_DELTA_ADDED].
Proof. cbv zeta. repeat split; reflexivity. Qed.
(* ================================================================== *)
(** * Calls that finish *)

Lemma finishes_ret {A} (a : A) (P : A -> Prop) : P a -> finishes_with (ret a) P.
Proof. intros H. exact H. Qed.

Lemma finishes_fail {A} (P : A -> Prop) : finishes_with fail P.
Proof. exact I. Qed.

Lemma finishes_bind {A B} (m : M A) (k : A -> M B) (P : B -> Prop) :
  finishes_with m (fun a => finishes_with (k a) P) ->
  finishes_with (bind m k) P.
Proof.
  unfold finishes_with, bind. destruct m as [l [a| |]]; simpl; try tauto.
  destruct (k a) as [l' r]. simpl. tauto.
Qed.

Lemma finishes_weaken {A} (m : M A) (P Q : A -> Prop) :
  (forall a, P a -> Q a) -> finishes_with m P -> finishes_with m Q.
Proof.
  unfold finishes_with. destruct (snd m); auto.
Qed.

Lemma finishes_lift_option {A} (o : option A) (P : A -> Prop) :
  (forall a, o = Some a -> P a) -> finishes_with (lift_option o) P.
Proof.
  destruct o as [a|]; intros H; [apply H; reflexivity | exact I].
Qed.

Lemma finishes_tell (c : provider_call) (P : unit -> Prop) :
  P tt -> finishes_with (tell c) P.
Proof. intros H. exact H. Qed.

Lemma git_diff__oid_for_file_finishes (rp : git_repository) (path : string)
    (mode size : Z) :
  finishes_with (git_diff__oid_for_file rp path mode size) (fun _ => True).
Proof.
  unfold git_diff__oid_for_file.
  apply finishes_bind, finishes_tell, finishes_bind.
  destruct (to_uint16 mode =? 0).
  - destruct (repo_stat rp path) as [[m sz]|]; [|exact I].
    apply finishes_ret.
    repeat match goal with
           | |- context [if ?c then _ else _] => destruct c
           end;
      repeat first [ exact I
                   | apply finishes_bind, finishes_tell
                   | apply finishes_lift_option; intros
                   | match goal with
                     | |- context [match ?o with Some _ => _ | None => _ end]
                       => destruct o
                     end ].
  - apply finishes_ret.
    repeat match goal with
           | |- context [if ?c then _ else _] => destruct c
           end;
      repeat first [ exact I
                   | apply finishes_bind, finishes_tell
                   | apply finishes_lift_option; intros
                   | match goal with
                     | |- context [match ?o with Some _ => _ | None => _ end]
                       => destruct o
                     end ].
Qed.

(* ================================================================== *)
(** * What the construction primitives append *)

Lemma extends_by_refl (ok : string -> Prop) (k : nat)
    (diff : git_diff_list) :
  extends_by ok k diff diff.
Proof.
  split; [destruct diff; reflexivity|].
  exists []. rewrite app_nil_r. repeat split; [constructor | simpl; lia].
Qed.

Lemma extends_by_trans (ok : string -> Prop) (k1 k2 : nat)
    (d1 d2 d3 : git_diff_list) :
  extends_by ok k1 d1 d2 -> extends_by ok k2 d2 d3 ->
  extends_by ok (k1 + k2) d1 d3.
Proof.
  intros [E1 (x1 & P1 & F1 & L1)] [E2 (x2 & P2 & F2 & L2)]. split.
  - rewrite E2, E1. reflexivity.
  - exists (x1 ++ x2). rewrite P2, P1, app_assoc. split; [reflexivity|].
    split; [apply Forall_app; split; assumption|].
    rewrite length_app. lia.
Qed.

Lemma extends_by_weaken (ok ok' : string -> Prop) (k k' : nat)
    (d1 d2 : git_diff_list) :
  (forall q, ok q -> ok' q) -> (k <= k')%nat ->
  extends_by ok k d1 d2 -> extends_by ok' k' d1 d2.
Proof.
  intros Hw Hk [E (x & P & F & L)]. split; [exact E|].
  exists x. split; [exact P|]. split; [|lia].
  eapply Forall_impl; eassumption.
Qed.

Lemma extends_by_insert (ok : string -> Prop) (diff : git_diff_list)
    (d : git_diff_delta) :
  ok (delta_path d) -> extends_by ok 1 diff (git_vector_insert diff d).
Proof.
  intros Hok. split; [reflexivity|].
  exists [delta_path d]. unfold git_vector_insert. cbn [deltas set_deltas].
  rewrite map_app. split; [reflexivity|].
  split; [constructor; [exact Hok|constructor] | simpl; lia].
Qed.

Lemma diff_delta__from_one_extends (diff : git_diff_list) (st : git_delta_t)
    (entry : git_index_entry) :
  extends_by (eq (e_path entry)) 1 diff (diff_delta__from_one diff st entry).
Proof.
  unfold diff_delta__from_one.
  repeat match goal with
         | |- context [if ?c then _ else _] => destruct c
         end; try apply extends_by_refl.
  apply extends_by_insert.
  destruct (delta_from_one_sides diff st entry) as (_ & -> & _).
  reflexivity.
Qed.

Lemma delta_from_two_path (diff : git_diff_list) (st : git_delta_t)
    (o n : git_index_entry) (om nm : Z) (noid : option git_oid) :
  delta_path (delta_from_two diff st o om n nm noid)
  = if flag_set (diff_flags diff) GIT_DIFF_REVERSE
    then e_path n else e_path o.
Proof.
  unfold delta_from_two, delta_path.
  destruct (flag_set (diff_flags diff) GIT_DIFF_REVERSE), noid as [x|];
    cbn [orb]; try reflexivity;
    match goal with
    | |- context [if ?c then _ else _] => destruct c; reflexivity
    end.
Qed.

Lemma diff_delta__from_two_extends (diff : git_diff_list) (st : git_delta_t)
    (o n : git_index_entry) (om nm : Z) (noid : option git_oid) :
  extends_by (fun q => q = e_path o \/ q = e_path n) 1 diff
    (diff_delta__from_two diff st o om n nm noid).
Proof.
  unfold diff_delta__from_two.
  destruct (delta_t_eqb st GIT_DELTA_UNMODIFIED
            && negb (flag_set (diff_flags diff) GIT_DIFF_INCLUDE_UNMODIFIED)).
  - apply extends_by_refl.
  - apply extends_by_insert. rewrite delta_from_two_path.
    destruct (flag_set (diff_flags diff) GIT_DIFF_REVERSE); auto.
Qed.

Lemma last_cons_default {A} (l : list A) (a d : A) :
  last (a :: l) d = last l a.
Proof.
  revert a d. induction l as [|x l IH]; intros a d; [reflexivity|].
  change (last (a :: x :: l) d) with (last (x :: l) d).
  rewrite !IH. reflexivity.
Qed.

Lemma git_vector_last_split (diff : git_diff_list) (d : git_diff_delta) :
  git_vector_last diff = Some d ->
  deltas diff = removelast (deltas diff) ++ [d].
Proof.
  unfold git_vector_last. destruct (deltas diff) as [|d0 ds] eqn:E;
    [discriminate|].
  intros H. injection H as <-.
  rewrite <- (last_cons_default ds d0 d0).
  apply app_removelast_last. discriminate.
Qed.

Lemma diff_delta__last_for_item_is_last (diff : git_diff_list)
    (item : git_index_entry) (d : git_diff_delta) :
  diff_delta__last_for_item diff item = Some d ->
  git_vector_last diff = Some d.
Proof.
  unfold diff_delta__last_for_item.
  destruct (git_vector_last diff) as [x|]; [|discriminate].
  destruct (status x);
    repeat match goal with
           | |- context [if ?c then _ else _] => destruct c
           end; congruence.
Qed.

Lemma patch_last_extends (ok : string -> Prop) (diff : git_diff_list)
    (found : option git_diff_delta) (new_side : bool) :
  (forall d, found = Some d -> git_vector_last diff = Some d) ->
  extends_by ok 0 diff (patch_last diff found new_side).
Proof.
  intros Hlast. destruct found as [d|]; [|apply extends_by_refl].
  specialize (Hlast d eq_refl). apply git_vector_last_split in Hlast.
  unfold patch_last, set_vector_last. split; [reflexivity|].
  exists []. cbn [deltas set_deltas]. rewrite app_nil_r.
  split; [|split; [constructor | simpl; lia]].
  rewrite Hlast at 2. rewrite !map_app. f_equal.
  destruct new_side; reflexivity.
Qed.
Lemma classify_chain_finishes (diff : git_diff_list) (wd : bool)
    (o n : git_index_entry) (om nm : Z) :
  finishes_with (classify_chain diff wd o n om nm)
    (fun r =>
       match r with
       | inl diff' =>
           extends_by (fun q => q = e_path o \/ q = e_path n) 2 diff diff'
       | inr _ => True
       end).
Proof.
  unfold classify_chain.
  repeat match goal with
         | |- finishes_with (if ?c then _ else _) _ => destruct c
         end;
    try (apply finishes_ret; exact I).
  - apply finishes_ret.
    apply (extends_by_trans _ 1 1 _
             (diff_delta__from_one diff GIT_DELTA_DELETED o));
      (eapply extends_by_weaken;
       [| |apply diff_delta__from_one_extends]);
      try lia; intros q <-; auto.
  - apply finishes_bind. unfold git_submodule_lookup.
    apply finishes_bind, finishes_tell, finishes_lift_option.
    intros sub _. destruct (sm_ignore sub =? GIT_SUBMODULE_IGNORE_ALL).
    + apply finishes_ret. exact I.
    + apply finishes_bind. unfold git_submodule_status.
      apply finishes_bind, finishes_tell, finishes_lift_option.
      intros sm_st _. apply finishes_ret. exact I.
Qed.

Lemma maybe_modified_extends (old_iter new_iter : git_iterator)
    (o n : git_index_entry) (diff : git_diff_list) :
  finishes_with (maybe_modified old_iter o new_iter n diff)
    (extends_by (fun q => q = e_path o \/ q = e_path n) 2 diff).
Proof.
  unfold maybe_modified.
  match goal with
  | |- finishes_with (if ?c then _ else _) _ => destruct c
  end; [apply finishes_ret, extends_by_refl|].
  assert (Htwo : forall st om nm noid,
    extends_by (fun q => q = e_path o \/ q = e_path n) 2 diff
      (diff_delta__from_two diff st o om n nm noid)).
  { intros. eapply extends_by_weaken;
      [| |apply diff_delta__from_two_extends]; auto. }
  apply finishes_bind.
  eapply finishes_weaken; [|apply classify_chain_finishes].
  intros [diff' | [st use_noid]] Hr; [apply finishes_ret; exact Hr|].
  apply finishes_bind.
  match goal with
  | |- finishes_with (if ?c then _ else _) _ => destruct c
  end.
  - apply finishes_bind. destruct use_noid as [x|].
    + apply finishes_ret, finishes_ret, finishes_ret. apply Htwo.
    + eapply finishes_weaken; [|apply git_diff__oid_for_file_finishes].
      intros noid _. apply finishes_ret, finishes_ret. apply Htwo.
  - apply finishes_ret, finishes_ret. apply Htwo.
Qed.

(* ================================================================== *)
(** * Advancing a source *)

Lemma skip_below_suffix (dir : string) (l : list source_item) :
  exists pre, l = pre ++ skip_below dir l.
Proof.
  induction l as [|i l [pre IH]]; [exists []; reflexivity|].
  simpl. destruct (git__prefixcmp (e_path (si_entry i)) dir =? 0).
  - exists (i :: pre). simpl. now rewrite <- IH.
  - exists []. reflexivity.
Qed.

Lemma git_iterator_advance_suffix (it : git_iterator) (i : source_item)
    (l : list source_item) :
  it_items it = i :: l ->
  it_type (git_iterator_advance it) = it_type it
  /\ ignore_case (git_iterator_advance it) = ignore_case it
  /\ exists pre, l = pre ++ it_items (git_iterator_advance it).
Proof.
  intros Hitems. unfold git_iterator_advance. rewrite Hitems.
  destruct (is_workdir (it_type it) && S_ISDIR (e_mode (si_entry i))).
  - repeat split. apply skip_below_suffix.
  - repeat split. exists []. reflexivity.
Qed.

Lemma git_iterator_advance_into_directory_suffix (it : git_iterator)
    (i : source_item) (l : list source_item) :
  it_items it = i :: l ->
  S_ISDIR (e_mode (si_entry i)) = true ->
  can_descend it ->
  git_iterator_advance_into_directory it = set_items it l.
Proof.
  intros Hitems Hdir Hdesc. unfold git_iterator_advance_into_directory.
  rewrite Hitems, Hdir. destruct Hdesc as [-> | Hnone]; [reflexivity|].
  unfold no_directories in Hnone. rewrite Hitems in Hnone.
  inversion Hnone; congruence.
Qed.

Lemma spool_items (n : nat) (it : git_iterator) :
  forall x, In x (spool n it) ->
            exists i, In i (it_items it)
                      /\ x = mk_item (si_entry i) false false.
Proof.
  revert it. induction n as [|n IH]; intros it x Hin; [contradiction|].
  simpl in Hin. destruct (it_items it) as [|i l] eqn:Hitems;
    [contradiction|].
  destruct Hin as [<- | Hin].
  - exists i. split; [now left | reflexivity].
  - destruct (IH _ _ Hin) as (j & Hj & ->).
    destruct (git_iterator_advance_suffix it i l Hitems)
      as (_ & _ & pre & Hpre).
    exists j. split; [|reflexivity]. right. rewrite Hpre.
    apply in_or_app. now right.
Qed.

Lemma insert_sorted_in (cmp : git_index_entry -> git_index_entry -> Z)
    (x y : source_item) (l : list source_item) :
  In y (insert_sorted cmp x l) <-> y = x \/ In y l.
Proof.
  induction l as [|z l IH]; simpl.
  - intuition congruence.
  - destruct (cmp (si_entry x) (si_entry z) <=? 0); simpl;
      [|rewrite IH]; intuition congruence.
Qed.

Lemma sort_in (cmp : git_index_entry -> git_index_entry -> Z)
    (y : source_item) (l : list source_item) :
  In y (fold_right (insert_sorted cmp) [] l) <-> In y l.
Proof.
  induction l as [|x l IH]; simpl; [tauto|].
  rewrite insert_sorted_in, IH. intuition congruence.
Qed.

Lemma spoolandsort_no_directories
    (it : git_iterator) (cmp : git_index_entry -> git_index_entry -> Z)
    (icase : bool) :
  no_directories (it_items it) ->
  no_directories (it_items (git_iterator_spoolandsort it cmp icase)).
Proof.
  unfold no_directories. rewrite !Forall_forall. intros Hnone x Hin.
  unfold git_iterator_spoolandsort in Hin. cbn [it_items] in Hin.
  apply sort_in in Hin. apply spool_items in Hin.
  destruct Hin as (i & Hi & ->). exact (Hnone i Hi).
Qed.
(* ================================================================== *)
(** * The shape of one pass of the driver *)

Lemma old_only_shape (s : loop_state) (o : git_index_entry)
    (nitem : option git_index_entry) :
  exists diff',
    old_only s o nitem
    = ret (mk_loop diff' (git_iterator_advance (ls_old s)) (ls_new s)
             (ls_ignore_prefix s))
    /\ extends_by (eq (e_path o)) 1 (ls_diff s) diff'.
Proof.
  unfold old_only. eexists. split; [reflexivity|].
  match goal with
  | |- context [if ?c then _ else _] => destruct c
  end; [|apply diff_delta__from_one_extends].
  eapply (extends_by_trans _ 1 0);
    [apply diff_delta__from_one_extends|].
  apply patch_last_extends. intros d.
  apply diff_delta__last_for_item_is_last.
Qed.

Lemma new_only_shape (s : loop_state) (oitem : option git_index_entry)
    (n : git_index_entry) :
  exists diff' new_iter' prefix',
    new_only s oitem n = ret (mk_loop diff' (ls_old s) new_iter' prefix')
    /\ extends_by (eq (e_path n)) 1 (ls_diff s) diff'
    /\ (new_iter' = git_iterator_advance (ls_new s)
        \/ (S_ISDIR (e_mode n) = true
            /\ new_iter' = git_iterator_advance_into_directory (ls_new s))).
Proof.
  assert (Hemit : forall st,
    exists diff' new_iter' prefix',
      ret (mk_loop
             (let diff := diff_delta__from_one (ls_diff s) st n in
              if negb (delta_t_eqb st GIT_DELTA_IGNORED)
                 && flag_set (diff_flags diff)
                      GIT_DIFF_INCLUDE_TYPECHANGE_TREES
                 && entry_is_prefixed diff n oitem
              then
                patch_last diff
                  (match oitem with
                   | Some oitem => diff_delta__last_for_item diff oitem
                   | None => None
                   end) false
              else diff)
             (ls_old s) (git_iterator_advance (ls_new s))
             (ls_ignore_prefix s))
      = ret (mk_loop diff' (ls_old s) new_iter' prefix')
      /\ extends_by (eq (e_path n)) 1 (ls_diff s) diff'
      /\ (new_iter' = git_iterator_advance (ls_new s)
          \/ (S_ISDIR (e_mode n) = true
              /\ new_iter'
                 = git_iterator_advance_into_directory (ls_new s)))).
  { intros st. do 3 eexists. split; [reflexivity|]. split; [|now left].
    cbv zeta.
    match goal with
    | |- context [if ?c then _ else _] => destruct c
    end; [|apply diff_delta__from_one_extends].
    eapply (extends_by_trans _ 1 0);
      [apply diff_delta__from_one_extends|].
    apply patch_last_extends. intros d. destruct oitem as [o|];
      [apply diff_delta__last_for_item_is_last | discriminate]. }
  unfold new_only. cbv zeta.
  destruct (S_ISDIR (e_mode n)) eqn:Hdir.
  - match goal with
    | |- context [if ?c || ?c' then inl _ else _] => destruct (c || c')
    end.
    + do 3 eexists. split; [reflexivity|].
      split; [apply extends_by_refl | right; split; reflexivity].
    + apply Hemit.
  - match goal with
    | |- context [if ?c then GIT_DELTA_IGNORED else GIT_DELTA_UNTRACKED] =>
        destruct c
    end.
    + do 3 eexists. split; [reflexivity|].
      split; [apply extends_by_refl | now left].
    + change (delta_t_eqb GIT_DELTA_UNTRACKED GIT_DELTA_IGNORED) with false.
      cbv iota.
      destruct (git_iterator_current_is_ignored (ls_new s));
        [apply Hemit|].
      destruct (negb (is_workdir (it_type (ls_new s)))); apply Hemit.
Qed.

Lemma matched_shape (s : loop_state) (o n : git_index_entry) :
  finishes_with (matched s o n)
    (fun s' =>
       exists diff',
         s' = mk_loop diff' (git_iterator_advance (ls_old s))
                (git_iterator_advance (ls_new s)) (ls_ignore_prefix s)
         /\ extends_by (fun q => q = e_path o \/ q = e_path n) 2
              (ls_diff s) diff').
Proof.
  unfold matched. apply finishes_bind.
  eapply finishes_weaken; [|apply maybe_modified_extends].
  intros diff' Hext. apply finishes_ret. exists diff'. now split.
Qed.
(* ================================================================== *)
(** * The merge-join keeps the path order *)

Section MergeJoin.

Variable cmp : string -> string -> Z.
Hypothesis cmp_order : path_order cmp.

Local Abbreviation le := (path_le cmp).
Local Abbreviation lt := (path_lt cmp).

Lemma path_le_refl (a : string) : le a a.
Proof. unfold path_le. rewrite (po_refl cmp cmp_order). lia. Qed.

Lemma path_le_trans (a b c : string) : le a b -> le b c -> le a c.
Proof. apply (po_trans cmp cmp_order). Qed.

Lemma path_le_of_ge (a b : string) : cmp a b >= 0 -> le b a.
Proof.
  unfold path_le. rewrite (po_antisym cmp cmp_order a b). lia.
Qed.

Lemma path_lt_of_gt (a b : string) : cmp a b > 0 -> lt b a.
Proof.
  unfold path_lt. rewrite (po_antisym cmp cmp_order a b). lia.
Qed.

Lemma path_lt_le (a b : string) : lt a b -> le a b.
Proof. unfold path_lt, path_le. lia. Qed.

Lemma path_lt_le_trans (a b c : string) : lt a b -> le b c -> lt a c.
Proof.
  intros Hab Hbc. unfold path_lt.
  destruct (Z.lt_ge_cases (cmp a c) 0) as [H | H]; [exact H | exfalso].
  assert (Hca : le c a) by (apply path_le_of_ge; lia).
  pose proof (path_le_trans b c a Hbc Hca) as Hba.
  unfold path_le, path_lt in *.
  rewrite (po_antisym cmp cmp_order a b) in Hba. lia.
Qed.

Lemma path_le_lt_trans (a b c : string) : le a b -> lt b c -> lt a c.
Proof.
  intros Hab Hbc. unfold path_lt.
  destruct (Z.lt_ge_cases (cmp a c) 0) as [H | H]; [exact H | exfalso].
  assert (Hca : le c a) by (apply path_le_of_ge; lia).
  pose proof (path_le_trans c a b Hca Hab) as Hcb.
  unfold path_le, path_lt in *.
  rewrite (po_antisym cmp cmp_order b c) in Hcb. lia.
Qed.

Lemma increasing_suffix (pre l : list string) :
  StronglySorted lt (pre ++ l) -> StronglySorted lt l.
Proof.
  induction pre as [|x pre IH]; [trivial|].
  intros H. apply IH. now inversion H.
Qed.

Lemma items_increasing_suffix (pre l : list source_item) :
  items_increasing cmp (pre ++ l) -> items_increasing cmp l.
Proof.
  unfold items_increasing. rewrite map_app. apply increasing_suffix.
Qed.

Lemma increasing_head_lt (i : source_item) (l : list source_item) :
  items_increasing cmp (i :: l) ->
  forall j, In j l -> lt (item_path i) (item_path j).
Proof.
  intros H j Hj. inversion H as [|? ? _ Hall]; subst.
  rewrite Forall_forall in Hall. apply Hall. now apply in_map.
Qed.

Lemma sorted_app (l1 l2 : list string) :
  StronglySorted le l1 -> StronglySorted le l2 ->
  (forall x y, In x l1 -> In y l2 -> le x y) ->
  StronglySorted le (l1 ++ l2).
Proof.
  induction l1 as [|a l1 IH]; intros H1 H2 Hcross; [exact H2|].
  inversion H1 as [|? ? Hs Hall]; subst. simpl. constructor.
  - apply IH; auto. intros x y Hx Hy. apply Hcross; [now right | exact Hy].
  - apply Forall_app. split; [exact Hall|].
    apply Forall_forall. intros y Hy. apply Hcross; [now left | exact Hy].
Qed.

Lemma sorted_of_equivalent (m : string) (l : list string) :
  Forall (fun q => le q m /\ le m q) l -> StronglySorted le l.
Proof.
  induction 1 as [|q l [Hqm Hmq] Hall IH]; constructor; [exact IH|].
  eapply Forall_impl; [|exact Hall]. intros y [_ Hmy].
  now apply path_le_trans with m.
Qed.

(** Appending at most two paths that sit at [m], strictly after all that
    is there, keeps the paths in order. *)
Lemma paths_ordered_app (l extra : list string) (m : string) :
  paths_ordered cmp l ->
  Forall (fun q => le q m /\ le m q) extra ->
  (List.length extra <= 2)%nat ->
  (forall p, In p l -> lt p m) ->
  paths_ordered cmp (l ++ extra).
Proof.
  intros [Hs Hstep] Hextra Hlen Hbelow.
  rewrite Forall_forall in Hextra. split.
  - apply sorted_app; [exact Hs | |].
    + apply sorted_of_equivalent with m. now apply Forall_forall.
    + intros x y Hx Hy. apply path_le_trans with m;
        [apply path_lt_le; now apply Hbelow | now apply Hextra].
  - intros i a c Ha Hc.
    destruct (Nat.lt_ge_cases (2 + i) (List.length l)) as [Hin | Hout].
    + rewrite nth_error_app1 in Ha, Hc by lia. now apply (Hstep i).
    + rewrite (nth_error_app2 l extra Hout) in Hc.
      assert (Hc' : (2 + i - List.length l < List.length extra)%nat)
        by (apply nth_error_Some; congruence).
      rewrite nth_error_app1 in Ha by lia.
      apply path_lt_le_trans with m.
      * apply Hbelow. eapply nth_error_In; eassumption.
      * apply Hextra. eapply nth_error_In; eassumption.
Qed.

(** One pass re-establishes the invariant when all it appends sits at
    the smaller current path [m], and all that remains comes strictly
    after it. *)
Lemma loop_inv_step (s : loop_state) (diff' : git_diff_list)
    (old' new' : git_iterator) (prefix' : string) (m : string)
    (ok : string -> Prop) :
  loop_inv cmp s ->
  extends_by ok 2 (ls_diff s) diff' ->
  (forall q, ok q -> le q m /\ le m q) ->
  (forall p, In p (map delta_path (deltas (ls_diff s))) -> lt p m) ->
  (exists pre, it_items (ls_old s) = pre ++ it_items old') ->
  (exists pre, it_items (ls_new s) = pre ++ it_items new') ->
  (forall i, In i (it_items old') -> lt m (item_path i)) ->
  (forall i, In i (it_items new') -> lt m (item_path i)) ->
  can_descend new' ->
  loop_inv cmp (mk_loop diff' old' new' prefix').
Proof.
  intros Hinv [Heq (extra & Hpaths & Hextra & Hlen)] Hok Hbelow
    [preo Hpreo] [pren Hpren] Hold Hnew Hdesc.
  assert (Hextra' : Forall (fun q => le q m /\ le m q) extra)
    by (eapply Forall_impl; [|exact Hextra]; auto).
  assert (Hall : forall p, In p (map delta_path (deltas diff')) -> le p m).
  { intros p Hp. rewrite Hpaths in Hp. apply in_app_or in Hp.
    destruct Hp as [Hp | Hp]; [apply path_lt_le; now apply Hbelow|].
    rewrite Forall_forall in Hextra'. now apply Hextra'. }
  constructor; cbn [ls_diff ls_old ls_new].
  - intros a b. rewrite Heq. apply (inv_entrycomp cmp s Hinv).
  - apply (items_increasing_suffix preo). rewrite <- Hpreo.
    apply (inv_old cmp s Hinv).
  - apply (items_increasing_suffix pren). rewrite <- Hpren.
    apply (inv_new cmp s Hinv).
  - rewrite Hpaths. apply paths_ordered_app with m; auto.
    apply (inv_deltas cmp s Hinv).
  - intros p i Hp Hi. apply path_le_lt_trans with m; auto.
  - intros p i Hp Hi. apply path_le_lt_trans with m; auto.
  - exact Hdesc.
Qed.

Lemma can_descend_suffix (it it' : git_iterator) (pre : list source_item) :
  it_type it' = it_type it ->
  it_items it = pre ++ it_items it' ->
  can_descend it -> can_descend it'.
Proof.
  intros Ht Hitems [Hwd | Hnone]; [left; congruence|].
  right. unfold no_directories in *. rewrite Hitems in Hnone.
  apply Forall_app in Hnone. tauto.
Qed.

Lemma suffix_length (l l' pre : list source_item) :
  l = pre ++ l' -> (List.length l' <= List.length l)%nat.
Proof. intros ->. rewrite length_app. lia. Qed.

(** A pass of the loop body keeps the invariant and shortens a listing. *)
Lemma diff_iteration_inv (s : loop_state) :
  loop_inv cmp s ->
  (it_items (ls_old s) <> [] \/ it_items (ls_new s) <> []) ->
  finishes_with (diff_iteration s)
    (fun s' => loop_inv cmp s' /\ (loop_measure s' < loop_measure s)%nat).
Proof.
  intros Hinv Hsome.
  assert (Hold_case : forall io lo nitem,
    it_items (ls_old s) = io :: lo ->
    (forall j, In j (it_items (ls_new s)) ->
               lt (item_path io) (item_path j)) ->
    finishes_with (old_only s (si_entry io) nitem)
      (fun s' => loop_inv cmp s'
                 /\ (loop_measure s' < loop_measure s)%nat)).
  { intros io lo nitem Ho Hmin.
    destruct (old_only_shape s (si_entry io) nitem)
      as (diff' & -> & Hext).
    destruct (git_iterator_advance_suffix (ls_old s) io lo Ho)
      as (Ht & _ & pre & Hpre).
    apply finishes_ret. split.
    - apply (loop_inv_step s diff' _ _ _ (item_path io)
               (eq (e_path (si_entry io)))); auto.
      + eapply extends_by_weaken; [| |exact Hext]; auto.
      + intros q <-. split; apply path_le_refl.
      + intros p Hp. apply (inv_below_old cmp s Hinv); [exact Hp|].
        rewrite Ho. now left.
      + exists (io :: pre). rewrite Ho, Hpre. reflexivity.
      + exists []. reflexivity.
      + intros i Hi.
        apply (increasing_head_lt io lo);
          [rewrite <- Ho; apply (inv_old cmp s Hinv)|].
        rewrite Hpre. apply in_or_app. now right.
      + apply (inv_descend cmp s Hinv).
    - unfold loop_measure, loop_fuel. cbn [ls_old ls_new]. rewrite Ho.
      apply suffix_length in Hpre. simpl. lia. }
  assert (Hnew_case : forall i_n ln oitem,
    it_items (ls_new s) = i_n :: ln ->
    (forall j, In j (it_items (ls_old s)) ->
               lt (item_path i_n) (item_path j)) ->
    finishes_with (new_only s oitem (si_entry i_n))
      (fun s' => loop_inv cmp s'
                 /\ (loop_measure s' < loop_measure s)%nat)).
  { intros i_n ln oitem Hn Hmin.
    destruct (new_only_shape s oitem (si_entry i_n))
      as (diff' & new' & prefix' & -> & Hext & Hnew').
    assert (Hsuf : it_type new' = it_type (ls_new s)
                   /\ exists pre, ln = pre ++ it_items new').
    { destruct Hnew' as [-> | [Hdir ->]].
      - destruct (git_iterator_advance_suffix (ls_new s) i_n ln Hn)
          as (Ht & _ & Hpre). now split.
      - rewrite (git_iterator_advance_into_directory_suffix
                   (ls_new s) i_n ln Hn Hdir (inv_descend cmp s Hinv)).
        split; [reflexivity|]. exists []. reflexivity. }
    destruct Hsuf as (Ht & pre & Hpre).
    apply finishes_ret. split.
    - apply (loop_inv_step s diff' _ _ _ (item_path i_n)
               (eq (e_path (si_entry i_n)))); auto.
      + eapply extends_by_weaken; [| |exact Hext]; auto.
      + intros q <-. split; apply path_le_refl.
      + intros p Hp. apply (inv_below_new cmp s Hinv); [exact Hp|].
        rewrite Hn. now left.
      + exists []. reflexivity.
      + exists (i_n :: pre). rewrite Hn, Hpre. reflexivity.
      + intros i Hi.
        apply (increasing_head_lt i_n ln);
          [rewrite <- Hn; apply (inv_new cmp s Hinv)|].
        rewrite Hpre. apply in_or_app. now right.
      + apply (can_descend_suffix (ls_new s) new' (i_n :: pre));
          [exact Ht | rewrite Hn, Hpre; reflexivity
          | apply (inv_descend cmp s Hinv)].
    - unfold loop_measure, loop_fuel. cbn [ls_old ls_new]. rewrite Hn.
      apply suffix_length in Hpre. simpl. lia. }
  pose proof (inv_entrycomp cmp s Hinv) as Hecmp.
  pose proof (inv_old cmp s Hinv) as Hso.
  pose proof (inv_new cmp s Hinv) as Hsn.
  unfold diff_iteration, git_iterator_current.
  destruct (it_items (ls_old s)) as [|io lo] eqn:Ho;
    destruct (it_items (ls_new s)) as [|i_n ln] eqn:Hn.
  - destruct Hsome; congruence.
  - apply (Hnew_case i_n ln None eq_refl). intros j [].
  - apply (Hold_case io lo None eq_refl). intros j [].
  - rewrite Hecmp.
    pose proof (increasing_head_lt io lo Hso) as Holds.
    pose proof (increasing_head_lt i_n ln Hsn) as Hnews.
    destruct (Z.ltb_spec (cmp (e_path (si_entry io))
                            (e_path (si_entry i_n))) 0) as [Hlt | Hge].
    + apply (Hold_case io lo _ eq_refl). intros j [<- | Hj];
        [exact Hlt|].
      apply path_lt_le_trans with (item_path i_n); [exact Hlt|].
      apply path_lt_le. now apply Hnews.
    + destruct (Z.gtb_spec (cmp (e_path (si_entry io))
                              (e_path (si_entry i_n))) 0) as [Hgt | Hle].
      * assert (Hno : lt (item_path i_n) (item_path io))
          by (apply path_lt_of_gt; unfold item_path; lia).
        apply (Hnew_case i_n ln _ eq_refl). intros j [<- | Hj];
          [exact Hno|].
        apply path_lt_le_trans with (item_path io); [exact Hno|].
        apply path_lt_le. now apply Holds.
      * assert (Hon : le (item_path io) (item_path i_n))
          by (unfold path_le, item_path; lia).
        assert (Hno : le (item_path i_n) (item_path io))
          by (apply path_le_of_ge; unfold item_path; lia).
        eapply finishes_weaken; [|apply matched_shape].
        intros s' (diff' & -> & Hext).
        destruct (git_iterator_advance_suffix (ls_old s) io lo Ho)
          as (_ & _ & preo & Hpreo).
        destruct (git_iterator_advance_suffix (ls_new s) i_n ln Hn)
          as (Htn & _ & pren & Hpren).
        split.
        -- apply (loop_inv_step s diff' _ _ _ (item_path io)
                    (fun q => q = e_path (si_entry io)
                              \/ q = e_path (si_entry i_n))); auto.
           ++ intros q [-> | ->]; split; auto; apply path_le_refl.
           ++ intros p Hp. apply (inv_below_old cmp s Hinv); [exact Hp|].
              rewrite Ho. now left.
           ++ exists (io :: preo). rewrite Ho, Hpreo. reflexivity.
           ++ exists (i_n :: pren). rewrite Hn, Hpren. reflexivity.
           ++ intros i Hi. apply Holds. rewrite Hpreo.
              apply in_or_app. now right.
           ++ intros i Hi. apply path_le_lt_trans with (item_path i_n);
                [exact Hon|].
              apply Hnews. rewrite Hpren. apply in_or_app. now right.
           ++ apply (can_descend_suffix (ls_new s) _ (i_n :: pren));
                [exact Htn | rewrite Hn, Hpren; reflexivity
                | apply (inv_descend cmp s Hinv)].
        -- unfold loop_measure, loop_fuel. cbn [ls_old ls_new].
           rewrite Ho, Hn. apply suffix_length in Hpreo.
           apply suffix_length in Hpren. simpl. lia.
Qed.

(** The loop ends within [loop_measure] passes, with the invariant. *)
Lemma diff_loop_inv (fuel : nat) :
  forall s,
    loop_inv cmp s -> (loop_measure s <= fuel)%nat ->
    finishes_with (diff_loop fuel s) (loop_inv cmp).
Proof.
  induction fuel as [|fuel IH]; intros s Hinv Hfuel.
  - unfold loop_measure, loop_fuel in Hfuel.
    destruct (it_items (ls_old s)) eqn:Ho; [|simpl in Hfuel; lia].
    destruct (it_items (ls_new s)) eqn:Hn; [|simpl in Hfuel; lia].
    simpl. unfold git_iterator_current. rewrite Ho, Hn.
    apply finishes_ret. exact Hinv.
  - cbn [diff_loop]. unfold git_iterator_current.
    assert (Hstep :
      (it_items (ls_old s) <> [] \/ it_items (ls_new s) <> []) ->
      finishes_with (s' <- diff_iteration s ;; diff_loop fuel s')
        (loop_inv cmp)).
    { intros Hsome. apply finishes_bind.
      eapply finishes_weaken; [|now apply diff_iteration_inv].
      intros s' [Hinv' Hlt]. apply IH; [exact Hinv' | lia]. }
    destruct (it_items (ls_old s)) as [|io lo];
      destruct (it_items (ls_new s)) as [|i_n ln].
    + apply finishes_ret. exact Hinv.
    + apply Hstep. right. discriminate.
    + apply Hstep. left. discriminate.
    + apply Hstep. left. discriminate.
Qed.

End MergeJoin.
(* ================================================================== *)
(** * A whole run *)

Lemma load_config_caps_deltas (cfg : git_config) (diff : git_diff_list) :
  deltas (load_config_caps cfg diff) = deltas diff.
Proof.
  unfold load_config_caps.
  repeat match goal with
         | |- context [if ?c then _ else _] => destruct c
         end; reflexivity.
Qed.

Lemma apply_options_deltas (diff : git_diff_list) (o : git_diff_options) :
  deltas (apply_options diff o) = deltas diff.
Proof.
  unfold apply_options.
  repeat match goal with
         | |- context [if ?c then _ else _] => destruct c
         end; reflexivity.
Qed.

Lemma git_diff_list_alloc_deltas (rp : git_repository)
    (options : option git_diff_options) (diff : git_diff_list) :
  git_diff_list_alloc rp options = Some diff -> deltas diff = [].
Proof.
  unfold git_diff_list_alloc. destruct (repo_config rp) as [cfg|];
    [|discriminate].
  destruct options as [o|]; intros H; injection H as <-.
  - now rewrite apply_options_deltas, load_config_caps_deltas.
  - now rewrite load_config_caps_deltas.
Qed.

Lemma negotiated_strcomp_order (old_iter new_iter : git_iterator) :
  path_order (negotiated_strcomp old_iter new_iter).
Proof.
  unfold negotiated_strcomp. destruct (negotiated_icase old_iter new_iter);
    [apply strcasecmp_order | apply strcmp_order].
Qed.

(** What [diff_list_init_from_iterators] settles. *)
Lemma diff_list_init_from_iterators_facts (diff : git_diff_list)
    (old_iter new_iter : git_iterator) :
  let diff' := diff_list_init_from_iterators diff old_iter new_iter in
  deltas diff' = deltas diff
  /\ flag_set (diff_flags diff') GIT_DIFF_DELTAS_ARE_ICASE
     = negotiated_icase old_iter new_iter
  /\ (forall a b,
         entrycomp diff' a b
         = negotiated_strcomp old_iter new_iter (e_path a) (e_path b))
  /\ (negotiated_icase old_iter new_iter = true ->
      entrycomp diff' = git_index_entry__cmp_icase).
Proof.
  unfold diff_list_init_from_iterators, negotiated_strcomp,
    negotiated_icase, diff_flags, GIT_DIFF_DELTAS_ARE_ICASE.
  destruct (ignore_case old_iter), (ignore_case new_iter);
    cbn [negb andb orb deltas opts opt_flags set_opt_flags entrycomp];
    rewrite ?flag_set_lor, ?flag_set_clear by lia;
    rewrite ?orb_true_r, ?andb_false_r;
    repeat split; try reflexivity; discriminate.
Qed.

(** C1, as the code has it.  When the listings the merge-join reads (each
    source, or its re-sorted copy where the run is case-insensitive and
    the source is not) strictly increase in path under the negotiated
    comparator, and the directories of the new listing can be descended
    into, a compare run finishes, and the paths of its deltas in append
    order never decrease under that comparator and strictly increase two
    steps apart: at most two neighbouring deltas share a path. *)
Theorem delta_paths_follow_source_order
    (rp : git_repository) (old_iter new_iter : git_iterator)
    (options : option git_diff_options) :
  let cmp := negotiated_strcomp old_iter new_iter in
  items_increasing cmp
    (it_items (listing_as_read old_iter new_iter old_iter)) ->
  items_increasing cmp
    (it_items (listing_as_read old_iter new_iter new_iter)) ->
  can_descend (listing_as_read old_iter new_iter new_iter) ->
  finishes_with (diff_from_iterators rp old_iter new_iter options)
    (fun diff => paths_ordered cmp (map delta_path (deltas diff))).
Proof.
  intros cmp Hold Hnew Hdesc. unfold diff_from_iterators.
  destruct (git_diff_list_alloc rp options) as [diff|] eqn:Halloc;
    [|exact I].
  apply git_diff_list_alloc_deltas in Halloc.
  destruct (diff_list_init_from_iterators_facts diff old_iter new_iter)
    as (Hdeltas & Hicase & Hecmp & Hicmp).
  set (diff0 := diff_list_init_from_iterators diff old_iter new_iter) in *.
  assert (Hread : forall it,
    spool_if_needed diff0 it = listing_as_read old_iter new_iter it).
  { intros it. unfold spool_if_needed, listing_as_read. rewrite Hicase.
    destruct (negotiated_icase old_iter new_iter) eqn:Hic; [|reflexivity].
    rewrite (Hicmp eq_refl). reflexivity. }
  cbv zeta. rewrite !Hread.
  apply finishes_bind.
  eapply finishes_weaken;
    [|apply (diff_loop_inv cmp (negotiated_strcomp_order old_iter new_iter))].
  - intros s Hinv. apply finishes_ret. apply (inv_deltas cmp s Hinv).
  - constructor; cbn [ls_diff ls_old ls_new]; try assumption.
    + rewrite Hdeltas, Halloc. split; [constructor|].
      intros [|i] a c Ha; discriminate.
    + rewrite Hdeltas, Halloc. intros p i [].
    + rewrite Hdeltas, Halloc. intros p i [].
  - unfold loop_measure. cbn [ls_old ls_new]. lia.
Qed.

Lemma delta_paths_follow_source_order_witness :
  let run :=
    diff_from_iterators Sample.rp Sample.index_three_files
      Sample.workdir_with_changes
      (Sample.options GIT_DIFF_INCLUDE_UNTRACKED) in
  finishes_with run
    (fun diff => paths_ordered strcmp (map delta_path (deltas diff)))
  /\ option_map (map (fun d => (delta_path d, status d)))
       (Sample.deltas_of run)
     = Some [("a.txt"%string, GIT_DELTA_MODIFIED);
             ("b.txt"%string, GIT_DELTA_UNTRACKED);
             ("dir/y"%string, GIT_DELTA_UNTRACKED);
             ("link"%string, GIT_DELTA_DELETED);
             ("link"%string, GIT_DELTA_ADDED)].
Proof.
  cbv zeta. split; [|reflexivity].
  apply (delta_paths_follow_source_order Sample.rp Sample.index_three_files
           Sample.workdir_with_changes
           (Sample.options GIT_DIFF_INCLUDE_UNTRACKED)).
  - repeat constructor.
  - repeat constructor.
  - left. reflexivity.
Defined.

(** C1, as stated, fails on a type split: the run of scenario D appends
    the deleted and then the added delta for the one path [link]; their
    paths are equal, not increasing, and under the (path, status)
    comparator the first sorts after the second. *)
Lemma type_split_deltas_are_not_strictly_ordered :
  let run :=
    diff_from_iterators Sample.rp
      (Sample.source GIT_ITERATOR_TREE [Sample.file_link])
      (Sample.source GIT_ITERATOR_TREE [Sample.symlink_link])
      (Sample.options 0) in
  let deleted :=
    mk_delta (mk_file 1 "link" 0 1 33188) (mk_file 0 "link" 0 1 0)
      GIT_DELTA_DELETED in
  let added :=
    mk_delta (mk_file 0 "link" 0 1 0) (mk_file 2 "link" 0 1 40960)
      GIT_DELTA_ADDED in
  Sample.deltas_of run = Some [deleted; added]
  /\ strcmp (delta_path deleted) (delta_path added) = 0
  /\ git_diff_delta__cmp deleted added = 1.
Proof. cbv zeta. repeat split; reflexivity. Qed.
(** The order of the sources is needed: an old tree that lists [b]
    before [a] yields its two deleted deltas in that order. *)
Lemma unsorted_source_gives_unsorted_deltas :
  option_map (map delta_path)
    (Sample.deltas_of
       (diff_from_iterators Sample.rp
          (Sample.source GIT_ITERATOR_TREE
             [Sample.entry "b" 33188 1; Sample.entry "a" 33188 2])
          (Sample.source GIT_ITERATOR_TREE []) (Sample.options 0)))
  = Some ["b"%string; "a"%string]
  /\ strcmp "b" "a" > 0.
Proof. split; reflexivity. Qed.

(* ================================================================== *)
(** * Runs that end alike *)

Lemma runs_alike_ret {A B} (R : A -> B -> Prop) (a : A) (b : B) :
  R a b -> runs_alike R (ret a) (ret b).
Proof. intros H. split; [reflexivity | exact H]. Qed.

Lemma runs_alike_bind {A B A' B'} (R : A -> B -> Prop)
    (S : A' -> B' -> Prop) (mf : M A) (mr : M B)
    (kf : A -> M A') (kr : B -> M B') :
  runs_alike R mf mr ->
  (forall a b, R a b -> runs_alike S (kf a) (kr b)) ->
  runs_alike S (bind mf kf) (bind mr kr).
Proof.
  unfold runs_alike, bind.
  destruct mf as [lf [a| |]], mr as [lr [b| |]]; simpl;
    intros [-> H] Hk; try contradiction; auto.
  specialize (Hk a b H). destruct (kf a) as [lf' rf], (kr b) as [lr' rr].
  simpl in *. destruct Hk as [-> Hk]. split; [reflexivity | exact Hk].
Qed.

Lemma runs_alike_same {A} (m : M A) : runs_alike eq m m.
Proof.
  split; [reflexivity|]. destruct (snd m); auto.
Qed.

(* ================================================================== *)
(** * The reverse option, primitive by primitive *)

Section Reverse.

Variable cmp : string -> string -> Z.
Hypothesis cmp_refl : forall a, cmp a a = 0.

Lemma reverse_sim_flag (df dr : git_diff_list) (k : Z) :
  reverse_sim cmp df dr -> 0 < k ->
  flag_set (diff_flags dr) (Z.shiftl 1 k)
  = flag_set (diff_flags df) (Z.shiftl 1 k).
Proof.
  intros Hsim Hk. destruct (rs_flags cmp df dr Hsim) as (_ & _ & H).
  now apply H.
Qed.

Lemma reverse_sim_flags (df dr : git_diff_list) :
  reverse_sim cmp df dr ->
  flag_set (diff_flags dr) GIT_DIFF_IGNORE_SUBMODULES
  = flag_set (diff_flags df) GIT_DIFF_IGNORE_SUBMODULES
  /\ flag_set (diff_flags dr) GIT_DIFF_INCLUDE_IGNORED
     = flag_set (diff_flags df) GIT_DIFF_INCLUDE_IGNORED
  /\ flag_set (diff_flags dr) GIT_DIFF_INCLUDE_UNTRACKED
     = flag_set (diff_flags df) GIT_DIFF_INCLUDE_UNTRACKED
  /\ flag_set (diff_flags dr) GIT_DIFF_INCLUDE_UNMODIFIED
     = flag_set (diff_flags df) GIT_DIFF_INCLUDE_UNMODIFIED
  /\ flag_set (diff_flags dr) GIT_DIFF_RECURSE_UNTRACKED_DIRS
     = flag_set (diff_flags df) GIT_DIFF_RECURSE_UNTRACKED_DIRS
  /\ flag_set (diff_flags dr) GIT_DIFF_DISABLE_PATHSPEC_MATCH
     = flag_set (diff_flags df) GIT_DIFF_DISABLE_PATHSPEC_MATCH
  /\ flag_set (diff_flags dr) GIT_DIFF_DELTAS_ARE_ICASE
     = flag_set (diff_flags df) GIT_DIFF_DELTAS_ARE_ICASE
  /\ flag_set (diff_flags dr) GIT_DIFF_INCLUDE_TYPECHANGE
     = flag_set (diff_flags df) GIT_DIFF_INCLUDE_TYPECHANGE
  /\ flag_set (diff_flags dr) GIT_DIFF_INCLUDE_TYPECHANGE_TREES
     = flag_set (diff_flags df) GIT_DIFF_INCLUDE_TYPECHANGE_TREES.
Proof.
  intros Hsim. repeat split;
    (apply (reverse_sim_flag df dr); [exact Hsim | reflexivity]).
Qed.

Lemma reverse_sim_insert (df dr : git_diff_list) (d r : git_diff_delta) :
  reverse_sim cmp df dr -> reverse_of cmp d r ->
  reverse_sim cmp (git_vector_insert df d) (git_vector_insert dr r).
Proof.
  intros Hsim Hrev. destruct Hsim. constructor; try assumption.
  cbn [git_vector_insert deltas set_deltas].
  apply Forall2_app; [assumption|]. constructor; [exact Hrev|constructor].
Qed.

Lemma delta_from_one_reverse (df dr : git_diff_list) (st : git_delta_t)
    (entry : git_index_entry) :
  reverse_sim cmp df dr ->
  single_sided st ->
  reverse_of cmp (delta_from_one df st entry) (delta_from_one dr st entry).
Proof.
  intros Hsim Hst. destruct (rs_flags cmp df dr Hsim) as (Hf & Hr & _).
  unfold reverse_of, delta_from_one, diff_delta__alloc, same_side,
    delta_path.
  rewrite Hf, Hr.
  destruct Hst as [-> | [-> | [-> | ->]]]; cbn;
    destruct (git_oid_iszero (e_oid entry)); cbn;
    repeat split; try reflexivity; apply cmp_refl.
Qed.

Lemma diff_delta__from_one_reverse (df dr : git_diff_list)
    (st : git_delta_t) (entry : git_index_entry) :
  reverse_sim cmp df dr ->
  single_sided st ->
  reverse_sim cmp (diff_delta__from_one df st entry)
    (diff_delta__from_one dr st entry).
Proof.
  intros Hsim Hst. unfold diff_delta__from_one.
  rewrite (rs_pathspec cmp df dr Hsim).
  destruct (reverse_sim_flags df dr Hsim)
    as (_ & -> & -> & _ & _ & -> & -> & _).
  repeat match goal with
         | |- context [if ?c then _ else _] => destruct c
         end; try exact Hsim.
  apply reverse_sim_insert; [exact Hsim|].
  now apply delta_from_one_reverse.
Qed.

Lemma delta_from_two_reverse (df dr : git_diff_list) (st : git_delta_t)
    (o n : git_index_entry) (om nm : Z) (noid : option git_oid) :
  reverse_sim cmp df dr ->
  cmp (e_path o) (e_path n) = 0 ->
  two_sided st ->
  reverse_of cmp (delta_from_two df st o om n nm noid)
    (delta_from_two dr st o om n nm noid).
Proof.
  intros Hsim Hpath Hst. destruct (rs_flags cmp df dr Hsim) as (Hf & Hr & _).
  unfold reverse_of, delta_from_two, diff_delta__alloc, same_side,
    delta_path.
  rewrite Hf, Hr.
  destruct Hst as [-> | [-> | ->]]; destruct noid as [x|]; cbn;
    destruct (git_oid_iszero (e_oid o)), (git_oid_iszero (e_oid n)); cbn;
    repeat split; try reflexivity; exact Hpath.
Qed.

Lemma diff_delta__from_two_reverse (df dr : git_diff_list)
    (st : git_delta_t) (o n : git_index_entry) (om nm : Z)
    (noid : option git_oid) :
  reverse_sim cmp df dr ->
  cmp (e_path o) (e_path n) = 0 ->
  two_sided st ->
  reverse_sim cmp (diff_delta__from_two df st o om n nm noid)
    (diff_delta__from_two dr st o om n nm noid).
Proof.
  intros Hsim Hpath Hst. unfold diff_delta__from_two.
  destruct (reverse_sim_flags df dr Hsim) as (_ & _ & _ & -> & _).
  match goal with
  | |- context [if ?c then _ else _] => destruct c
  end; [exact Hsim|].
  apply reverse_sim_insert; [exact Hsim|].
  now apply delta_from_two_reverse.
Qed.

Lemma diff_delta__from_one_flags (diff : git_diff_list) (st : git_delta_t)
    (entry : git_index_entry) :
  diff_flags (diff_delta__from_one diff st entry) = diff_flags diff.
Proof.
  destruct (diff_delta__from_one_cases diff st entry) as [-> | ->];
    reflexivity.
Qed.

Lemma entry_is_prefixed_reverse (df dr : git_diff_list)
    (item : git_index_entry) (prefix_item : option git_index_entry) :
  pfxcomp dr = pfxcomp df ->
  entry_is_prefixed dr item prefix_item
  = entry_is_prefixed df item prefix_item.
Proof.
  intros H. unfold entry_is_prefixed. now rewrite H.
Qed.

Lemma classify_chain_reverse (df dr : git_diff_list) (wd : bool)
    (o n : git_index_entry) (om nm : Z) :
  reverse_sim cmp df dr ->
  runs_alike
    (fun rf rr =>
       match rf, rr with
       | inl f, inl r => reverse_sim cmp f r
       | inr (stf, uf), inr (str, ur) =>
           str = stf /\ ur = uf /\ two_sided stf
       | _, _ => False
       end)
    (classify_chain df wd o n om nm) (classify_chain dr wd o n om nm).
Proof.
  intros Hsim. unfold classify_chain, stat_looks_alike.
  rewrite (rs_caps cmp df dr Hsim), (rs_repo cmp df dr Hsim).
  destruct (reverse_sim_flags df dr Hsim)
    as (-> & _ & _ & _ & _ & _ & _ & -> & _).
  unfold two_sided.
  repeat match goal with
         | |- runs_alike _ (if ?c then _ else _) _ => destruct c
         end;
    try solve [ apply runs_alike_ret; repeat split;
                repeat match goal with
                       | |- context [if ?c then _ else _] => destruct c
                       end; auto ].
  - apply runs_alike_ret.
    apply diff_delta__from_one_reverse;
      [apply diff_delta__from_one_reverse|]; unfold single_sided; auto.
  - apply (runs_alike_bind eq); [apply runs_alike_same|].
    intros sub ? <-.
    destruct (sm_ignore sub =? GIT_SUBMODULE_IGNORE_ALL);
      [apply runs_alike_ret; auto|].
    apply (runs_alike_bind eq); [apply runs_alike_same|].
    intros sm_st ? <-. apply runs_alike_ret.
    destruct (GIT_SUBMODULE_STATUS_IS_UNMODIFIED sm_st); auto.
Qed.

Lemma maybe_modified_reverse (old_iter new_iter : git_iterator)
    (o n : git_index_entry) (df dr : git_diff_list) :
  reverse_sim cmp df dr ->
  cmp (e_path o) (e_path n) = 0 ->
  runs_alike (reverse_sim cmp)
    (maybe_modified old_iter o new_iter n df)
    (maybe_modified old_iter o new_iter n dr).
Proof.
  intros Hsim Hpath. unfold maybe_modified, normalized_nmode.
  rewrite (rs_caps cmp df dr Hsim), (rs_repo cmp df dr Hsim),
    (rs_pathspec cmp df dr Hsim).
  destruct (reverse_sim_flags df dr Hsim)
    as (_ & _ & _ & _ & _ & -> & -> & _).
  match goal with
  | |- runs_alike _ (if ?c then _ else _) _ => destruct c
  end; [apply runs_alike_ret; exact Hsim|].
  eapply runs_alike_bind; [apply classify_chain_reverse; exact Hsim|].
  intros [f | [stf uf]] [r | [str ur]] Hr; try contradiction.
  - apply runs_alike_ret. exact Hr.
  - destruct Hr as (-> & -> & Htwo).
    apply (runs_alike_bind
             (fun a b => b = a /\ two_sided (fst a))).
    + match goal with
      | |- runs_alike _ (if ?c then _ else _) _ => destruct c
      end; [|apply runs_alike_ret; auto].
      apply (runs_alike_bind eq); [apply runs_alike_same|].
      intros noid ? <-. apply runs_alike_ret. split; [reflexivity|].
      cbn [fst]. unfold two_sided in *.
      match goal with
      | |- context [if ?c then _ else _] => destruct c
      end; auto.
    + intros [st use] ? [-> Htwo']. apply runs_alike_ret.
      now apply diff_delta__from_two_reverse.
Qed.

(* ================================================================== *)
(** * The reverse option, pass by pass *)

Lemma loop_sim_intro (df dr : git_diff_list)
    (old_iter new_iter : git_iterator) (prefix : string) :
  reverse_sim cmp df dr ->
  loop_sim cmp (mk_loop df old_iter new_iter prefix)
    (mk_loop dr old_iter new_iter prefix).
Proof.
  intros H. unfold loop_sim. cbn [ls_diff ls_old ls_new ls_ignore_prefix].
  auto.
Qed.

Lemma old_only_reverse (sf sr : loop_state) (o : git_index_entry)
    (nitem : option git_index_entry) :
  loop_sim cmp sf sr ->
  runs_alike (loop_sim cmp) (old_only sf o nitem) (old_only sr o nitem).
Proof.
  intros (Ho & Hn & Hp & Hsim). unfold old_only.
  rewrite !diff_delta__from_one_flags, Ho, Hn, Hp.
  destruct (reverse_sim_flags _ _ Hsim)
    as (_ & _ & _ & _ & _ & _ & _ & _ & ->).
  rewrite (rs_no_trees cmp _ _ Hsim). cbn [andb].
  apply runs_alike_ret. apply loop_sim_intro.
  apply diff_delta__from_one_reverse; [exact Hsim|].
  unfold single_sided. auto.
Qed.

Lemma new_only_reverse (sf sr : loop_state)
    (oitem : option git_index_entry) (n : git_index_entry) :
  loop_sim cmp sf sr ->
  runs_alike (loop_sim cmp) (new_only sf oitem n) (new_only sr oitem n).
Proof.
  intros (Ho & Hn & Hp & Hsim).
  assert (Hemit : forall st, single_sided st ->
    runs_alike (loop_sim cmp)
      (ret (mk_loop
              (let diff := diff_delta__from_one (ls_diff sf) st n in
               if negb (delta_t_eqb st GIT_DELTA_IGNORED)
                  && flag_set (diff_flags diff)
                       GIT_DIFF_INCLUDE_TYPECHANGE_TREES
                  && entry_is_prefixed diff n oitem
               then
                 patch_last diff
                   (match oitem with
                    | Some oitem => diff_delta__last_for_item diff oitem
                    | None => None
                    end) false
               else diff)
              (ls_old sf) (git_iterator_advance (ls_new sf))
              (ls_ignore_prefix sf)))
      (ret (mk_loop
              (let diff := diff_delta__from_one (ls_diff sr) st n in
               if negb (delta_t_eqb st GIT_DELTA_IGNORED)
                  && flag_set (diff_flags diff)
                       GIT_DIFF_INCLUDE_TYPECHANGE_TREES
                  && entry_is_prefixed diff n oitem
               then
                 patch_last diff
                   (match oitem with
                    | Some oitem => diff_delta__last_for_item diff oitem
                    | None => None
                    end) false
               else diff)
              (ls_old sf) (git_iterator_advance (ls_new sf))
              (ls_ignore_prefix sf)))).
  { intros st Hst. cbv zeta. rewrite !diff_delta__from_one_flags.
    destruct (reverse_sim_flags _ _ Hsim)
      as (_ & _ & _ & _ & _ & _ & _ & _ & ->).
    rewrite (rs_no_trees cmp _ _ Hsim), !andb_false_r. cbn [andb].
    apply runs_alike_ret. apply loop_sim_intro.
    now apply diff_delta__from_one_reverse. }
  unfold new_only. cbv zeta. rewrite Ho, Hn, Hp.
  rewrite (rs_pfxcomp cmp _ _ Hsim).
  rewrite (entry_is_prefixed_reverse _ _ n oitem (rs_pfxcomp cmp _ _ Hsim)).
  destruct (reverse_sim_flags _ _ Hsim)
    as (_ & _ & _ & _ & -> & _).
  unfold single_sided in Hemit.
  destruct (S_ISDIR (e_mode n)) eqn:Hdir.
  - match goal with
    | |- context [if ?c || ?c' then inl _ else _] => destruct (c || c')
    end.
    + apply runs_alike_ret. now apply loop_sim_intro.
    + match goal with
      | |- context [if ?c then GIT_DELTA_IGNORED else GIT_DELTA_UNTRACKED]
        => destruct c
      end; apply Hemit; auto.
  - match goal with
    | |- context [if ?c then GIT_DELTA_IGNORED else GIT_DELTA_UNTRACKED] =>
        destruct c
    end.
    + apply runs_alike_ret. now apply loop_sim_intro.
    + change (delta_t_eqb GIT_DELTA_UNTRACKED GIT_DELTA_IGNORED) with false.
      cbv iota.
      destruct (git_iterator_current_is_ignored (ls_new sf));
        [apply Hemit; auto|].
      destruct (negb (is_workdir (it_type (ls_new sf))));
        apply Hemit; auto.
Qed.

Lemma matched_reverse (sf sr : loop_state) (o n : git_index_entry) :
  loop_sim cmp sf sr ->
  cmp (e_path o) (e_path n) = 0 ->
  runs_alike (loop_sim cmp) (matched sf o n) (matched sr o n).
Proof.
  intros (Ho & Hn & Hp & Hsim) Hpath. unfold matched.
  rewrite Ho, Hn, Hp.
  eapply runs_alike_bind; [now apply maybe_modified_reverse|].
  intros f r Hfr. apply runs_alike_ret. now apply loop_sim_intro.
Qed.

Lemma diff_iteration_reverse (sf sr : loop_state) :
  loop_sim cmp sf sr ->
  runs_alike (loop_sim cmp) (diff_iteration sf) (diff_iteration sr).
Proof.
  intros Hsim. pose proof Hsim as (Ho & Hn & Hp & Hd).
  unfold diff_iteration. rewrite Ho, Hn, (rs_entrycomp cmp _ _ Hd).
  destruct (git_iterator_current (ls_old sf)) as [o|];
    destruct (git_iterator_current (ls_new sf)) as [n|].
  - destruct (Z.ltb_spec (entrycomp (ls_diff sf) o n) 0);
      [now apply old_only_reverse|].
    destruct (Z.gtb_spec (entrycomp (ls_diff sf) o n) 0);
      [now apply new_only_reverse|].
    apply matched_reverse; [exact Hsim|].
    rewrite <- (rs_cmp cmp _ _ Hd). lia.
  - now apply old_only_reverse.
  - now apply new_only_reverse.
  - apply runs_alike_ret. exact Hsim.
Qed.

Lemma diff_loop_reverse (fuel : nat) :
  forall sf sr,
    loop_sim cmp sf sr ->
    runs_alike (loop_sim cmp) (diff_loop fuel sf) (diff_loop fuel sr).
Proof.
  induction fuel as [|fuel IH]; intros sf sr Hsim;
    pose proof Hsim as (Ho & Hn & _); cbn [diff_loop]; rewrite Ho, Hn;
    destruct (git_iterator_current (ls_old sf));
    destruct (git_iterator_current (ls_new sf));
    try (apply runs_alike_ret; exact Hsim);
    try (split; [reflexivity | exact I]);
    (eapply runs_alike_bind; [now apply diff_iteration_reverse|]);
    intros; now apply IH.
Qed.

End Reverse.
(* ================================================================== *)
(** * The reverse option over a whole run *)

Lemma apply_options_without_trees (diff : git_diff_list)
    (o : git_diff_options) :
  flag_set (opt_flags o) GIT_DIFF_INCLUDE_TYPECHANGE_TREES = false ->
  exists old_prefix new_prefix,
    apply_options diff o
    = mk_diff (repo diff)
        (mk_opts (opt_flags o) (Some old_prefix) (Some new_prefix)
           (opt_pathspec o))
        (opt_pathspec o) (deltas diff) (old_src diff) (new_src diff)
        (if flag_set (opt_flags o) GIT_DIFF_IGNORE_FILEMODE
         then Z.land (diffcaps diff) (Z.lnot GIT_DIFFCAPS_TRUST_MODE_BITS)
         else diffcaps diff)
        (strcomp diff) (pfxcomp diff) (entrycomp diff).
Proof.
  intros Htrees. unfold apply_options.
  destruct (flag_set (opt_flags o) GIT_DIFF_IGNORE_FILEMODE);
    unfold diff_flags, set_opts, set_diffcaps;
    cbn [opts opt_flags repo pathspec deltas old_src new_src diffcaps
         strcomp pfxcomp entrycomp opt_pathspec];
    destruct (flag_set (opt_flags o) GIT_DIFF_REVERSE);
    cbn [opts opt_flags repo pathspec deltas old_src new_src diffcaps
         strcomp pfxcomp entrycomp opt_pathspec];
    rewrite Htrees; do 2 eexists; reflexivity.
Qed.

Lemma reverse_flags_lor (f : Z) (j : Z) :
  0 < j ->
  flags_differ_in_reverse f (Z.lor f GIT_DIFF_REVERSE) ->
  flags_differ_in_reverse (Z.lor f (Z.shiftl 1 j))
    (Z.lor (Z.lor f GIT_DIFF_REVERSE) (Z.shiftl 1 j)).
Proof.
  intros Hj (Hf & Hr & Hk). unfold flags_differ_in_reverse, GIT_DIFF_REVERSE
    in *.
  rewrite !flag_set_lor by lia. rewrite Hf.
  destruct (Z.eqb_spec 0 j); [lia|]. repeat split; try reflexivity.
  intros k Hk'. rewrite !flag_set_lor by lia.
  destruct (Z.eqb_spec k 0); [lia|]. now rewrite orb_false_r.
Qed.

Lemma reverse_flags_clear (f : Z) (j : Z) :
  0 < j ->
  flags_differ_in_reverse f (Z.lor f GIT_DIFF_REVERSE) ->
  flags_differ_in_reverse (Z.land f (Z.lnot (Z.shiftl 1 j)))
    (Z.land (Z.lor f GIT_DIFF_REVERSE) (Z.lnot (Z.shiftl 1 j))).
Proof.
  intros Hj (Hf & Hr & Hk). unfold flags_differ_in_reverse, GIT_DIFF_REVERSE
    in *.
  rewrite !flag_set_clear, !flag_set_lor by lia. rewrite Hf.
  destruct (Z.eqb_spec 0 j); [lia|]. repeat split; try reflexivity.
  intros k Hk'. rewrite !flag_set_clear, !flag_set_lor by lia.
  destruct (Z.eqb_spec k 0); [lia|]. now rewrite orb_false_r.
Qed.

Lemma reverse_flags_start (f : Z) :
  flag_set f GIT_DIFF_REVERSE = false ->
  flags_differ_in_reverse f (Z.lor f GIT_DIFF_REVERSE).
Proof.
  intros Hf. unfold flags_differ_in_reverse, GIT_DIFF_REVERSE in *.
  rewrite flag_set_lor by lia. rewrite Hf. repeat split.
  intros k Hk. rewrite flag_set_lor by lia.
  destruct (Z.eqb_spec k 0); [lia|]. now rewrite orb_false_r.
Qed.

(** The option value of the reverse run. *)
Lemma alloc_and_init_reverse (rp : git_repository)
    (old_iter new_iter : git_iterator) (o : git_diff_options) :
  flag_set (opt_flags o) GIT_DIFF_REVERSE = false ->
  flag_set (opt_flags o) GIT_DIFF_INCLUDE_TYPECHANGE_TREES = false ->
  match git_diff_list_alloc rp (Some o),
        git_diff_list_alloc rp
          (Some (set_opt_flags o (Z.lor (opt_flags o) GIT_DIFF_REVERSE)))
  with
  | Some df, Some dr =>
      reverse_sim (negotiated_strcomp old_iter new_iter)
        (diff_list_init_from_iterators df old_iter new_iter)
        (diff_list_init_from_iterators dr old_iter new_iter)
  | None, None => True
  | _, _ => False
  end.
Proof.
  intros Hrev Htrees. unfold git_diff_list_alloc.
  destruct (repo_config rp) as [cfg|]; [|exact I].
  set (d0 := load_config_caps cfg _).
  assert (Hd0 : deltas d0 = [])
    by (unfold d0; now rewrite load_config_caps_deltas).
  pose proof (reverse_flags_start (opt_flags o) Hrev) as Hstart.
  assert (Htrees' :
    flag_set (Z.lor (opt_flags o) GIT_DIFF_REVERSE)
      GIT_DIFF_INCLUDE_TYPECHANGE_TREES = false).
  { destruct Hstart as (_ & _ & Hk).
    rewrite <- Htrees. apply (Hk 16). lia. }
  assert (Hfm :
    flag_set (Z.lor (opt_flags o) GIT_DIFF_REVERSE) GIT_DIFF_IGNORE_FILEMODE
    = flag_set (opt_flags o) GIT_DIFF_IGNORE_FILEMODE).
  { destruct Hstart as (_ & _ & Hk). apply (Hk 17). lia. }
  destruct (apply_options_without_trees d0 o Htrees) as (p1 & p2 & ->).
  destruct (apply_options_without_trees d0
              (set_opt_flags o (Z.lor (opt_flags o) GIT_DIFF_REVERSE))
              Htrees') as (q1 & q2 & ->).
  cbn [set_opt_flags opt_flags opt_pathspec]. rewrite Hfm, Hd0.
  unfold diff_list_init_from_iterators, negotiated_strcomp,
    negotiated_icase.
  destruct (ignore_case old_iter), (ignore_case new_iter);
    cbn [negb andb orb opts opt_flags set_opt_flags repo pathspec deltas
         diffcaps pfxcomp entrycomp];
    (constructor; unfold diff_flags, set_opt_flags;
     cbn [repo pathspec diffcaps pfxcomp entrycomp deltas opts opt_flags];
     match goal with
     | |- flags_differ_in_reverse _ _ =>
         first [ apply (reverse_flags_lor _ 12); [lia | exact Hstart]
               | apply (reverse_flags_clear _ 12); [lia | exact Hstart] ]
     | |- flag_set _ _ = false =>
         unfold GIT_DIFF_DELTAS_ARE_ICASE,
           GIT_DIFF_INCLUDE_TYPECHANGE_TREES in *;
         rewrite ?flag_set_lor, ?flag_set_clear by lia;
         rewrite Htrees; reflexivity
     | |- Forall2 _ _ _ => constructor
     | |- _ => intros; reflexivity
     end).
Qed.

Lemma spool_if_needed_reverse (cmp : string -> string -> Z)
    (df dr : git_diff_list) (it : git_iterator) :
  reverse_sim cmp df dr -> spool_if_needed dr it = spool_if_needed df it.
Proof.
  intros Hsim. unfold spool_if_needed.
  rewrite (rs_entrycomp cmp df dr Hsim).
  destruct (rs_flags cmp df dr Hsim) as (_ & _ & Hk).
  rewrite (Hk 12 ltac:(lia)
           : flag_set (diff_flags dr) GIT_DIFF_DELTAS_ARE_ICASE
             = flag_set (diff_flags df) GIT_DIFF_DELTAS_ARE_ICASE).
  reflexivity.
Qed.

(** C4, as the code has it.  For options without typechange-as-tree
    reporting, the run with the reverse option and the run without it over
    the same two sources make the same provider calls and end alike, and
    their deltas correspond one to one in append order: an ignored or
    untracked delta is identical in both; for every other delta (added,
    deleted, modified, unmodified, typechange) the reverse run has the
    hash (an override hash included), size and mode of the old and new
    sides exchanged, added and deleted swapped and any other status
    kept, and a path equal under the negotiated comparator.  The
    hash-valid flags are not part of the correspondence. *)
Theorem reverse_run_mirrors_forward_run
    (rp : git_repository) (old_iter new_iter : git_iterator)
    (o : git_diff_options) :
  flag_set (opt_flags o) GIT_DIFF_REVERSE = false ->
  flag_set (opt_flags o) GIT_DIFF_INCLUDE_TYPECHANGE_TREES = false ->
  runs_alike
    (fun df dr =>
       Forall2 (reverse_of (negotiated_strcomp old_iter new_iter))
         (deltas df) (deltas dr))
    (diff_from_iterators rp old_iter new_iter (Some o))
    (diff_from_iterators rp old_iter new_iter
       (Some (set_opt_flags o (Z.lor (opt_flags o) GIT_DIFF_REVERSE)))).
Proof.
  intros Hrev Htrees. unfold diff_from_iterators.
  pose proof (alloc_and_init_reverse rp old_iter new_iter o Hrev Htrees)
    as Hinit.
  destruct (git_diff_list_alloc rp (Some o)) as [df|];
    destruct (git_diff_list_alloc rp
                (Some (set_opt_flags o
                         (Z.lor (opt_flags o) GIT_DIFF_REVERSE))))
      as [dr|]; try contradiction.
  - cbv zeta.
    rewrite !(spool_if_needed_reverse _ _ _ _ Hinit).
    eapply runs_alike_bind.
    + apply diff_loop_reverse.
      * apply (po_refl _ (negotiated_strcomp_order old_iter new_iter)).
      * apply loop_sim_intro. exact Hinit.
    + intros sf sr (_ & _ & _ & Hsim). apply runs_alike_ret.
      apply (rs_deltas _ _ _ Hsim).
  - split; [reflexivity | exact I].
Qed.

Lemma reverse_run_mirrors_forward_run_witness :
  runs_alike
    (fun df dr => Forall2 (reverse_of strcmp) (deltas df) (deltas dr))
    (diff_from_iterators Sample.rp
       (Sample.source GIT_ITERATOR_TREE [Sample.file_a_x; Sample.file_link])
       (Sample.source GIT_ITERATOR_TREE [Sample.file_a; Sample.symlink_link])
       (Sample.options 0))
    (diff_from_iterators Sample.rp
       (Sample.source GIT_ITERATOR_TREE [Sample.file_a_x; Sample.file_link])
       (Sample.source GIT_ITERATOR_TREE [Sample.file_a; Sample.symlink_link])
       (Sample.options GIT_DIFF_REVERSE)).
Proof.
  exact (reverse_run_mirrors_forward_run Sample.rp
           (Sample.source GIT_ITERATOR_TREE
              [Sample.file_a_x; Sample.file_link])
           (Sample.source GIT_ITERATOR_TREE
              [Sample.file_a; Sample.symlink_link])
           (mk_opts 0 None None []) eq_refl eq_refl).
Defined.

(** C4, as stated, fails for typechange: with typechange reporting on, the
    file-to-symlink pair of scenario D yields one typechange delta in
    either direction, and the reverse run has its old and new sides
    exchanged; the two are not identical. *)
Lemma typechange_delta_is_exchanged_under_reverse :
  let run flags :=
    Sample.deltas_of
      (diff_from_iterators Sample.rp
         (Sample.source GIT_ITERATOR_TREE [Sample.file_link])
         (Sample.source GIT_ITERATOR_TREE [Sample.symlink_link])
         (Sample.options flags)) in
  let forward :=
    mk_delta (mk_file 1 "link" 0 1 33188) (mk_file 2 "link" 0 1 40960)
      GIT_DELTA_TYPECHANGE in
  let reverse :=
    mk_delta (mk_file 2 "link" 0 1 40960) (mk_file 1 "link" 0 1 33188)
      GIT_DELTA_TYPECHANGE in
  run GIT_DIFF_INCLUDE_TYPECHANGE = Some [forward]
  /\ run (Z.lor GIT_DIFF_INCLUDE_TYPECHANGE GIT_DIFF_REVERSE)
     = Some [reverse]
  /\ forward <> reverse.
Proof. cbv zeta. repeat split; try reflexivity. discriminate. Qed.

(* ================================================================== *)
(** * The delta comparator *)

(** [git_diff_delta__cmp] orders deltas by path and then by status: its
    sign flips when the arguments are exchanged, it is transitive, and it
    is zero exactly for deltas of one path and one status. *)
Theorem git_diff_delta__cmp_orders_by_path_then_status :
  (forall a b, git_diff_delta__cmp b a = - git_diff_delta__cmp a b)
  /\ (forall a b c,
         git_diff_delta__cmp a b <= 0 -> git_diff_delta__cmp b c <= 0 ->
         git_diff_delta__cmp a c <= 0)
  /\ (forall a b,
         git_diff_delta__cmp a b = 0
         <-> delta_path a = delta_path b /\ status a = status b).
Proof.
  unfold git_diff_delta__cmp, delta_path.
  split; [|split; [|intros a b; split]].
  - intros a b. cbv zeta.
    rewrite (strcmp_antisym (f_path (old_file a)) (f_path (old_file b))).
    destruct (Z.eqb_spec (strcmp (f_path (old_file a))
                            (f_path (old_file b))) 0) as [E|E].
    + rewrite E. simpl. lia.
    + destruct (Z.eqb_spec
                  (- strcmp (f_path (old_file a)) (f_path (old_file b))) 0);
        [lia | reflexivity].
  - intros a b c. cbv zeta.
    pose proof (strcmp_trans (f_path (old_file a)) (f_path (old_file b))
                  (f_path (old_file c))) as Ht.
    destruct (Z.eqb_spec (strcmp (f_path (old_file a))
                            (f_path (old_file b))) 0) as [E1|E1];
      destruct (Z.eqb_spec (strcmp (f_path (old_file b))
                              (f_path (old_file c))) 0) as [E2|E2];
      cbn [negb]; intros H1 H2.
    + apply strcmp_eq in E1. apply strcmp_eq in E2.
      rewrite E1, E2, strcmp_refl. simpl. lia.
    + apply strcmp_eq in E1. rewrite E1.
      destruct (Z.eqb_spec (strcmp (f_path (old_file b))
                              (f_path (old_file c))) 0); [lia|exact H2].
    + apply strcmp_eq in E2. rewrite <- E2.
      destruct (Z.eqb_spec (strcmp (f_path (old_file a))
                              (f_path (old_file b))) 0); [lia|exact H1].
    + assert (Hac : strcmp (f_path (old_file a)) (f_path (old_file c)) <= 0)
        by (apply Ht; lia).
      destruct (Z.eqb_spec (strcmp (f_path (old_file a))
                              (f_path (old_file c))) 0) as [E3|E3];
        [|exact Hac].
      exfalso. apply strcmp_eq in E3. rewrite <- E3 in H2.
      rewrite (strcmp_antisym (f_path (old_file a))) in H2. lia.
  - cbv zeta.
    destruct (Z.eqb_spec (strcmp (f_path (old_file a))
                            (f_path (old_file b))) 0) as [E|E];
      cbn [negb]; intros H; [|contradiction].
    split; [now apply strcmp_eq|].
    destruct (status a), (status b); simpl in H; try lia; reflexivity.
  - intros [Hp Hs]. rewrite Hp, Hs, strcmp_refl. simpl. lia.
Qed.

(* ================================================================== *)
(** * Prefixes *)

Lemma get_length_append (a b : string) :
  String.get (String.length a) (String.append a b) = String.get 0 b.
Proof. induction a as [|c a IH]; [reflexivity | exact IH]. Qed.

Lemma last_char_append (a : string) (c : ascii) :
  last_char (String.append a (String c EmptyString)) = Some c.
Proof.
  unfold last_char.
  assert (Hlen : String.length (String.append a (String c EmptyString))
                 = S (String.length a))
    by (induction a as [|x a IH]; simpl; congruence).
  rewrite Hlen. apply (get_length_append a (String c EmptyString)).
Qed.

Lemma diff_strdup_prefix_ends_in_slash_aux (prefix : string) :
  (prefix = EmptyString -> diff_strdup_prefix prefix = EmptyString)
  /\ (prefix <> EmptyString ->
      ends_with_slash (diff_strdup_prefix prefix) = true).
Proof.
  unfold diff_strdup_prefix, ends_with_slash.
  destruct prefix as [|c s]; [split; [reflexivity | congruence]|].
  change (0 <? Z.of_nat (String.length (String c s))) with true.
  cbn [andb]. split; [discriminate|]. intros _.
  destruct (is_slash (last_char (String c s))) eqn:Hs; cbn [negb];
    [exact Hs|].
  now rewrite (last_char_append (String c s) "/"%char).
Qed.

(** [diff_strdup_prefix] only ever appends one slash: an empty prefix
    stays empty, any other result ends in a slash, and a prefix that
    went through it is left alone by a second pass. *)
Theorem diff_strdup_prefix_ends_in_slash (prefix : string) :
  let p := diff_strdup_prefix prefix in
  (p = prefix \/ p = String.append prefix "/")
  /\ (prefix = EmptyString -> p = EmptyString)
  /\ (prefix <> EmptyString -> ends_with_slash p = true)
  /\ diff_strdup_prefix p = p.
Proof.
  cbv zeta. unfold diff_strdup_prefix, ends_with_slash.
  destruct prefix as [|c s]; [cbn; repeat split; auto; congruence|].
  change (0 <? Z.of_nat (String.length (String c s))) with true.
  cbn [andb].
  destruct (is_slash (last_char (String c s))) eqn:Hs; cbn [negb].
  - split; [now left|]. split; [discriminate|]. split; [auto|].
    cbn [String.length]. now rewrite Hs.
  - pose proof (last_char_append (String c s) "/"%char) as Hl.
    split; [now right|]. split; [discriminate|]. split.
    + intros _. now rewrite Hl.
    + rewrite Hl. cbn [is_slash negb]. rewrite andb_false_r. reflexivity.
Qed.




(* ================================================================== *)
(** * Allocation and the negotiation of case *)

Lemma apply_options_flags (diff : git_diff_list) (o : git_diff_options) :
  diff_flags (apply_options diff o)
  = if flag_set (opt_flags o) GIT_DIFF_INCLUDE_TYPECHANGE_TREES
    then Z.lor (opt_flags o) GIT_DIFF_INCLUDE_TYPECHANGE
    else opt_flags o.
Proof.
  unfold apply_options.
  destruct (flag_set (opt_flags o) GIT_DIFF_IGNORE_FILEMODE);
    unfold diff_flags, set_opts, set_diffcaps;
    cbn [opts opt_flags];
    destruct (flag_set (opt_flags o) GIT_DIFF_REVERSE);
    cbn [opts opt_flags];
    destruct (flag_set (opt_flags o) GIT_DIFF_INCLUDE_TYPECHANGE_TREES);
    reflexivity.
Qed.

Lemma apply_options_prefixes (diff : git_diff_list) (o : git_diff_options) :
  let a := normalized_prefix (opt_old_prefix o) DIFF_OLD_PREFIX_DEFAULT in
  let b := normalized_prefix (opt_new_prefix o) DIFF_NEW_PREFIX_DEFAULT in
  opt_old_prefix (opts (apply_options diff o))
  = Some (if flag_set (opt_flags o) GIT_DIFF_REVERSE then b else a)
  /\ opt_new_prefix (opts (apply_options diff o))
     = Some (if flag_set (opt_flags o) GIT_DIFF_REVERSE then a else b).
Proof.
  unfold apply_options, normalized_prefix.
  destruct (flag_set (opt_flags o) GIT_DIFF_IGNORE_FILEMODE);
    unfold diff_flags, set_opts, set_diffcaps;
    cbn [opts opt_flags];
    destruct (flag_set (opt_flags o) GIT_DIFF_REVERSE);
    cbn [opts opt_flags];
    destruct (flag_set (opt_flags o) GIT_DIFF_INCLUDE_TYPECHANGE_TREES);
    split; reflexivity.
Qed.

Lemma load_config_caps_flags (cfg : git_config) (diff : git_diff_list) :
  diff_flags (load_config_caps cfg diff) = diff_flags diff.
Proof.
  unfold load_config_caps.
  repeat match goal with
         | |- context [if ?c then _ else _] => destruct c
         end; reflexivity.
Qed.

Lemma git_diff_list_alloc_flags (rp : git_repository)
    (options : option git_diff_options) (diff : git_diff_list) :
  git_diff_list_alloc rp options = Some diff ->
  diff_flags diff
  = if flag_set (requested_flags options) GIT_DIFF_INCLUDE_TYPECHANGE_TREES
    then Z.lor (requested_flags options) GIT_DIFF_INCLUDE_TYPECHANGE
    else requested_flags options.
Proof.
  unfold git_diff_list_alloc. destruct (repo_config rp) as [cfg|];
    [|discriminate].
  destruct options as [o|]; intros H; injection H as <-.
  - apply apply_options_flags.
  - rewrite load_config_caps_flags. reflexivity.
Qed.

(** Allocation yields no diff list exactly when the repository has no
    configuration store; the list it yields otherwise has the typechange
    flag on when typechange for trees is asked for, and every other
    option flag as the caller gave it. *)
Theorem typechange_trees_implies_typechange
    (rp : git_repository) (options : option git_diff_options) :
  match git_diff_list_alloc rp options with
  | None => repo_config rp = None
  | Some diff =>
      repo_config rp <> None
      /\ flag_set (diff_flags diff) GIT_DIFF_INCLUDE_TYPECHANGE
      = flag_set (requested_flags options) GIT_DIFF_INCLUDE_TYPECHANGE
        || flag_set (requested_flags options)
             GIT_DIFF_INCLUDE_TYPECHANGE_TREES
      /\ forall k, 0 <= k -> k <> 15 ->
           flag_set (diff_flags diff) (Z.shiftl 1 k)
           = flag_set (requested_flags options) (Z.shiftl 1 k)
  end.
Proof.
  destruct (git_diff_list_alloc rp options) as [diff|] eqn:Halloc.
  - split.
    { unfold git_diff_list_alloc in Halloc.
      destruct (repo_config rp); discriminate. }
    rewrite (git_diff_list_alloc_flags rp options diff Halloc).
    unfold GIT_DIFF_INCLUDE_TYPECHANGE, GIT_DIFF_INCLUDE_TYPECHANGE_TREES.
    destruct (flag_set (requested_flags options) (Z.shiftl 1 16)) eqn:Ht.
    + split.
      * rewrite flag_set_lor by lia. rewrite Z.eqb_refl. reflexivity.
      * intros k Hk Hne. rewrite flag_set_lor by lia.
        destruct (Z.eqb_spec k 15); [lia|]. apply orb_false_r.
    + split; [now rewrite orb_false_r | reflexivity].
  - unfold git_diff_list_alloc in Halloc.
    destruct (repo_config rp); [|reflexivity].
    destruct options; discriminate.
Qed.

(** In a repository whose configuration store can be opened, allocation
    yields a diff list.  Called with options, it normalises the two
    prefixes (the caller's or the defaults [a/] and [b/], each ending in
    a slash unless empty) and exchanges them when the reverse flag is
    set; called without options, it stores no prefix at all. *)
Theorem reverse_exchanges_prefixes
    (rp : git_repository) (options : option git_diff_options) :
  repo_config rp <> None ->
  exists diff,
    git_diff_list_alloc rp options = Some diff
    /\ match options with
       | None =>
           opt_old_prefix (opts diff) = None
           /\ opt_new_prefix (opts diff) = None
       | Some o =>
           let a :=
             normalized_prefix (opt_old_prefix o) DIFF_OLD_PREFIX_DEFAULT in
           let b :=
             normalized_prefix (opt_new_prefix o) DIFF_NEW_PREFIX_DEFAULT in
           (opt_old_prefix o = None -> a = "a/"%string)
           /\ (opt_new_prefix o = None -> b = "b/"%string)
           /\ (a = EmptyString \/ ends_with_slash a = true)
           /\ (b = EmptyString \/ ends_with_slash b = true)
           /\ opt_old_prefix (opts diff)
              = Some (if flag_set (opt_flags o) GIT_DIFF_REVERSE
                      then b else a)
           /\ opt_new_prefix (opts diff)
              = Some (if flag_set (opt_flags o) GIT_DIFF_REVERSE
                      then a else b)
       end.
Proof.
  intros Hcfg. unfold git_diff_list_alloc.
  destruct (repo_config rp) as [cfg|]; [|congruence].
  destruct options as [o|]; eexists; (split; [reflexivity|]).
  2:{ unfold load_config_caps.
      repeat match goal with
             | |- context [if ?c then _ else _] => destruct c
             end; split; reflexivity. }
  cbv zeta.
  destruct (apply_options_prefixes
              (load_config_caps cfg
                 (mk_diff rp (mk_opts 0 None None []) [] []
                    GIT_ITERATOR_EMPTY GIT_ITERATOR_EMPTY 0 null_comparator
                    null_comparator null_comparator)) o) as [Ho Hn].
  assert (Hslash : forall given default,
    normalized_prefix given default = EmptyString
    \/ ends_with_slash (normalized_prefix given default) = true).
  { intros given default. unfold normalized_prefix.
    destruct (diff_strdup_prefix_ends_in_slash_aux
                (match given with Some p => p | None => default end))
      as [He Hs].
    destruct (match given with Some p => p | None => default end);
      [left; now apply He | right; apply Hs; discriminate]. }
  split; [now intros -> |]. split; [now intros -> |].
  split; [apply Hslash|]. split; [apply Hslash|]. now split.
Qed.

Lemma reverse_exchanges_prefixes_witness :
  let o := mk_opts GIT_DIFF_REVERSE (Some "old"%string) None [] in
  exists diff,
    git_diff_list_alloc Sample.rp (Some o) = Some diff
    /\ opt_old_prefix (opts diff) = Some "b/"%string
    /\ opt_new_prefix (opts diff) = Some "old/"%string.
Proof.
  cbv zeta.
  destruct (reverse_exchanges_prefixes Sample.rp
              (Some (mk_opts GIT_DIFF_REVERSE (Some "old"%string) None []))
              ltac:(discriminate))
    as (diff & Halloc & _ & _ & _ & _ & Ho & Hn).
  exists diff. split; [exact Halloc|]. split; [exact Ho | exact Hn].
Defined.

Lemma strlower_length (s : string) :
  String.length (strlower s) = String.length s.
Proof. induction s as [|c s IH]; simpl; congruence. Qed.

Lemma git__prefixcmp_refl (s : string) : git__prefixcmp s s = 0.
Proof.
  induction s as [|c s IH]; [reflexivity|]. simpl.
  now rewrite Ascii.eqb_refl.
Qed.

(** [diff_list_init_from_iterators] settles on the case-insensitive
    comparison exactly when one of the two sources ignores case, records
    the kinds of the sources, touches no other option flag, and installs
    comparators that agree with one another: entries are compared by
    path under the string comparator, which is a total preorder, and
    paths it takes for equal are prefixes of one another. *)
Theorem icase_negotiation_installs_coherent_comparators
    (diff : git_diff_list) (old_iter new_iter : git_iterator) :
  let diff' := diff_list_init_from_iterators diff old_iter new_iter in
  flag_set (diff_flags diff') GIT_DIFF_DELTAS_ARE_ICASE
  = ignore_case old_iter || ignore_case new_iter
  /\ (forall k, 0 <= k -> k <> 12 ->
        flag_set (diff_flags diff') (Z.shiftl 1 k)
        = flag_set (diff_flags diff) (Z.shiftl 1 k))
  /\ old_src diff' = it_type old_iter
  /\ new_src diff' = it_type new_iter
  /\ deltas diff' = deltas diff
  /\ path_order (strcomp diff')
  /\ (forall a b, entrycomp diff' a b = strcomp diff' (e_path a) (e_path b))
  /\ (forall a b, strcomp diff' a b = 0 -> pfxcomp diff' a b = 0).
Proof.
  cbv zeta. unfold diff_list_init_from_iterators, diff_flags,
    GIT_DIFF_DELTAS_ARE_ICASE.
  destruct (ignore_case old_iter), (ignore_case new_iter);
    cbn [negb andb orb deltas opts opt_flags set_opt_flags entrycomp strcomp
         pfxcomp old_src new_src];
    (split; [rewrite ?flag_set_lor, ?flag_set_clear by lia;
             rewrite ?orb_true_r, ?andb_false_r; reflexivity|]);
    (split; [intros k Hk Hne;
             rewrite ?flag_set_lor, ?flag_set_clear by lia;
             destruct (Z.eqb_spec k 12); [lia|];
             rewrite ?orb_false_r, ?andb_true_r; reflexivity|]);
    (split; [reflexivity|]); (split; [reflexivity|]);
    (split; [reflexivity|]);
    (split; [first [apply strcasecmp_order | apply strcmp_order]|]);
    (split; [reflexivity|]); intros a b H.
  1-3: unfold strcasecmp in H; apply strcmp_eq in H;
       unfold git__prefixcmp_icase; rewrite H; apply git__prefixcmp_refl.
  apply strcmp_eq in H. rewrite H. apply git__prefixcmp_refl.
Qed.

(* ================================================================== *)
(** * The passes of the driver, for any order of the sources *)

Lemma later_in_refl (it : git_iterator) : later_in it it.
Proof. repeat split. now exists []. Qed.

Lemma later_in_trans (a b c : git_iterator) :
  later_in a b -> later_in b c -> later_in a c.
Proof.
  intros (T1 & C1 & p1 & H1) (T2 & C2 & p2 & H2).
  repeat split; try congruence.
  exists (p1 ++ p2). rewrite H1, H2, app_assoc. reflexivity.
Qed.

Lemma later_in_advance (it : git_iterator) :
  later_in it (git_iterator_advance it).
Proof.
  destruct (it_items it) as [|i l] eqn:Hitems.
  - unfold git_iterator_advance. rewrite Hitems. apply later_in_refl.
  - destruct (git_iterator_advance_suffix it i l Hitems)
      as (Ht & Hc & pre & Hpre).
    repeat split; auto. exists (i :: pre). rewrite Hitems, Hpre.
    reflexivity.
Qed.

Lemma later_in_advance_into_directory (it : git_iterator) :
  later_in it (git_iterator_advance_into_directory it).
Proof.
  unfold git_iterator_advance_into_directory.
  destruct (it_items it) as [|i l] eqn:Hitems; [apply later_in_refl|].
  destruct (is_workdir (it_type it) && S_ISDIR (e_mode (si_entry i)));
    [|apply later_in_refl].
  repeat split. exists [i]. rewrite Hitems. reflexivity.
Qed.

Lemma later_in_can_descend (it0 it : git_iterator) :
  later_in it0 it -> can_descend it0 -> can_descend it.
Proof.
  intros (Ht & _ & pre & Hpre). now apply can_descend_suffix with pre.
Qed.

Lemma later_in_length (it0 it : git_iterator) :
  later_in it0 it ->
  (List.length (it_items it) <= List.length (it_items it0))%nat.
Proof. intros (_ & _ & pre & ->). rewrite length_app. lia. Qed.

Lemma advance_shortens (it : git_iterator) :
  it_items it <> [] ->
  (List.length (it_items (git_iterator_advance it))
   < List.length (it_items it))%nat.
Proof.
  destruct (it_items it) as [|i l] eqn:Hitems; [congruence|]. intros _.
  destruct (git_iterator_advance_suffix it i l Hitems)
    as (_ & _ & pre & Hpre).
  apply suffix_length in Hpre. simpl. lia.
Qed.

(** The three branches of a pass, with what the comparison told. *)
Lemma diff_iteration_cases (s : loop_state) (Q : M loop_state -> Prop) :
  (forall o,
      git_iterator_current (ls_old s) = Some o ->
      match git_iterator_current (ls_new s) with
      | None => True
      | Some n => entrycomp (ls_diff s) o n < 0
      end ->
      Q (old_only s o (git_iterator_current (ls_new s)))) ->
  (forall n,
      git_iterator_current (ls_new s) = Some n ->
      match git_iterator_current (ls_old s) with
      | None => True
      | Some o => entrycomp (ls_diff s) o n > 0
      end ->
      Q (new_only s (git_iterator_current (ls_old s)) n)) ->
  (forall o n,
      git_iterator_current (ls_old s) = Some o ->
      git_iterator_current (ls_new s) = Some n ->
      entrycomp (ls_diff s) o n = 0 ->
      Q (matched s o n)) ->
  (it_items (ls_old s) <> [] \/ it_items (ls_new s) <> []) ->
  Q (diff_iteration s).
Proof.
  unfold diff_iteration.
  destruct (git_iterator_current (ls_old s)) as [o|] eqn:Ho;
    destruct (git_iterator_current (ls_new s)) as [n|] eqn:Hn;
    intros Hold Hnew Hboth Hsome.
  - destruct (Z.ltb_spec (entrycomp (ls_diff s) o n) 0) as [Hlt|Hge].
    + exact (Hold o eq_refl Hlt).
    + destruct (Z.gtb_spec (entrycomp (ls_diff s) o n) 0) as [Hgt|Hle].
      * apply (Hnew n eq_refl). lia.
      * apply (Hboth o n eq_refl eq_refl). lia.
  - exact (Hold o eq_refl I).
  - exact (Hnew n eq_refl I).
  - exfalso. unfold git_iterator_current in Ho, Hn.
    destruct (it_items (ls_old s)); [|discriminate].
    destruct (it_items (ls_new s)); [|discriminate].
    destruct Hsome; congruence.
Qed.

Lemma current_nonempty (it : git_iterator) (e : git_index_entry) :
  git_iterator_current it = Some e -> it_items it <> [].
Proof.
  unfold git_iterator_current. destruct (it_items it); congruence.
Qed.

(** A pass consumes a front part of one listing at least. *)
Lemma diff_iteration_shortens (s : loop_state) :
  can_descend (ls_new s) ->
  (it_items (ls_old s) <> [] \/ it_items (ls_new s) <> []) ->
  finishes_with (diff_iteration s)
    (fun s' => later_in (ls_old s) (ls_old s')
               /\ later_in (ls_new s) (ls_new s')
               /\ (loop_measure s' < loop_measure s)%nat).
Proof.
  intros Hdesc Hsome. apply diff_iteration_cases; [| | |exact Hsome].
  - intros o Ho _.
    destruct (old_only_shape s o (git_iterator_current (ls_new s)))
      as (diff' & -> & _).
    apply finishes_ret. cbn [ls_old ls_new].
    split; [apply later_in_advance|]. split; [apply later_in_refl|].
    unfold loop_measure, loop_fuel. cbn [ls_old ls_new].
    pose proof (advance_shortens (ls_old s) (current_nonempty _ _ Ho)).
    lia.
  - intros n Hn _.
    destruct (new_only_shape s (git_iterator_current (ls_old s)) n)
      as (diff' & new' & prefix' & -> & _ & Hnew').
    apply finishes_ret. cbn [ls_old ls_new].
    split; [apply later_in_refl|].
    unfold loop_measure, loop_fuel. cbn [ls_old ls_new].
    destruct Hnew' as [-> | [Hdir ->]].
    + split; [apply later_in_advance|].
      pose proof (advance_shortens (ls_new s) (current_nonempty _ _ Hn)).
      lia.
    + split; [apply later_in_advance_into_directory|].
      unfold git_iterator_current in Hn.
      destruct (it_items (ls_new s)) as [|i l] eqn:Hitems; [discriminate|].
      injection Hn as <-.
      rewrite (git_iterator_advance_into_directory_suffix
                 (ls_new s) i l Hitems Hdir Hdesc).
      cbn [it_items set_items List.length]. lia.
  - intros o n Ho Hn _.
    eapply finishes_weaken; [|apply matched_shape].
    intros s' (diff' & -> & _). cbn [ls_old ls_new].
    split; [apply later_in_advance|]. split; [apply later_in_advance|].
    unfold loop_measure, loop_fuel. cbn [ls_old ls_new].
    pose proof (advance_shortens (ls_old s) (current_nonempty _ _ Ho)).
    pose proof (advance_shortens (ls_new s) (current_nonempty _ _ Hn)).
    lia.
Qed.

Lemma finishes_conj {A} (m : M A) (P Q : A -> Prop) :
  finishes_with m P -> finishes_with m Q ->
  finishes_with m (fun a => P a /\ Q a).
Proof. unfold finishes_with. destruct (snd m); tauto. Qed.

Lemma returns_ret {A} (a : A) (P : A -> Prop) : P a -> returns (ret a) P.
Proof. intros H. now exists a. Qed.

Lemma returns_bind {A B} (m : M A) (k : A -> M B) (P : B -> Prop) :
  returns m (fun a => returns (k a) P) -> returns (bind m k) P.
Proof.
  intros (a & -> & b & Hk & Hb). exists b. split; [|exact Hb].
  rewrite bind_ret_l. exact Hk.
Qed.

Lemma returns_weaken {A} (m : M A) (P Q : A -> Prop) :
  (forall a, P a -> Q a) -> returns m P -> returns m Q.
Proof. intros H (a & Hm & Ha). exists a. auto. Qed.

Lemma returns_conj {A} (m : M A) (P Q : A -> Prop) :
  returns m P -> finishes_with m Q -> returns m (fun a => P a /\ Q a).
Proof.
  intros (a & -> & Ha) Hq. exists a. repeat split; auto.
Qed.

Lemma returns_finishes {A} (m : M A) (P : A -> Prop) :
  returns m P -> finishes_with m P.
Proof. intros (a & -> & Ha). exact Ha. Qed.

Lemma returns_quietly {A} (m : M A) (P : A -> Prop) :
  returns m P -> quietly m P.
Proof. intros (a & -> & Ha). split; [reflexivity | exact Ha]. Qed.

(** Without a configuration store a run fails at once. *)
Lemma run_without_configuration (rp : git_repository)
    (old_iter new_iter : git_iterator) (options : option git_diff_options) :
  repo_config rp = None ->
  diff_from_iterators rp old_iter new_iter options = fail.
Proof.
  intros Hcfg. unfold diff_from_iterators, git_diff_list_alloc.
  now rewrite Hcfg.
Qed.

(** A run that returns whenever the configuration store can be opened
    is a quiet one. *)
Lemma quietly_run (rp : git_repository) (old_iter new_iter : git_iterator)
    (options : option git_diff_options) (P : git_diff_list -> Prop) :
  (repo_config rp <> None ->
   returns (diff_from_iterators rp old_iter new_iter options) P) ->
  quietly (diff_from_iterators rp old_iter new_iter options) P.
Proof.
  intros Hrun. destruct (repo_config rp) as [cfg|] eqn:Hcfg.
  - apply returns_quietly, Hrun. discriminate.
  - rewrite run_without_configuration by exact Hcfg.
    split; [reflexivity | exact I].
Qed.

Section Passes.

(** How a call is required to end ([finishes_with] or [returns]). *)
Variable W : M loop_state -> (loop_state -> Prop) -> Prop.
Hypothesis W_ret : forall s (P : loop_state -> Prop), P s -> W (ret s) P.
Hypothesis W_bind :
  forall m k (P : loop_state -> Prop),
    W m (fun a => W (k a) P) -> W (bind m k) P.
Hypothesis W_weaken :
  forall m (P Q : loop_state -> Prop),
    (forall a, P a -> Q a) -> W m P -> W m Q.
Hypothesis W_conj :
  forall m (P Q : loop_state -> Prop),
    W m P -> finishes_with m Q -> W m (fun a => P a /\ Q a).

(** What every pass keeps, from the state [s0] the loop starts in. *)
Variable Inv : loop_state -> Prop.
Variable s0 : loop_state.
Hypothesis Inv_pass :
  forall s,
    later_in (ls_old s0) (ls_old s) -> later_in (ls_new s0) (ls_new s) ->
    Inv s ->
    (it_items (ls_old s) <> [] \/ it_items (ls_new s) <> []) ->
    W (diff_iteration s) Inv.

Lemma diff_loop_passes (fuel : nat) :
  forall s,
    later_in (ls_old s0) (ls_old s) -> later_in (ls_new s0) (ls_new s) ->
    Inv s -> can_descend (ls_new s) -> (loop_measure s <= fuel)%nat ->
    W (diff_loop fuel s)
      (fun s' => Inv s' /\ it_items (ls_old s') = []
                 /\ it_items (ls_new s') = []).
Proof.
  induction fuel as [|fuel IH]; intros s Lo Ln Hinv Hdesc Hfuel.
  - unfold loop_measure, loop_fuel in Hfuel.
    destruct (it_items (ls_old s)) eqn:Ho; [|simpl in Hfuel; lia].
    destruct (it_items (ls_new s)) eqn:Hn; [|simpl in Hfuel; lia].
    simpl. unfold git_iterator_current. rewrite Ho, Hn.
    now apply W_ret.
  - cbn [diff_loop]. unfold git_iterator_current.
    assert (Hstep :
      (it_items (ls_old s) <> [] \/ it_items (ls_new s) <> []) ->
      W (s' <- diff_iteration s ;; diff_loop fuel s')
        (fun s' => Inv s' /\ it_items (ls_old s') = []
                   /\ it_items (ls_new s') = [])).
    { intros Hsome. apply W_bind.
      eapply W_weaken;
        [|apply W_conj;
          [now apply Inv_pass | now apply diff_iteration_shortens]].
      cbv beta. intros s' (Hinv' & Lo' & Ln' & Hlt).
      apply IH; auto.
      - now apply later_in_trans with (ls_old s).
      - now apply later_in_trans with (ls_new s).
      - now apply later_in_can_descend with (ls_new s).
      - lia. }
    destruct (it_items (ls_old s)) as [|io lo] eqn:Ho;
      destruct (it_items (ls_new s)) as [|i_n ln] eqn:Hn.
    + now apply W_ret.
    + apply Hstep. right. discriminate.
    + apply Hstep. left. discriminate.
    + apply Hstep. left. discriminate.
Qed.

End Passes.

(** How [diff_from_iterators] starts its loop. *)
Lemma diff_from_iterators_start (rp : git_repository)
    (old_iter new_iter : git_iterator) (options : option git_diff_options)
    (diff : git_diff_list) :
  git_diff_list_alloc rp options = Some diff ->
  let diff0 := diff_list_init_from_iterators diff old_iter new_iter in
  let old_read := listing_as_read old_iter new_iter old_iter in
  let new_read := listing_as_read old_iter new_iter new_iter in
  deltas diff0 = []
  /\ diff_from_iterators rp old_iter new_iter options
     = (s <- diff_loop (loop_fuel old_read new_read)
               (mk_loop diff0 old_read new_read EmptyString) ;;
        ret (ls_diff s)).
Proof.
  intros Halloc. cbv zeta. unfold diff_from_iterators. rewrite Halloc.
  apply git_diff_list_alloc_deltas in Halloc.
  destruct (diff_list_init_from_iterators_facts diff old_iter new_iter)
    as (Hdeltas & Hicase & Hecmp & Hicmp).
  split; [congruence|].
  set (diff0 := diff_list_init_from_iterators diff old_iter new_iter) in *.
  assert (Hread : forall it,
    spool_if_needed diff0 it = listing_as_read old_iter new_iter it).
  { intros it. unfold spool_if_needed, listing_as_read. rewrite Hicase.
    destruct (negotiated_icase old_iter new_iter) eqn:Hic; [|reflexivity].
    rewrite (Hicmp eq_refl). reflexivity. }
  cbv zeta. rewrite !Hread. reflexivity.
Qed.

(* ================================================================== *)
(** * Where the deltas of a run come from *)

Lemma delta_t_eqb_eq (a b : git_delta_t) : delta_t_eqb a b = true <-> a = b.
Proof.
  unfold delta_t_eqb. rewrite Z.eqb_eq.
  split; [|now intros ->]. destruct a, b; simpl; intros H; try lia;
    reflexivity.
Qed.

(** The continue branches of [new_only] leave the diff list alone; the
    others emit for a status that is added as soon as the new source is
    not a working directory and the entry is not a directory. *)
Lemma new_only_cases (s : loop_state) (oitem : option git_index_entry)
    (n : git_index_entry) :
  (exists new' prefix',
      new_only s oitem n
      = ret (mk_loop (ls_diff s) (ls_old s) new' prefix'))
  \/ (exists st,
         (st = GIT_DELTA_UNTRACKED \/ st = GIT_DELTA_IGNORED
          \/ st = GIT_DELTA_ADDED)
         /\ (S_ISDIR (e_mode n) = false ->
             is_workdir (it_type (ls_new s)) = false ->
             st = GIT_DELTA_ADDED)
         /\ new_only s oitem n
            = ret (mk_loop (new_only_emit s oitem n st) (ls_old s)
                     (git_iterator_advance (ls_new s))
                     (ls_ignore_prefix s))).
Proof.
  unfold new_only. cbv zeta.
  destruct (S_ISDIR (e_mode n)) eqn:Hdir.
  - match goal with
    | |- context [if ?c || ?c' then inl _ else _] => destruct (c || c')
    end; [left; do 2 eexists; reflexivity|].
    right.
    match goal with
    | |- context [if ?c then GIT_DELTA_IGNORED else GIT_DELTA_UNTRACKED] =>
        destruct c
    end; eexists; (split; [|split; [discriminate | reflexivity]]); auto.
  - match goal with
    | |- context [if ?c then GIT_DELTA_IGNORED else GIT_DELTA_UNTRACKED] =>
        destruct c
    end; [left; do 2 eexists; reflexivity|].
    change (delta_t_eqb GIT_DELTA_UNTRACKED GIT_DELTA_IGNORED) with false.
    cbv iota. right.
    unfold git_iterator_current_is_ignored.
    destruct (is_workdir (it_type (ls_new s))) eqn:Hwd.
    + destruct (match it_items (ls_new s) with
                | [] => false
                | i :: _ => true && si_ignored i
                end);
        eexists; (split; [|split; [discriminate | reflexivity]]); auto.
    + assert (Hno : match it_items (ls_new s) with
                    | [] => false
                    | i :: _ => false && si_ignored i
                    end = false)
        by (destruct (it_items (ls_new s)); reflexivity).
      rewrite Hno. cbn [negb]. eexists.
      split; [|split; [reflexivity | reflexivity]]. auto.
Qed.

Section Built.

Variable allowed : git_delta_t -> Prop.
Variable diff0 : git_diff_list.

Lemma built_list_refl : deltas diff0 = [] -> built_list allowed diff0 diff0.
Proof.
  intros H. split; [destruct diff0; reflexivity|]. rewrite H. constructor.
Qed.

Lemma built_list_settings (diff : git_diff_list) :
  built_list allowed diff0 diff ->
  diff_flags diff = diff_flags diff0
  /\ (forall path, passes_pathspec diff path = passes_pathspec diff0 path)
  /\ (forall st e, delta_from_one diff st e = delta_from_one diff0 st e)
  /\ (forall st o om n nm noid,
         delta_from_two diff st o om n nm noid
         = delta_from_two diff0 st o om n nm noid).
Proof.
  intros [-> _]. repeat split.
Qed.

Lemma built_list_insert (diff : git_diff_list) (d : git_diff_delta) :
  built_list allowed diff0 diff -> built_delta allowed diff0 d ->
  built_list allowed diff0 (git_vector_insert diff d).
Proof.
  intros [Heq Hall] Hd. unfold git_vector_insert. split.
  - rewrite Heq at 1. reflexivity.
  - cbn [deltas set_deltas]. apply Forall_app. split; [exact Hall|].
    constructor; [exact Hd | constructor].
Qed.

Lemma built_from_one (diff : git_diff_list) (st : git_delta_t)
    (e : git_index_entry) :
  built_list allowed diff0 diff -> allowed st ->
  built_list allowed diff0 (diff_delta__from_one diff st e).
Proof.
  intros Hb Hst.
  destruct (built_list_settings diff Hb) as (Hf & Hp & H1 & _).
  unfold diff_delta__from_one. fold (passes_pathspec diff (e_path e)).
  rewrite Hf, Hp, H1.
  destruct (delta_t_eqb st GIT_DELTA_IGNORED
            && negb (flag_set (diff_flags diff0) GIT_DIFF_INCLUDE_IGNORED))
    eqn:Hi; [exact Hb|].
  destruct (delta_t_eqb st GIT_DELTA_UNTRACKED
            && negb (flag_set (diff_flags diff0) GIT_DIFF_INCLUDE_UNTRACKED))
    eqn:Hu; [exact Hb|].
  destruct (passes_pathspec diff0 (e_path e)) eqn:Hps; [|exact Hb].
  cbn [negb]. apply built_list_insert; [exact Hb|].
  constructor; auto.
  - intros ->. change (delta_t_eqb GIT_DELTA_IGNORED GIT_DELTA_IGNORED)
      with true in Hi.
    destruct (flag_set (diff_flags diff0) GIT_DIFF_INCLUDE_IGNORED);
      [reflexivity | discriminate].
  - intros ->. change (delta_t_eqb GIT_DELTA_UNTRACKED GIT_DELTA_UNTRACKED)
      with true in Hu.
    destruct (flag_set (diff_flags diff0) GIT_DIFF_INCLUDE_UNTRACKED);
      [reflexivity | discriminate].
Qed.

Lemma built_from_two (diff : git_diff_list) (st : git_delta_t)
    (o n : git_index_entry) (om nm : Z) (noid : option git_oid) :
  built_list allowed diff0 diff -> two_sided st ->
  (st = GIT_DELTA_TYPECHANGE ->
   flag_set (diff_flags diff0) GIT_DIFF_INCLUDE_TYPECHANGE = true) ->
  passes_pathspec diff0 (e_path o) = true ->
  built_list allowed diff0 (diff_delta__from_two diff st o om n nm noid).
Proof.
  intros Hb Hst Htc Hps.
  destruct (built_list_settings diff Hb) as (Hf & _ & _ & H2).
  unfold diff_delta__from_two. rewrite Hf, H2.
  destruct (delta_t_eqb st GIT_DELTA_UNMODIFIED
            && negb (flag_set (diff_flags diff0)
                       GIT_DIFF_INCLUDE_UNMODIFIED))
    eqn:Hu; [exact Hb|].
  apply built_list_insert; [exact Hb|]. constructor; auto.
  intros ->.
  change (delta_t_eqb GIT_DELTA_UNMODIFIED GIT_DELTA_UNMODIFIED)
    with true in Hu.
  destruct (flag_set (diff_flags diff0) GIT_DIFF_INCLUDE_UNMODIFIED);
    [reflexivity | discriminate].
Qed.

Lemma built_patch_last (diff : git_diff_list)
    (found : option git_diff_delta) (new_side : bool) :
  built_list allowed diff0 diff ->
  flag_set (diff_flags diff0) GIT_DIFF_INCLUDE_TYPECHANGE_TREES = true ->
  (forall d, found = Some d -> git_vector_last diff = Some d) ->
  built_list allowed diff0 (patch_last diff found new_side).
Proof.
  intros [Heq Hall] Htrees Hlast. destruct found as [d|]; [|now split].
  specialize (Hlast d eq_refl). apply git_vector_last_split in Hlast.
  change (patch_last diff (Some d) new_side)
    with (set_vector_last diff (typechange_patch d new_side)).
  unfold set_vector_last. split.
  - rewrite Heq at 1. reflexivity.
  - cbn [deltas set_deltas]. rewrite Hlast in Hall.
    apply Forall_app in Hall as [Hfront Hd]. apply Forall_app. split;
      [exact Hfront|].
    constructor; [|constructor]. apply built_patch; [exact Htrees|].
    now inversion Hd.
Qed.

Hypothesis allowed_added : allowed GIT_DELTA_ADDED.
Hypothesis allowed_deleted : allowed GIT_DELTA_DELETED.

Lemma built_classify_chain (diff : git_diff_list) (wd : bool)
    (o n : git_index_entry) (om nm : Z) :
  built_list allowed diff0 diff ->
  finishes_with (classify_chain diff wd o n om nm)
    (fun r =>
       match r with
       | inl diff' => built_list allowed diff0 diff'
       | inr (st, _) =>
           two_sided st
           /\ (st = GIT_DELTA_TYPECHANGE ->
               flag_set (diff_flags diff0) GIT_DIFF_INCLUDE_TYPECHANGE
               = true)
       end).
Proof.
  intros Hb.
  destruct (built_list_settings diff Hb) as (Hf & _).
  unfold classify_chain, two_sided. rewrite Hf.
  destruct (flag_set (diff_flags diff0) GIT_DIFF_INCLUDE_TYPECHANGE)
    eqn:Htc;
  repeat match goal with
         | |- finishes_with (if ?c then _ else _) _ => destruct c
         end;
    try (apply finishes_ret; split; [auto | auto; discriminate]; fail).
  all: try (apply finishes_ret;
            destruct (flag_set (e_flags_extended o)
                        GIT_IDXENTRY_INTENT_TO_ADD);
            split; auto; discriminate).
  all: try (apply finishes_ret; apply built_from_one;
            [|exact allowed_added];
            apply built_from_one; [exact Hb | exact allowed_deleted]).
  all: apply finishes_bind; unfold git_submodule_lookup;
    apply finishes_bind, finishes_tell, finishes_lift_option;
    intros sub _; destruct (sm_ignore sub =? GIT_SUBMODULE_IGNORE_ALL);
    [apply finishes_ret; split; auto; discriminate|];
    apply finishes_bind; unfold git_submodule_status;
    apply finishes_bind, finishes_tell, finishes_lift_option;
    intros sm_st _; apply finishes_ret;
    destruct (GIT_SUBMODULE_STATUS_IS_UNMODIFIED sm_st);
    split; auto; discriminate.
Qed.

Lemma built_maybe_modified (old_iter new_iter : git_iterator)
    (o n : git_index_entry) (diff : git_diff_list) :
  built_list allowed diff0 diff ->
  finishes_with (maybe_modified old_iter o new_iter n diff)
    (built_list allowed diff0).
Proof.
  intros Hb.
  destruct (built_list_settings diff Hb) as (Hf & Hp & _ & _).
  unfold maybe_modified. fold (passes_pathspec diff (e_path o)).
  rewrite Hp.
  destruct (passes_pathspec diff0 (e_path o)) eqn:Hps; cbn [negb];
    [|apply finishes_ret; exact Hb].
  apply finishes_bind.
  eapply finishes_weaken; [|now apply built_classify_chain].
  intros [diff' | [st use_noid]] Hr; [apply finishes_ret; exact Hr|].
  cbv beta iota in Hr.
  apply finishes_bind.
  match goal with
  | |- finishes_with (if ?c then _ else _) _ => destruct c
  end.
  - apply finishes_bind.
    assert (Hst : forall noid : git_oid,
      let st' :=
        if (e_mode o =? normalized_nmode diff
                          (is_workdir (it_type new_iter))
                          (e_mode o) (e_mode n))
           && git_oid_equal (e_oid o) noid
        then GIT_DELTA_UNMODIFIED else st in
      two_sided st'
      /\ (st' = GIT_DELTA_TYPECHANGE ->
          flag_set (diff_flags diff0) GIT_DIFF_INCLUDE_TYPECHANGE = true)).
    { intros noid. cbv zeta.
      match goal with
      | |- two_sided (if ?c then _ else _) /\ _ => destruct c
      end; [split; [left; reflexivity | discriminate] | exact Hr]. }
    destruct use_noid as [x|].
    + apply finishes_ret, finishes_ret, finishes_ret.
      destruct (Hst x). now apply built_from_two.
    + eapply finishes_weaken; [|apply git_diff__oid_for_file_finishes].
      intros noid _. apply finishes_ret, finishes_ret.
      destruct (Hst noid). now apply built_from_two.
  - apply finishes_ret, finishes_ret. destruct Hr.
    now apply built_from_two.
Qed.

Lemma built_old_only (s : loop_state) (o : git_index_entry)
    (nitem : option git_index_entry) :
  built_list allowed diff0 (ls_diff s) ->
  finishes_with (old_only s o nitem)
    (fun s' => built_list allowed diff0 (ls_diff s')).
Proof.
  intros Hb. unfold old_only. apply finishes_ret. cbn [ls_diff].
  pose proof (built_from_one (ls_diff s) GIT_DELTA_DELETED o Hb
                allowed_deleted) as H1.
  destruct (built_list_settings _ H1) as (Hf & _).
  match goal with
  | |- context [if ?c && ?c' then _ else _] =>
      destruct c eqn:Htrees; cbn [andb]; [destruct c'|]
  end; try exact H1.
  apply built_patch_last; [exact H1 | now rewrite <- Hf|]. intros d.
  apply diff_delta__last_for_item_is_last.
Qed.

Lemma built_new_only_emit (s : loop_state)
    (oitem : option git_index_entry) (n : git_index_entry)
    (st : git_delta_t) :
  built_list allowed diff0 (ls_diff s) -> allowed st ->
  built_list allowed diff0 (new_only_emit s oitem n st).
Proof.
  intros Hb Hst. unfold new_only_emit. cbv zeta.
  pose proof (built_from_one (ls_diff s) st n Hb Hst) as H1.
  destruct (built_list_settings _ H1) as (Hf & _).
  match goal with
  | |- context [if ?a && ?c && ?c' then _ else _] =>
      destruct a; cbn [andb]; [destruct c eqn:Htrees; cbn [andb];
                               [destruct c'|]|]
  end; try exact H1.
  apply built_patch_last; [exact H1 | now rewrite <- Hf|]. intros d.
  destruct oitem as [o|]; [apply diff_delta__last_for_item_is_last|].
  discriminate.
Qed.

Lemma built_matched (s : loop_state) (o n : git_index_entry) :
  built_list allowed diff0 (ls_diff s) ->
  finishes_with (matched s o n)
    (fun s' => built_list allowed diff0 (ls_diff s')).
Proof.
  intros Hb. unfold matched. apply finishes_bind.
  eapply finishes_weaken; [|now apply built_maybe_modified].
  intros diff' Hb'. apply finishes_ret. exact Hb'.
Qed.

End Built.

Lemma built_delta_set_deltas (allowed : git_delta_t -> Prop)
    (diff : git_diff_list) (ds : list git_diff_delta) (d : git_diff_delta) :
  built_delta allowed diff d -> built_delta allowed (set_deltas diff ds) d.
Proof.
  induction 1 as [st e Ha Hi Hu Hp | st o n om nm noid Hs Hu Ht Hp
                 | d side Htrees _ IH].
  - exact (built_one allowed (set_deltas diff ds) st e Ha Hi Hu Hp).
  - exact (built_two allowed (set_deltas diff ds) st o n om nm noid
             Hs Hu Ht Hp).
  - now apply built_patch.
Qed.

Lemma built_delta_weaken (allowed allowed' : git_delta_t -> Prop)
    (diff : git_diff_list) (d : git_diff_delta) :
  (forall st, allowed st -> allowed' st) ->
  built_delta allowed diff d -> built_delta allowed' diff d.
Proof.
  intros Hw. induction 1; [apply built_one | apply built_two
                           | apply built_patch]; auto.
Qed.

(** A pass keeps the deltas built, when the statuses the new-only branch
    can emit in this state are allowed. *)
Lemma built_pass (allowed : git_delta_t -> Prop) (diff0 : git_diff_list)
    (s : loop_state) :
  allowed GIT_DELTA_ADDED -> allowed GIT_DELTA_DELETED ->
  (forall n st,
      git_iterator_current (ls_new s) = Some n ->
      st = GIT_DELTA_UNTRACKED \/ st = GIT_DELTA_IGNORED
      \/ st = GIT_DELTA_ADDED ->
      (S_ISDIR (e_mode n) = false ->
       is_workdir (it_type (ls_new s)) = false -> st = GIT_DELTA_ADDED) ->
      allowed st) ->
  built_list allowed diff0 (ls_diff s) ->
  (it_items (ls_old s) <> [] \/ it_items (ls_new s) <> []) ->
  finishes_with (diff_iteration s)
    (fun s' => built_list allowed diff0 (ls_diff s')).
Proof.
  intros Ha Hd Hnew Hb Hsome.
  apply diff_iteration_cases; [| | |exact Hsome].
  - intros o _ _. now apply built_old_only.
  - intros n Hn _.
    destruct (new_only_cases s (git_iterator_current (ls_old s)) n)
      as [(new' & prefix' & ->) | (st & Hst & Hadd & ->)];
      apply finishes_ret; cbn [ls_diff]; [exact Hb|].
    apply built_new_only_emit; [exact Hb|]. now apply (Hnew n).
  - intros o n _ _ _. now apply built_matched.
Qed.

Lemma diff_list_init_from_iterators_flags (diff : git_diff_list)
    (old_iter new_iter : git_iterator) (k : Z) :
  0 <= k -> k <> 12 ->
  flag_set (diff_flags (diff_list_init_from_iterators diff old_iter new_iter))
    (Z.shiftl 1 k)
  = flag_set (diff_flags diff) (Z.shiftl 1 k).
Proof.
  intros Hk Hne. unfold diff_list_init_from_iterators, diff_flags,
    GIT_DIFF_DELTAS_ARE_ICASE.
  destruct (negb (ignore_case old_iter) && negb (ignore_case new_iter));
    cbn [opts opt_flags set_opt_flags];
    rewrite ?flag_set_lor, ?flag_set_clear by lia;
    destruct (Z.eqb_spec k 12); try lia;
    rewrite ?orb_false_r, ?andb_true_r; reflexivity.
Qed.

Lemma run_flags_start (rp : git_repository)
    (old_iter new_iter : git_iterator) (options : option git_diff_options)
    (diff : git_diff_list) :
  git_diff_list_alloc rp options = Some diff ->
  run_flags options old_iter new_iter
    (diff_list_init_from_iterators diff old_iter new_iter).
Proof.
  intros Halloc.
  pose proof (git_diff_list_alloc_flags rp options diff Halloc) as Hf.
  destruct (diff_list_init_from_iterators_facts diff old_iter new_iter)
    as (_ & Hicase & _).
  unfold run_flags. split; [|split; [exact Hicase|]].
  - unfold GIT_DIFF_INCLUDE_TYPECHANGE, GIT_DIFF_INCLUDE_TYPECHANGE_TREES
      in *.
    rewrite diff_list_init_from_iterators_flags by lia. rewrite Hf.
    destruct (flag_set (requested_flags options) (Z.shiftl 1 16));
      [|now rewrite orb_false_r].
    rewrite flag_set_lor by lia. rewrite Z.eqb_refl. reflexivity.
  - intros k Hk H12 H15.
    rewrite diff_list_init_from_iterators_flags by lia. rewrite Hf.
    unfold GIT_DIFF_INCLUDE_TYPECHANGE, GIT_DIFF_INCLUDE_TYPECHANGE_TREES.
    destruct (flag_set (requested_flags options) (Z.shiftl 1 16));
      [|reflexivity].
    rewrite flag_set_lor by lia.
    destruct (Z.eqb_spec k 15); [lia|]. apply orb_false_r.
Qed.

(** The deltas of a finished run are all built by the two construction
    paths, whatever the order of the sources is, under the flags of the
    run. *)
Lemma run_built_flags (rp : git_repository)
    (old_iter new_iter : git_iterator) (options : option git_diff_options) :
  can_descend (listing_as_read old_iter new_iter new_iter) ->
  finishes_with (diff_from_iterators rp old_iter new_iter options)
    (fun diff =>
       run_flags options old_iter new_iter diff
       /\ Forall (built_delta single_sided diff) (deltas diff)).
Proof.
  intros Hdesc.
  destruct (git_diff_list_alloc rp options) as [diff|] eqn:Halloc;
    [|unfold diff_from_iterators; rewrite Halloc; exact I].
  destruct (diff_from_iterators_start rp old_iter new_iter options diff
              Halloc) as [Hnil ->].
  pose proof (run_flags_start rp old_iter new_iter options diff Halloc)
    as Hflags.
  set (diff0 := diff_list_init_from_iterators diff old_iter new_iter) in *.
  apply finishes_bind.
  eapply finishes_weaken;
    [|apply (diff_loop_passes (@finishes_with loop_state)
               (@finishes_ret loop_state) (@finishes_bind _ _)
               (@finishes_weaken _) (@finishes_conj _)
               (fun s => built_list single_sided diff0 (ls_diff s))
               (mk_loop diff0 (listing_as_read old_iter new_iter old_iter)
                  (listing_as_read old_iter new_iter new_iter) EmptyString))].
  - intros s ([Heq Hall] & _). apply finishes_ret. rewrite Heq.
    split; [exact Hflags|].
    cbn [deltas set_deltas].
    eapply Forall_impl; [|exact Hall].
    intros d. apply built_delta_set_deltas.
  - intros s _ _ Hb Hsome.
    apply built_pass;
      [left; reflexivity | right; left; reflexivity | | exact Hb
      | exact Hsome].
    intros n st _ [-> | [-> | ->]] _; unfold single_sided; auto.
  - apply later_in_refl.
  - apply later_in_refl.
  - now apply built_list_refl.
  - exact Hdesc.
  - unfold loop_measure. cbn [ls_old ls_new]. lia.
Qed.

Lemma run_built (rp : git_repository) (old_iter new_iter : git_iterator)
    (options : option git_diff_options) :
  can_descend (listing_as_read old_iter new_iter new_iter) ->
  finishes_with (diff_from_iterators rp old_iter new_iter options)
    (fun diff => Forall (built_delta single_sided diff) (deltas diff)).
Proof.
  intros Hdesc. eapply finishes_weaken; [|now apply run_built_flags].
  now intros diff [_ Hall].
Qed.

Lemma listing_as_read_tracked (old_iter new_iter it : git_iterator) :
  is_workdir (it_type it) = false -> no_directories (it_items it) ->
  is_workdir (it_type (listing_as_read old_iter new_iter it)) = false
  /\ no_directories (it_items (listing_as_read old_iter new_iter it)).
Proof.
  intros Hwd Hnone. unfold listing_as_read.
  destruct (negotiated_icase old_iter new_iter && negb (ignore_case it));
    [|now split].
  split; [reflexivity | now apply spoolandsort_no_directories].
Qed.

(** When the new source is not a working directory and lists no
    directory, single-sided construction is only asked for added and
    deleted deltas. *)
Lemma run_built_tracked (rp : git_repository)
    (old_iter new_iter : git_iterator) (options : option git_diff_options) :
  is_workdir (it_type new_iter) = false ->
  no_directories (it_items new_iter) ->
  finishes_with (diff_from_iterators rp old_iter new_iter options)
    (fun diff =>
       Forall (built_delta
                 (fun st => st = GIT_DELTA_ADDED \/ st = GIT_DELTA_DELETED)
                 diff) (deltas diff)).
Proof.
  intros Hwd Hnone.
  destruct (listing_as_read_tracked old_iter new_iter new_iter Hwd Hnone)
    as [Hwd' Hnone'].
  destruct (git_diff_list_alloc rp options) as [diff|] eqn:Halloc;
    [|unfold diff_from_iterators; rewrite Halloc; exact I].
  destruct (diff_from_iterators_start rp old_iter new_iter options diff
              Halloc) as [Hnil ->].
  set (diff0 := diff_list_init_from_iterators diff old_iter new_iter) in *.
  set (allowed := fun st => st = GIT_DELTA_ADDED \/ st = GIT_DELTA_DELETED).
  apply finishes_bind.
  eapply finishes_weaken;
    [|apply (diff_loop_passes (@finishes_with loop_state)
               (@finishes_ret loop_state) (@finishes_bind _ _)
               (@finishes_weaken _) (@finishes_conj _)
               (fun s => built_list allowed diff0 (ls_diff s))
               (mk_loop diff0 (listing_as_read old_iter new_iter old_iter)
                  (listing_as_read old_iter new_iter new_iter) EmptyString))].
  - intros s ([Heq Hall] & _). apply finishes_ret. rewrite Heq.
    cbn [deltas set_deltas].
    eapply Forall_impl; [|exact Hall].
    intros d. apply built_delta_set_deltas.
  - intros s _ (Ht & _ & pre & Hpre) Hb Hsome. cbn [ls_new] in Ht, Hpre.
    apply built_pass;
      [left; reflexivity | right; reflexivity | | exact Hb | exact Hsome].
    intros n st Hn _ Hadd. left. apply Hadd; [|congruence].
    unfold git_iterator_current in Hn.
    destruct (it_items (ls_new s)) as [|i l] eqn:Hitems; [discriminate|].
    injection Hn as <-. unfold no_directories in Hnone'.
    rewrite Hpre in Hnone'. apply Forall_app in Hnone' as [_ Hnone'].
    now inversion Hnone'.
  - apply later_in_refl.
  - apply later_in_refl.
  - now apply built_list_refl.
  - right. exact Hnone'.
  - unfold loop_measure. cbn [ls_old ls_new]. lia.
Qed.

(* ================================================================== *)
(** * What holds of every delta of a run *)

Lemma delta_from_one_status (diff : git_diff_list) (st : git_delta_t)
    (e : git_index_entry) :
  status (delta_from_one diff st e)
  = if flag_set (diff_flags diff) GIT_DIFF_REVERSE
    then reversed_status st else st.
Proof.
  unfold delta_from_one, diff_delta__alloc.
  destruct (flag_set (diff_flags diff) GIT_DIFF_REVERSE), st; cbn;
    try reflexivity;
    destruct (git_oid_iszero (e_oid e)); reflexivity.
Qed.

Lemma delta_from_two_sides (diff : git_diff_list) (st : git_delta_t)
    (o n : git_index_entry) (om nm : Z) (noid : option git_oid) :
  let d := delta_from_two diff st o om n nm noid in
  status d = (if flag_set (diff_flags diff) GIT_DIFF_REVERSE
              then reversed_status st else st)
  /\ f_path (new_file d) = f_path (old_file d)
  /\ valid_oid (old_file d) = true.
Proof.
  unfold delta_from_two, diff_delta__alloc, valid_oid.
  assert (Hv : forall x, flag_set (Z.lor x GIT_DIFF_FILE_VALID_OID)
                           GIT_DIFF_FILE_VALID_OID = true).
  { intros x. unfold GIT_DIFF_FILE_VALID_OID.
    rewrite flag_set_lor by lia. apply orb_true_r. }
  destruct (flag_set (diff_flags diff) GIT_DIFF_REVERSE), noid as [x|];
    cbn [orb];
    repeat match goal with
           | |- context [if ?c then _ else _] => destruct c
           end; cbn; rewrite ?Hv; repeat split; reflexivity.
Qed.

Lemma built_not_skippable (diff : git_diff_list) (d : git_diff_delta) :
  built_delta single_sided diff d ->
  git_diff_delta__should_skip (Some (opts diff)) d = false.
Proof.
  unfold git_diff_delta__should_skip. fold (diff_flags diff).
  induction 1 as [st e Ha Hi Hu Hp | st o n om nm noid Hs Hu Ht Hp
                 | d side Htrees _ IH].
  - rewrite delta_from_one_status.
    destruct Ha as [-> | [-> | [-> | ->]]];
      destruct (flag_set (diff_flags diff) GIT_DIFF_REVERSE);
      cbn [reversed_status]; rewrite ?Hi, ?Hu by reflexivity;
      reflexivity.
  - destruct (delta_from_two_sides diff st o n om nm noid) as (-> & _).
    destruct Hs as [-> | [-> | ->]];
      destruct (flag_set (diff_flags diff) GIT_DIFF_REVERSE);
      cbn [reversed_status]; rewrite ?Hu by reflexivity; reflexivity.
  - destruct side; reflexivity.
Qed.

Lemma built_status (allowed : git_delta_t -> Prop) (diff : git_diff_list)
    (d : git_diff_delta) :
  built_delta allowed diff d ->
  status d = GIT_DELTA_UNMODIFIED \/ status d = GIT_DELTA_MODIFIED
  \/ status d = GIT_DELTA_TYPECHANGE
  \/ exists st, allowed st
                /\ status d = if flag_set (diff_flags diff) GIT_DIFF_REVERSE
                              then reversed_status st else st.
Proof.
  induction 1 as [st e Ha Hi Hu Hp | st o n om nm noid Hs Hu Ht Hp
                 | d side Htrees _ IH].
  - right. right. right. exists st. split; [exact Ha|].
    apply delta_from_one_status.
  - destruct (delta_from_two_sides diff st o n om nm noid) as (-> & _).
    destruct Hs as [-> | [-> | ->]];
      destruct (flag_set (diff_flags diff) GIT_DIFF_REVERSE); auto.
  - right. right. left. destruct side; reflexivity.
Qed.

Lemma built_sides (allowed : git_delta_t -> Prop) (diff : git_diff_list)
    (d : git_diff_delta) :
  built_delta allowed diff d ->
  f_path (new_file d) = f_path (old_file d)
  /\ valid_oid (old_file d) = true.
Proof.
  induction 1 as [st e Ha Hi Hu Hp | st o n om nm noid Hs Hu Ht Hp
                 | d side Htrees _ IH].
  - destruct (delta_from_one_sides diff st e) as (_ & H1 & H2 & H3 & _).
    unfold delta_path in H1. split; congruence.
  - now destruct (delta_from_two_sides diff st o n om nm noid)
      as (_ & H1 & H2).
  - destruct side; exact IH.
Qed.

Lemma built_passes_pathspec (allowed : git_delta_t -> Prop)
    (diff : git_diff_list) (d : git_diff_delta) :
  flag_set (diff_flags diff) GIT_DIFF_REVERSE = false ->
  built_delta allowed diff d ->
  passes_pathspec diff (delta_path d) = true.
Proof.
  intros Hfwd.
  induction 1 as [st e Ha Hi Hu Hp | st o n om nm noid Hs Hu Ht Hp
                 | d side Htrees _ IH].
  - destruct (delta_from_one_sides diff st e) as (_ & -> & _). exact Hp.
  - rewrite delta_from_two_path, Hfwd. exact Hp.
  - destruct side; exact IH.
Qed.

Lemma built_absent_side (diff : git_diff_list) (d : git_diff_delta) :
  built_delta single_sided diff d ->
  (status d = GIT_DELTA_DELETED -> absent_side (new_file d))
  /\ (status d = GIT_DELTA_ADDED \/ status d = GIT_DELTA_UNTRACKED
      \/ status d = GIT_DELTA_IGNORED -> absent_side (old_file d)).
Proof.
  induction 1 as [st e Ha Hi Hu Hp | st o n om nm noid Hs Hu Ht Hp
                 | d side Htrees _ IH].
  - unfold delta_from_one, diff_delta__alloc, absent_side.
    destruct Ha as [-> | [-> | [-> | ->]]];
      destruct (flag_set (diff_flags diff) GIT_DIFF_REVERSE); cbn;
      try (destruct (git_oid_iszero (e_oid e)); cbn);
      split; intros H; try discriminate;
      try (destruct H as [H | [H | H]]; discriminate);
      repeat split.
  - destruct (delta_from_two_sides diff st o n om nm noid) as (-> & _).
    destruct Hs as [-> | [-> | ->]];
      destruct (flag_set (diff_flags diff) GIT_DIFF_REVERSE);
      cbn [reversed_status]; split; intros H; try discriminate;
      destruct H as [H | [H | H]]; discriminate.
  - destruct side; split; intros H; try discriminate;
      destruct H as [H | [H | H]]; discriminate.
Qed.

(** A compare run ends within as many passes as the two listings hold
    entries, in whatever order the sources list them, as long as the
    directories of the new listing can be descended into. *)
Theorem compare_run_ends_within_listing_lengths
    (rp : git_repository) (old_iter new_iter : git_iterator)
    (options : option git_diff_options) :
  can_descend (listing_as_read old_iter new_iter new_iter) ->
  finishes_with (diff_from_iterators rp old_iter new_iter options)
    (fun _ => True).
Proof.
  intros Hdesc. eapply finishes_weaken; [|now apply run_built]. auto.
Qed.

Lemma compare_run_ends_within_listing_lengths_witness :
  finishes_with
    (diff_from_iterators Sample.rp
       (Sample.source GIT_ITERATOR_TREE
          [Sample.entry "b" 33188 1; Sample.entry "a" 33188 2])
       Sample.workdir_with_directory
       (Sample.options Sample.report_everything))
    (fun _ => True).
Proof.
  apply compare_run_ends_within_listing_lengths. left. reflexivity.
Defined.

(** No delta of a finished run is one that [git_diff_delta__should_skip]
    would skip under the options of the run: unmodified, ignored and
    untracked deltas are in the list only when their inclusion flag is
    set. *)
Theorem run_holds_no_skippable_delta
    (rp : git_repository) (old_iter new_iter : git_iterator)
    (options : option git_diff_options) :
  can_descend (listing_as_read old_iter new_iter new_iter) ->
  finishes_with (diff_from_iterators rp old_iter new_iter options)
    (fun diff =>
       Forall (fun d =>
                 git_diff_delta__should_skip (Some (opts diff)) d = false)
         (deltas diff)).
Proof.
  intros Hdesc. eapply finishes_weaken; [|now apply run_built].
  intros diff Hall. eapply Forall_impl; [|exact Hall].
  intros d. apply built_not_skippable.
Qed.

Lemma run_holds_no_skippable_delta_witness :
  let run :=
    diff_from_iterators Sample.rp Sample.index_three_files
      Sample.workdir_with_changes
      (Sample.options GIT_DIFF_INCLUDE_UNTRACKED) in
  finishes_with run
    (fun diff =>
       Forall (fun d =>
                 git_diff_delta__should_skip (Some (opts diff)) d = false)
         (deltas diff))
  /\ option_map (map status) (Sample.deltas_of run)
     = Some [GIT_DELTA_MODIFIED; GIT_DELTA_UNTRACKED; GIT_DELTA_UNTRACKED;
             GIT_DELTA_DELETED; GIT_DELTA_ADDED].
Proof.
  cbv zeta. split; [|reflexivity].
  apply run_holds_no_skippable_delta. left. reflexivity.
Defined.

(** In every delta of a finished run the two sides carry one path, and
    the old side carries the hash-valid flag. *)
Theorem run_deltas_share_path_and_flag_old_side
    (rp : git_repository) (old_iter new_iter : git_iterator)
    (options : option git_diff_options) :
  can_descend (listing_as_read old_iter new_iter new_iter) ->
  finishes_with (diff_from_iterators rp old_iter new_iter options)
    (fun diff =>
       Forall (fun d => f_path (new_file d) = f_path (old_file d)
                        /\ valid_oid (old_file d) = true) (deltas diff)).
Proof.
  intros Hdesc. eapply finishes_weaken; [|now apply run_built].
  intros diff Hall. eapply Forall_impl; [|exact Hall].
  intros d. apply built_sides.
Qed.

Lemma run_deltas_share_path_and_flag_old_side_witness :
  finishes_with
    (diff_from_iterators Sample.rp
       (Sample.source GIT_ITERATOR_TREE [Sample.file_a_x])
       (Sample.source GIT_ITERATOR_TREE [Sample.file_a])
       (Sample.options GIT_DIFF_INCLUDE_TYPECHANGE_TREES))
    (fun diff =>
       Forall (fun d => f_path (new_file d) = f_path (old_file d)
                        /\ valid_oid (old_file d) = true) (deltas diff)).
Proof.
  apply run_deltas_share_path_and_flag_old_side. right.
  repeat constructor.
Defined.

(** The pathspec filter is sound: in a run that is not reversed, the
    path of every delta passes the pathspec of the diff list. *)
Theorem forward_run_deltas_pass_pathspec
    (rp : git_repository) (old_iter new_iter : git_iterator)
    (options : option git_diff_options) :
  can_descend (listing_as_read old_iter new_iter new_iter) ->
  finishes_with (diff_from_iterators rp old_iter new_iter options)
    (fun diff =>
       flag_set (diff_flags diff) GIT_DIFF_REVERSE = false ->
       Forall (fun d => passes_pathspec diff (delta_path d) = true)
         (deltas diff)).
Proof.
  intros Hdesc. eapply finishes_weaken; [|now apply run_built].
  intros diff Hall Hfwd. eapply Forall_impl; [|exact Hall].
  intros d. now apply built_passes_pathspec.
Qed.

Lemma forward_run_deltas_pass_pathspec_witness :
  finishes_with
    (diff_from_iterators Sample.rp Sample.index_two_files
       (Sample.source GIT_ITERATOR_TREE [])
       (Some (mk_opts 0 None None [Sample.only_path "a.txt"])))
    (fun diff =>
       flag_set (diff_flags diff) GIT_DIFF_REVERSE = false ->
       Forall (fun d => passes_pathspec diff (delta_path d) = true)
         (deltas diff)).
Proof.
  apply forward_run_deltas_pass_pathspec. right. constructor.
Defined.

(** The side of a single-sided delta that has no entry stays as
    allocated: a deleted delta has a zero hash, size and mode on its new
    side, and an added, untracked or ignored delta on its old side. *)
Theorem run_leaves_absent_side_zero
    (rp : git_repository) (old_iter new_iter : git_iterator)
    (options : option git_diff_options) :
  can_descend (listing_as_read old_iter new_iter new_iter) ->
  finishes_with (diff_from_iterators rp old_iter new_iter options)
    (fun diff =>
       Forall (fun d =>
                 (status d = GIT_DELTA_DELETED -> absent_side (new_file d))
                 /\ (status d = GIT_DELTA_ADDED
                     \/ status d = GIT_DELTA_UNTRACKED
                     \/ status d = GIT_DELTA_IGNORED ->
                     absent_side (old_file d))) (deltas diff)).
Proof.
  intros Hdesc. eapply finishes_weaken; [|now apply run_built].
  intros diff Hall. eapply Forall_impl; [|exact Hall].
  intros d. apply built_absent_side.
Qed.

Lemma run_leaves_absent_side_zero_witness :
  finishes_with
    (diff_from_iterators Sample.rp Sample.index_two_files
       Sample.workdir_with_directory
       (Sample.options GIT_DIFF_INCLUDE_UNTRACKED))
    (fun diff =>
       Forall (fun d =>
                 (status d = GIT_DELTA_DELETED -> absent_side (new_file d))
                 /\ (status d = GIT_DELTA_ADDED
                     \/ status d = GIT_DELTA_UNTRACKED
                     \/ status d = GIT_DELTA_IGNORED ->
                     absent_side (old_file d))) (deltas diff)).
Proof.
  apply run_leaves_absent_side_zero. left. reflexivity.
Defined.

(** A comparison whose new source is not a working directory and lists
    no directory (a tree or an index) always ends, and never reports an
    untracked or an ignored delta. *)
Theorem tracked_new_source_reports_no_untracked_or_ignored
    (rp : git_repository) (old_iter new_iter : git_iterator)
    (options : option git_diff_options) :
  is_workdir (it_type new_iter) = false ->
  no_directories (it_items new_iter) ->
  finishes_with (diff_from_iterators rp old_iter new_iter options)
    (fun diff =>
       Forall (fun d => status d <> GIT_DELTA_UNTRACKED
                        /\ status d <> GIT_DELTA_IGNORED) (deltas diff)).
Proof.
  intros Hwd Hnone. eapply finishes_weaken; [|now apply run_built_tracked].
  intros diff Hall. eapply Forall_impl; [|exact Hall].
  intros d Hd.
  destruct (built_status _ _ _ Hd) as [H | [H | [H | (st & Hst & H)]]];
    rewrite H; try (split; discriminate).
  destruct Hst as [-> | ->];
    destruct (flag_set (diff_flags diff) GIT_DIFF_REVERSE);
    split; discriminate.
Qed.

Lemma tracked_new_source_reports_no_untracked_or_ignored_witness :
  finishes_with
    (diff_from_iterators Sample.rp
       (Sample.source GIT_ITERATOR_TREE [Sample.file_a])
       (Sample.source GIT_ITERATOR_INDEX
          [Sample.file_a; Sample.entry "b" 33188 3])
       (Sample.options Sample.report_everything))
    (fun diff =>
       Forall (fun d => status d <> GIT_DELTA_UNTRACKED
                        /\ status d <> GIT_DELTA_IGNORED) (deltas diff)).
Proof.
  apply tracked_new_source_reports_no_untracked_or_ignored;
    [reflexivity | repeat constructor].
Defined.

(* ================================================================== *)
(** * Runs that need no provider *)


Lemma listing_as_read_entries (old_iter new_iter it : git_iterator)
    (x : source_item) :
  In x (it_items (listing_as_read old_iter new_iter it)) ->
  exists i, In i (it_items it) /\ si_entry x = si_entry i.
Proof.
  unfold listing_as_read.
  destruct (negotiated_icase old_iter new_iter && negb (ignore_case it)).
  - unfold git_iterator_spoolandsort. cbn [it_items]. intros Hin.
    apply sort_in in Hin. apply spool_items in Hin.
    destruct Hin as (i & Hi & ->). now exists i.
  - intros Hin. now exists x.
Qed.

Lemma listing_as_read_forall (old_iter new_iter it : git_iterator)
    (P : git_index_entry -> Prop) :
  Forall (fun i => P (si_entry i)) (it_items it) ->
  Forall (fun i => P (si_entry i))
    (it_items (listing_as_read old_iter new_iter it)).
Proof.
  rewrite !Forall_forall. intros H x Hx.
  apply listing_as_read_entries in Hx as (i & Hi & ->). now apply H.
Qed.

Lemma later_in_current (it0 it : git_iterator) (e : git_index_entry)
    (P : git_index_entry -> Prop) :
  later_in it0 it -> Forall (fun i => P (si_entry i)) (it_items it0) ->
  git_iterator_current it = Some e -> P e.
Proof.
  intros (_ & _ & pre & Hpre) Hall Hcur. unfold git_iterator_current in Hcur.
  destruct (it_items it) as [|i l]; [discriminate|]. injection Hcur as <-.
  rewrite Hpre in Hall. apply Forall_app in Hall as [_ Hall].
  now inversion Hall.
Qed.

(** With the hash of the new entry known, the classifier consults no
    provider and cannot fail. *)
Lemma maybe_modified_known_hash (old_iter new_iter : git_iterator)
    (o n : git_index_entry) (diff : git_diff_list) :
  git_oid_iszero (e_oid n) = false ->
  returns (maybe_modified old_iter o new_iter n diff) (fun _ => True).
Proof.
  intros Hz. unfold maybe_modified, classify_chain. rewrite Hz.
  cbn [andb].
  repeat first
    [ rewrite bind_ret_l
    | rewrite andb_false_r
    | progress cbv beta iota
    | match goal with
      | |- context [if ?c then _ else _] => destruct c
      end ];
    eexists; (split; [reflexivity | exact I]).
Qed.

Lemma known_hashes_run (rp : git_repository)
    (old_iter new_iter : git_iterator)
    (options : option git_diff_options) :
  repo_config rp <> None ->
  Forall known_hash (it_items new_iter) ->
  can_descend (listing_as_read old_iter new_iter new_iter) ->
  returns (diff_from_iterators rp old_iter new_iter options)
    (fun _ => True).
Proof.
  intros Hcfg Hknown Hdesc.
  destruct (git_diff_list_alloc rp options) as [diff|] eqn:Halloc.
  2:{ unfold git_diff_list_alloc in Halloc.
      destruct (repo_config rp); [destruct options; discriminate|].
      congruence. }
  destruct (diff_from_iterators_start rp old_iter new_iter options diff
              Halloc) as [Hnil ->].
  apply (listing_as_read_forall old_iter new_iter new_iter
           (fun e => git_oid_iszero (e_oid e) = false)) in Hknown.
  apply returns_bind.
  eapply returns_weaken;
    [|apply (diff_loop_passes (@returns loop_state)
               (@returns_ret loop_state) (@returns_bind _ _)
               (@returns_weaken _) (@returns_conj _)
               (fun _ => True)
               (mk_loop (diff_list_init_from_iterators diff old_iter new_iter)
                  (listing_as_read old_iter new_iter old_iter)
                  (listing_as_read old_iter new_iter new_iter) EmptyString))].
  - intros s _. now apply returns_ret.
  - intros s _ Ln _ Hsome. cbn [ls_new] in Ln.
    apply diff_iteration_cases; [| | |exact Hsome].
    + intros o _ _.
      destruct (old_only_shape s o (git_iterator_current (ls_new s)))
        as (diff' & -> & _). now apply returns_ret.
    + intros n _ _.
      destruct (new_only_shape s (git_iterator_current (ls_old s)) n)
        as (diff' & new' & prefix' & -> & _). now apply returns_ret.
    + intros o n _ Hn _. unfold matched. apply returns_bind.
      eapply returns_weaken; [|apply maybe_modified_known_hash].
      * intros diff' _. now apply returns_ret.
      * exact (later_in_current _ _ n
                 (fun e => git_oid_iszero (e_oid e) = false) Ln Hknown Hn).
  - apply later_in_refl.
  - apply later_in_refl.
  - exact I.
  - exact Hdesc.
  - unfold loop_measure. cbn [ls_old ls_new]. lia.
Qed.

(** When every entry of the new source carries its hash (as the
    entries of a tree or an index do) and the directories of the new
    listing, as the loop reads it, can be descended into, a compare run
    consults neither the content hasher nor the submodule provider, and
    it ends within the passes the listing lengths allow, by success or
    by failure. *)
Theorem known_hashes_need_no_provider
    (rp : git_repository) (old_iter new_iter : git_iterator)
    (options : option git_diff_options) :
  Forall known_hash (it_items new_iter) ->
  can_descend (listing_as_read old_iter new_iter new_iter) ->
  quietly (diff_from_iterators rp old_iter new_iter options)
    (fun _ => True).
Proof.
  intros Hknown Hdesc. apply quietly_run. intros Hcfg.
  now apply known_hashes_run.
Qed.

Lemma known_hashes_need_no_provider_witness :
  quietly
    (diff_from_iterators Sample.rp
       (Sample.source GIT_ITERATOR_TREE [Sample.file_link])
       (Sample.source GIT_ITERATOR_INDEX [Sample.symlink_link])
       (Sample.options 0))
    (fun _ => True).
Proof.
  apply known_hashes_need_no_provider.
  - repeat constructor.
  - right. repeat constructor.
Defined.

(* ================================================================== *)
(** * One side empty, and a source against itself *)

Lemma advance_tracked (it : git_iterator) :
  is_workdir (it_type it) = false ->
  git_iterator_advance it = set_items it (tl (it_items it)).
Proof.
  intros Hwd. unfold git_iterator_advance. rewrite Hwd.
  destruct it as [t c [|i l]]; reflexivity.
Qed.

Lemma diff_delta__from_one_tracked (diff : git_diff_list)
    (st : git_delta_t) (e : git_index_entry) :
  st = GIT_DELTA_ADDED \/ st = GIT_DELTA_DELETED ->
  diff_delta__from_one diff st e
  = if passes_pathspec diff (e_path e)
    then git_vector_insert diff (delta_from_one diff st e) else diff.
Proof.
  unfold diff_delta__from_one, passes_pathspec.
  intros [-> | ->]; cbn [andb delta_t_eqb delta_t_to_int Z.eqb];
    match goal with
    | |- context [git_pathspec_match_path ?a ?b ?c ?d] =>
        destruct (git_pathspec_match_path a b c d)
    end; reflexivity.
Qed.

Lemma old_only_alone (s : loop_state) (o : git_index_entry) :
  old_only s o None
  = ret (mk_loop (diff_delta__from_one (ls_diff s) GIT_DELTA_DELETED o)
           (git_iterator_advance (ls_old s)) (ls_new s)
           (ls_ignore_prefix s)).
Proof.
  unfold old_only. cbn [entry_is_prefixed]. now rewrite andb_false_r.
Qed.

Lemma new_only_alone (s : loop_state) (n : git_index_entry) :
  ls_ignore_prefix s = EmptyString ->
  S_ISDIR (e_mode n) = false ->
  is_workdir (it_type (ls_new s)) = false ->
  new_only s None n
  = ret (mk_loop (diff_delta__from_one (ls_diff s) GIT_DELTA_ADDED n)
           (ls_old s) (git_iterator_advance (ls_new s)) EmptyString).
Proof.
  intros Hp Hdir Hwd. unfold new_only. cbv zeta.
  rewrite Hp, Hdir. cbn [String.length Z.of_nat Z.eqb negb andb].
  change (delta_t_eqb GIT_DELTA_UNTRACKED GIT_DELTA_IGNORED) with false.
  cbv iota. unfold git_iterator_current_is_ignored. rewrite Hwd.
  assert (Hno : match it_items (ls_new s) with
                | [] => false
                | i :: _ => false && si_ignored i
                end = false)
    by (destruct (it_items (ls_new s)); reflexivity).
  rewrite Hno. cbn [negb entry_is_prefixed]. now rewrite andb_false_r.
Qed.

Lemma single_sided_deltas_cons (diff : git_diff_list) (st : git_delta_t)
    (i : source_item) (l : list source_item) :
  single_sided_deltas diff st (i :: l)
  = (if passes_pathspec diff (e_path (si_entry i))
     then [delta_from_one diff st (si_entry i)] else [])
    ++ single_sided_deltas diff st l.
Proof.
  unfold single_sided_deltas. cbn [map filter].
  destruct (passes_pathspec diff (e_path (si_entry i))); reflexivity.
Qed.

(** One single-sided step of a sweep over a listing. *)
Lemma sweep_step (diff0 diff : git_diff_list) (st : git_delta_t)
    (i : source_item) (l all : list source_item) :
  st = GIT_DELTA_ADDED \/ st = GIT_DELTA_DELETED ->
  diff = set_deltas diff0 (deltas diff) ->
  deltas diff ++ single_sided_deltas diff0 st (i :: l)
  = single_sided_deltas diff0 st all ->
  let diff' := diff_delta__from_one diff st (si_entry i) in
  diff' = set_deltas diff0 (deltas diff')
  /\ deltas diff' ++ single_sided_deltas diff0 st l
     = single_sided_deltas diff0 st all.
Proof.
  intros Hst Heq Hsum. cbv zeta.
  rewrite (diff_delta__from_one_tracked diff st (si_entry i) Hst).
  rewrite single_sided_deltas_cons in Hsum.
  assert (Hp : passes_pathspec diff (e_path (si_entry i))
               = passes_pathspec diff0 (e_path (si_entry i)))
    by (rewrite Heq; reflexivity).
  assert (Hd : delta_from_one diff st (si_entry i)
               = delta_from_one diff0 st (si_entry i))
    by (rewrite Heq; reflexivity).
  rewrite Hp, Hd.
  destruct (passes_pathspec diff0 (e_path (si_entry i))).
  - unfold git_vector_insert. cbn [deltas set_deltas]. split.
    + rewrite Heq at 1. reflexivity.
    + rewrite <- app_assoc. exact Hsum.
  - split; [exact Heq | exact Hsum].
Qed.

Lemma alloc_succeeds (rp : git_repository)
    (options : option git_diff_options) :
  repo_config rp <> None ->
  exists diff, git_diff_list_alloc rp options = Some diff.
Proof.
  intros Hcfg. unfold git_diff_list_alloc.
  destruct (repo_config rp); [|congruence]. destruct options; eauto.
Qed.

Lemma listing_as_read_type (old_iter new_iter it : git_iterator) :
  is_workdir (it_type it) = false ->
  is_workdir (it_type (listing_as_read old_iter new_iter it)) = false.
Proof.
  intros Hwd. unfold listing_as_read.
  destruct (negotiated_icase old_iter new_iter && negb (ignore_case it));
    [reflexivity | exact Hwd].
Qed.

Lemma listing_as_read_empty (old_iter new_iter it : git_iterator) :
  it_items it = [] ->
  it_items (listing_as_read old_iter new_iter it) = [].
Proof.
  intros Hnil. unfold listing_as_read.
  destruct (negotiated_icase old_iter new_iter && negb (ignore_case it));
    [|exact Hnil].
  unfold git_iterator_spoolandsort. rewrite Hnil. reflexivity.
Qed.

Lemma current_of_empty (it : git_iterator) :
  it_items it = [] -> git_iterator_current it = None.
Proof. unfold git_iterator_current. now intros ->. Qed.

Lemma current_head (it : git_iterator) (e : git_index_entry) :
  git_iterator_current it = Some e ->
  exists i l, it_items it = i :: l /\ si_entry i = e.
Proof.
  unfold git_iterator_current. destruct (it_items it) as [|i l];
    [discriminate|].
  intros H. injection H as <-. now exists i, l.
Qed.

Lemma empty_new_source_run
    (rp : git_repository) (old_iter new_iter : git_iterator)
    (options : option git_diff_options) :
  repo_config rp <> None ->
  is_workdir (it_type old_iter) = false ->
  it_items new_iter = [] ->
  returns (diff_from_iterators rp old_iter new_iter options)
    (fun diff =>
       deltas diff
       = single_sided_deltas diff GIT_DELTA_DELETED
           (it_items (listing_as_read old_iter new_iter old_iter))).
Proof.
  intros Hcfg Hwd Hnil.
  destruct (alloc_succeeds rp options Hcfg) as [diff Halloc].
  destruct (diff_from_iterators_start rp old_iter new_iter options diff
              Halloc) as [Hnil0 ->].
  apply (listing_as_read_type old_iter new_iter) in Hwd.
  apply (listing_as_read_empty old_iter new_iter) in Hnil.
  set (diff0 := diff_list_init_from_iterators diff old_iter new_iter) in *.
  set (old_read := listing_as_read old_iter new_iter old_iter) in *.
  set (new_read := listing_as_read old_iter new_iter new_iter) in *.
  apply returns_bind.
  eapply returns_weaken;
    [|apply (diff_loop_passes (@returns loop_state)
               (@returns_ret loop_state) (@returns_bind _ _)
               (@returns_weaken _) (@returns_conj _)
               (fun s =>
                  it_items (ls_new s) = []
                  /\ ls_diff s = set_deltas diff0 (deltas (ls_diff s))
                  /\ deltas (ls_diff s)
                     ++ single_sided_deltas diff0 GIT_DELTA_DELETED
                          (it_items (ls_old s))
                     = single_sided_deltas diff0 GIT_DELTA_DELETED
                         (it_items old_read))
               (mk_loop diff0 old_read new_read EmptyString))].
  - intros s ((_ & Heq & Hsum) & Ho & _). apply returns_ret.
    rewrite Ho in Hsum. unfold single_sided_deltas at 1 in Hsum.
    cbn [map filter] in Hsum. rewrite app_nil_r in Hsum.
    rewrite Hsum, Heq. reflexivity.
  - intros s Lo _ (Hn & Heq & Hsum) Hsome. cbn [ls_old] in Lo.
    apply diff_iteration_cases; [| | |exact Hsome].
    + intros o Ho _. rewrite (current_of_empty _ Hn), old_only_alone.
      apply returns_ret. cbn [ls_new ls_diff ls_old].
      destruct (current_head _ _ Ho) as (i & l & Hitems & <-).
      destruct Lo as (Ht & _).
      rewrite advance_tracked by congruence.
      rewrite Hitems in *. cbn [it_items set_items tl].
      split; [exact Hn|].
      apply (sweep_step diff0 (ls_diff s) GIT_DELTA_DELETED i l
               (it_items old_read)); auto.
    + intros n Hcur. rewrite (current_of_empty _ Hn) in Hcur.
      discriminate.
    + intros o n _ Hcur. rewrite (current_of_empty _ Hn) in Hcur.
      discriminate.
  - apply later_in_refl.
  - apply later_in_refl.
  - cbn [ls_new ls_diff ls_old]. split; [exact Hnil|].
    split; [destruct diff0; reflexivity|]. now rewrite Hnil0.
  - right. cbn [ls_new]. unfold no_directories. rewrite Hnil. constructor.
  - unfold loop_measure. cbn [ls_old ls_new]. lia.
Qed.

(** A compare run of an old tree or index against an empty new source
    consults no provider and ends, and the diff list of a run that
    succeeds holds one deleted delta (an added one under the reverse
    flag) for every entry of the old listing, as the loop reads it,
    whose path passes the pathspec, in the order of that listing, and
    nothing else. *)
Theorem empty_new_source_deletes_every_entry
    (rp : git_repository) (old_iter new_iter : git_iterator)
    (options : option git_diff_options) :
  is_workdir (it_type old_iter) = false ->
  it_items new_iter = [] ->
  quietly (diff_from_iterators rp old_iter new_iter options)
    (fun diff =>
       deltas diff
       = single_sided_deltas diff GIT_DELTA_DELETED
           (it_items (listing_as_read old_iter new_iter old_iter))).
Proof.
  intros Hwd Hnil. apply quietly_run. intros Hcfg.
  now apply empty_new_source_run.
Qed.

Lemma empty_new_source_deletes_every_entry_witness :
  quietly
    (diff_from_iterators Sample.rp Sample.index_two_files
       (Sample.source GIT_ITERATOR_WORKDIR []) (Sample.options 0))
    (fun diff =>
       deltas diff
       = single_sided_deltas diff GIT_DELTA_DELETED
           (it_items Sample.index_two_files))
  /\ option_map (map status)
       (Sample.deltas_of
          (diff_from_iterators Sample.rp Sample.index_two_files
             (Sample.source GIT_ITERATOR_WORKDIR []) (Sample.options 0)))
     = Some [GIT_DELTA_DELETED; GIT_DELTA_DELETED].
Proof.
  split; [|reflexivity].
  apply (empty_new_source_deletes_every_entry Sample.rp
           Sample.index_two_files (Sample.source GIT_ITERATOR_WORKDIR [])
           (Sample.options 0)).
  - reflexivity.
  - reflexivity.
Defined.

Lemma empty_old_source_run
    (rp : git_repository) (old_iter new_iter : git_iterator)
    (options : option git_diff_options) :
  repo_config rp <> None ->
  it_items old_iter = [] ->
  is_workdir (it_type new_iter) = false ->
  no_directories (it_items new_iter) ->
  returns (diff_from_iterators rp old_iter new_iter options)
    (fun diff =>
       deltas diff
       = single_sided_deltas diff GIT_DELTA_ADDED
           (it_items (listing_as_read old_iter new_iter new_iter))).
Proof.
  intros Hcfg Hnil Hwd Hnone.
  destruct (alloc_succeeds rp options Hcfg) as [diff Halloc].
  destruct (diff_from_iterators_start rp old_iter new_iter options diff
              Halloc) as [Hnil0 ->].
  destruct (listing_as_read_tracked old_iter new_iter new_iter Hwd Hnone)
    as [Hwd' Hnone'].
  apply (listing_as_read_empty old_iter new_iter) in Hnil.
  set (diff0 := diff_list_init_from_iterators diff old_iter new_iter) in *.
  set (old_read := listing_as_read old_iter new_iter old_iter) in *.
  set (new_read := listing_as_read old_iter new_iter new_iter) in *.
  apply returns_bind.
  eapply returns_weaken;
    [|apply (diff_loop_passes (@returns loop_state)
               (@returns_ret loop_state) (@returns_bind _ _)
               (@returns_weaken _) (@returns_conj _)
               (fun s =>
                  it_items (ls_old s) = []
                  /\ ls_ignore_prefix s = EmptyString
                  /\ ls_diff s = set_deltas diff0 (deltas (ls_diff s))
                  /\ deltas (ls_diff s)
                     ++ single_sided_deltas diff0 GIT_DELTA_ADDED
                          (it_items (ls_new s))
                     = single_sided_deltas diff0 GIT_DELTA_ADDED
                         (it_items new_read))
               (mk_loop diff0 old_read new_read EmptyString))].
  - intros s ((_ & _ & Heq & Hsum) & _ & Hn). apply returns_ret.
    rewrite Hn in Hsum. unfold single_sided_deltas at 1 in Hsum.
    cbn [map filter] in Hsum. rewrite app_nil_r in Hsum.
    rewrite Hsum, Heq. reflexivity.
  - intros s _ Ln (Ho & Hp & Heq & Hsum) Hsome. cbn [ls_new] in Ln.
    apply diff_iteration_cases; [| | |exact Hsome].
    + intros o Hcur. rewrite (current_of_empty _ Ho) in Hcur.
      discriminate.
    + intros n Hn _.
      assert (Hdir : S_ISDIR (e_mode n) = false)
        by exact (later_in_current _ _ n
                    (fun e => S_ISDIR (e_mode e) = false) Ln Hnone' Hn).
      destruct (current_head _ _ Hn) as (i & l & Hitems & <-).
      destruct Ln as (Ht & _).
      rewrite (current_of_empty _ Ho), new_only_alone by congruence.
      apply returns_ret. cbn [ls_new ls_diff ls_old ls_ignore_prefix].
      rewrite advance_tracked by congruence.
      rewrite Hitems in *. cbn [it_items set_items tl].
      split; [exact Ho|]. split; [reflexivity|].
      apply (sweep_step diff0 (ls_diff s) GIT_DELTA_ADDED i l
               (it_items new_read)); auto.
    + intros o n Hcur. rewrite (current_of_empty _ Ho) in Hcur.
      discriminate.
  - apply later_in_refl.
  - apply later_in_refl.
  - cbn [ls_new ls_diff ls_old ls_ignore_prefix]. split; [exact Hnil|].
    split; [reflexivity|].
    split; [destruct diff0; reflexivity|]. now rewrite Hnil0.
  - right. exact Hnone'.
  - unfold loop_measure. cbn [ls_old ls_new]. lia.
Qed.

(** A compare run of an empty old source against a new tree or index
    that lists no directory consults no provider and ends, and the diff
    list of a run that succeeds holds one added delta (a deleted one
    under the reverse flag) for every entry of the new listing, as the
    loop reads it, whose path passes the pathspec, in the order of that
    listing, and nothing else. *)
Theorem empty_old_source_adds_every_entry
    (rp : git_repository) (old_iter new_iter : git_iterator)
    (options : option git_diff_options) :
  it_items old_iter = [] ->
  is_workdir (it_type new_iter) = false ->
  no_directories (it_items new_iter) ->
  quietly (diff_from_iterators rp old_iter new_iter options)
    (fun diff =>
       deltas diff
       = single_sided_deltas diff GIT_DELTA_ADDED
           (it_items (listing_as_read old_iter new_iter new_iter))).
Proof.
  intros Hnil Hwd Hnone. apply quietly_run. intros Hcfg.
  now apply empty_old_source_run.
Qed.

Lemma empty_old_source_adds_every_entry_witness :
  quietly
    (diff_from_iterators Sample.rp (Sample.source GIT_ITERATOR_TREE [])
       Sample.index_two_files (Sample.options GIT_DIFF_REVERSE))
    (fun diff =>
       deltas diff
       = single_sided_deltas diff GIT_DELTA_ADDED
           (it_items Sample.index_two_files))
  /\ option_map (map status)
       (Sample.deltas_of
          (diff_from_iterators Sample.rp (Sample.source GIT_ITERATOR_TREE [])
             Sample.index_two_files (Sample.options GIT_DIFF_REVERSE)))
     = Some [GIT_DELTA_DELETED; GIT_DELTA_DELETED].
Proof.
  split; [|reflexivity].
  apply (empty_old_source_adds_every_entry Sample.rp
           (Sample.source GIT_ITERATOR_TREE []) Sample.index_two_files
           (Sample.options GIT_DIFF_REVERSE)).
  - reflexivity.
  - reflexivity.
  - repeat constructor.
Defined.

(** An entry against itself is unmodified, and dropped when unmodified
    deltas are not asked for. *)
Lemma maybe_modified_same_entry (old_iter new_iter : git_iterator)
    (o : git_index_entry) (diff : git_diff_list) :
  flag_set (diff_flags diff) GIT_DIFF_INCLUDE_UNMODIFIED = false ->
  flag_set (e_flags_extended o) GIT_IDXENTRY_INTENT_TO_ADD = false ->
  maybe_modified old_iter o new_iter o diff = ret diff.
Proof.
  intros Hun Hita. unfold maybe_modified.
  match goal with
  | |- (if ?c then _ else _) = _ => destruct c
  end; [reflexivity|].
  cbv zeta. rewrite normalized_nmode_same.
  unfold classify_chain. rewrite Hita.
  unfold git_oid_equal. rewrite !Z.eqb_refl. cbn [negb andb].
  assert (Hdrop : diff_delta__from_two diff GIT_DELTA_UNMODIFIED o
                    (e_mode o) o (e_mode o) None = diff).
  { unfold diff_delta__from_two. rewrite Hun. reflexivity. }
  destruct (flag_set (diffcaps diff) GIT_DIFFCAPS_ASSUME_UNCHANGED);
    [|destruct (flag_set (e_flags_extended o) GIT_IDXENTRY_SKIP_WORKTREE)];
    rewrite !bind_ret_l; cbv beta iota;
    change (delta_t_eqb GIT_DELTA_UNMODIFIED GIT_DELTA_UNMODIFIED)
      with true;
    cbn [negb andb]; rewrite !bind_ret_l; cbv beta iota;
    now rewrite Hdrop.
Qed.

(** The loop over a source paired with itself: every pass is a matched
    one, and none of them adds a delta. *)
Lemma self_compare_loop (diff0 : git_diff_list) :
  flag_set (diff_flags diff0) GIT_DIFF_INCLUDE_UNMODIFIED = false ->
  (forall e, entrycomp diff0 e e = 0) ->
  forall (fuel : nat) (it : git_iterator) (prefix : string),
    Forall not_intent_to_add (it_items it) ->
    (List.length (it_items it) <= fuel)%nat ->
    returns (diff_loop fuel (mk_loop diff0 it it prefix))
      (fun s => ls_diff s = diff0).
Proof.
  intros Hflag Hrefl.
  induction fuel as [|fuel IH]; intros it prefix Hita Hlen.
  - destruct (it_items it) as [|i l] eqn:Hitems; [|simpl in Hlen; lia].
    cbn [diff_loop ls_old ls_new]. unfold git_iterator_current.
    rewrite Hitems. now apply returns_ret.
  - cbn [diff_loop ls_old ls_new]. unfold git_iterator_current.
    destruct (it_items it) as [|i l] eqn:Hitems;
      [now apply returns_ret|].
    apply Forall_cons_iff in Hita as [Hi Hl].
    unfold diff_iteration. cbn [ls_old ls_new ls_diff].
    unfold git_iterator_current. rewrite Hitems, Hrefl.
    change (0 <? 0) with false. change (0 >? 0) with false. cbv iota.
    unfold matched. cbn [ls_old ls_new ls_diff ls_ignore_prefix].
    rewrite maybe_modified_same_entry; [|exact Hflag | exact Hi].
    rewrite !bind_ret_l.
    destruct (git_iterator_advance_suffix it i l Hitems)
      as (_ & _ & pre & Hpre).
    apply IH.
    + rewrite Hpre in Hl. now apply Forall_app in Hl as [_ Hl].
    + assert (Hshort := advance_shortens it). rewrite Hitems in Hshort.
      specialize (Hshort ltac:(discriminate)). simpl in Hshort, Hlen. lia.
Qed.

Lemma self_compare_run
    (rp : git_repository) (it : git_iterator)
    (options : option git_diff_options) :
  repo_config rp <> None ->
  flag_set (requested_flags options) GIT_DIFF_INCLUDE_UNMODIFIED = false ->
  Forall not_intent_to_add (it_items it) ->
  returns (diff_from_iterators rp it it options)
    (fun diff => deltas diff = []).
Proof.
  intros Hcfg Hun Hita.
  destruct (alloc_succeeds rp options Hcfg) as [diff Halloc].
  destruct (diff_from_iterators_start rp it it options diff Halloc)
    as [Hnil0 ->].
  assert (Hread : listing_as_read it it it = it).
  { unfold listing_as_read, negotiated_icase.
    destruct (ignore_case it); reflexivity. }
  rewrite Hread.
  destruct (diff_list_init_from_iterators_facts diff it it)
    as (_ & _ & Hecmp & _).
  assert (Hflag : flag_set (diff_flags (diff_list_init_from_iterators
                                          diff it it))
                    GIT_DIFF_INCLUDE_UNMODIFIED = false).
  { unfold GIT_DIFF_INCLUDE_UNMODIFIED in *.
    rewrite diff_list_init_from_iterators_flags by lia.
    rewrite (git_diff_list_alloc_flags rp options diff Halloc).
    destruct (flag_set (requested_flags options)
                GIT_DIFF_INCLUDE_TYPECHANGE_TREES); [|exact Hun].
    unfold GIT_DIFF_INCLUDE_TYPECHANGE. rewrite flag_set_lor by lia.
    rewrite Hun. reflexivity. }
  set (diff0 := diff_list_init_from_iterators diff it it) in *.
  assert (Hrefl : forall e, entrycomp diff0 e e = 0).
  { intros e. rewrite Hecmp.
    apply (po_refl _ (negotiated_strcomp_order it it)). }
  apply returns_bind.
  eapply returns_weaken;
    [|apply (self_compare_loop diff0 Hflag Hrefl); [exact Hita|]].
  - intros s ->. apply returns_ret. exact Hnil0.
  - unfold loop_fuel. lia.
Qed.

(** A compare run of a source against itself, whatever entries the
    source lists and in whatever order, consults no provider and ends,
    and the diff list of a run that succeeds holds no delta, when
    unmodified deltas are not asked for and no entry is flagged
    intent-to-add. *)
Theorem source_against_itself_reports_nothing
    (rp : git_repository) (it : git_iterator)
    (options : option git_diff_options) :
  flag_set (requested_flags options) GIT_DIFF_INCLUDE_UNMODIFIED = false ->
  Forall not_intent_to_add (it_items it) ->
  quietly (diff_from_iterators rp it it options)
    (fun diff => deltas diff = []).
Proof.
  intros Hun Hita. apply quietly_run. intros Hcfg.
  now apply self_compare_run.
Qed.

Lemma source_against_itself_reports_nothing_witness :
  quietly
    (diff_from_iterators Sample.rp Sample.workdir_with_changes
       Sample.workdir_with_changes
       (Sample.options Sample.report_everything))
    (fun diff => deltas diff = [])
  /\ Sample.deltas_of
       (diff_from_iterators Sample.rp Sample.workdir_with_changes
          Sample.workdir_with_changes
          (Sample.options Sample.report_everything))
     = Some [].
Proof.
  split; [|reflexivity].
  apply source_against_itself_reports_nothing.
  - reflexivity.
  - repeat constructor.
Defined.

(* ================================================================== *)
(** * The content hasher and the hash it overrides with *)

(** For a submodule entry the content hasher never fails: it answers the
    hash the submodule has checked out, and the zero hash when the
    submodule is unknown or has none. *)
Theorem submodule_hash_never_fails
    (rp : git_repository) (path : string) (mode size : Z) :
  to_uint16 mode <> 0 ->
  S_ISGITLINK (to_uint16 mode) = true ->
  git_diff__oid_for_file rp path mode size
  = ([Call_oid_for_file path mode size; Call_submodule_lookup path],
     Ok (match repo_submodule_lookup rp path with
         | Some sm =>
             match sm_wd_oid sm with Some h => h | None => 0 end
         | None => 0
         end)).
Proof.
  intros Hmode Hlink. unfold git_diff__oid_for_file.
  destruct (Z.eqb_spec (to_uint16 mode) 0) as [E|_]; [contradiction|].
  unfold tell, ret, bind. rewrite Hlink.
  destruct (repo_submodule_lookup rp path) as [sm|]; [|reflexivity].
  destruct (sm_wd_oid sm); reflexivity.
Qed.

Lemma submodule_hash_never_fails_witness :
  git_diff__oid_for_file Sample.rp "sub" GIT_FILEMODE_COMMIT 0
  = ([Call_oid_for_file "sub" GIT_FILEMODE_COMMIT 0;
      Call_submodule_lookup "sub"], Ok 0).
Proof.
  apply (submodule_hash_never_fails Sample.rp "sub" GIT_FILEMODE_COMMIT 0).
  - discriminate.
  - reflexivity.
Defined.

(** Called without a mode, the content hasher takes mode and size from
    the file system: it ends as the call with the mode and size that
    [p_stat] reports does, and fails when the file cannot be examined. *)
Theorem hasher_without_mode_uses_stat
    (rp : git_repository) (path : string) (mode size : Z) :
  to_uint16 mode = 0 ->
  match repo_stat rp path with
  | None => snd (git_diff__oid_for_file rp path mode size) = Error
  | Some (st_mode, st_size) =>
      to_uint16 st_mode <> 0 ->
      snd (git_diff__oid_for_file rp path mode size)
      = snd (git_diff__oid_for_file rp path st_mode st_size)
  end.
Proof.
  intros Hmode. unfold git_diff__oid_for_file. rewrite Hmode.
  change (0 =? 0) with true. cbv iota.
  destruct (repo_stat rp path) as [[st_mode st_size]|]; [|reflexivity].
  intros Hst.
  destruct (Z.eqb_spec (to_uint16 st_mode) 0) as [E|_]; [contradiction|].
  unfold tell, ret, bind.
  repeat match goal with
         | |- context [let (_, _) := ?m in _] => destruct m
         end.
  reflexivity.
Qed.

Lemma hasher_without_mode_uses_stat_witness :
  snd (git_diff__oid_for_file Sample.repo_with_files "a.txt" 0 0)
  = snd (git_diff__oid_for_file Sample.repo_with_files "a.txt" 33188 12).
Proof.
  apply (hasher_without_mode_uses_stat Sample.repo_with_files "a.txt" 0 0
           eq_refl).
  discriminate.
Defined.

(** A file whose stat data changed but whose content hashes to the hash
    on the old side is not reported as modified: the classifier asks the
    hasher once, finds the hashes and modes equal, and, unmodified
    deltas not being asked for, leaves the diff list as it is. *)
Theorem rehashed_identical_content_is_unmodified
    (old_iter new_iter : git_iterator) (o n : git_index_entry)
    (diff : git_diff_list) (calls : list provider_call) :
  passes_pathspec diff (e_path o) = true ->
  flag_set (diffcaps diff) GIT_DIFFCAPS_ASSUME_UNCHANGED = false ->
  flag_set (e_flags_extended o) GIT_IDXENTRY_SKIP_WORKTREE = false ->
  flag_set (diff_flags diff) GIT_DIFF_INCLUDE_UNMODIFIED = false ->
  e_mode n = e_mode o ->
  S_ISGITLINK (e_mode o) = false ->
  git_oid_iszero (e_oid n) = true ->
  git_oid_iszero (e_oid o) = false ->
  stat_looks_alike diff o n (e_mode o) (e_mode o) = false ->
  git_diff__oid_for_file (repo diff) (e_path n) (e_mode n) (e_file_size n)
  = (calls, Ok (e_oid o)) ->
  maybe_modified old_iter o new_iter n diff = (calls, Ok diff).
Proof.
  intros Hps Hassume Hskip Hun Hmode Hlink Hnz Hoz Hstat Hhash.
  unfold maybe_modified. fold (passes_pathspec diff (e_path o)).
  rewrite Hps. cbn [negb]. cbv zeta. rewrite Hmode, normalized_nmode_same.
  unfold classify_chain. rewrite Hassume, Hskip, Hnz, Hstat, Hlink.
  rewrite !Z.eqb_refl. cbn [negb andb].
  assert (Hne : git_oid_equal (e_oid o) (e_oid n) = false).
  { unfold git_oid_equal, git_oid_iszero in *.
    apply Z.eqb_eq in Hnz. rewrite Hnz. exact Hoz. }
  rewrite Hne. rewrite Hmode in Hhash.
  assert (Hdrop : forall noid,
    diff_delta__from_two diff GIT_DELTA_UNMODIFIED o (e_mode o) n (e_mode o)
      noid = diff).
  { intros noid. unfold diff_delta__from_two. rewrite Hun. reflexivity. }
  destruct (is_workdir (it_type new_iter)); cbn [andb];
    rewrite bind_ret_l; cbv beta iota;
    change (delta_t_eqb GIT_DELTA_MODIFIED GIT_DELTA_UNMODIFIED) with false;
    cbn [negb andb]; rewrite Hhash; unfold bind, ret; cbn [app];
    unfold git_oid_equal; rewrite ?Z.eqb_refl; cbn [andb];
    rewrite Hdrop, ?app_nil_r; reflexivity.
Qed.

Lemma rehashed_identical_content_is_unmodified_witness :
  let indexed :=
    mk_entry 100 200 1 42 33188 1000 1000 12 7 0 "a.txt" in
  let touched :=
    mk_entry 100 999 1 42 33188 1000 1000 12 0 0 "a.txt" in
  maybe_modified (Sample.source GIT_ITERATOR_INDEX [indexed]) indexed
    (Sample.source GIT_ITERATOR_WORKDIR [touched]) touched
    (Sample.diff_with 0 0 GIT_ITERATOR_WORKDIR)
  = ([Call_oid_for_file "a.txt" 33188 12],
     Ok (Sample.diff_with 0 0 GIT_ITERATOR_WORKDIR)).
Proof.
  cbv zeta.
  apply rehashed_identical_content_is_unmodified; reflexivity.
Defined.

(* ================================================================== *)
(** * Visiting and dropping stashed states *)

Lemma stash_loop_visits {payload_t : Type}
    (callback : nat -> string -> git_oid -> payload_t -> Z * payload_t)
    (reflog : list Stash.git_reflog_entry) (max : nat) (indices : list nat) :
  forall payload,
    Stash.stash_loop payload_t callback reflog max indices payload
    = Stash.visit_in_order callback
        (combine indices
           (map (fun i => nth (max - i - 1) reflog Stash.null_entry)
              indices))
        payload.
Proof.
  induction indices as [|i rest IH]; intros payload; [reflexivity|].
  cbn [Stash.stash_loop Stash.visit_in_order map combine].
  destruct (callback i _ _ payload) as [rc payload'].
  destruct (negb (rc =? 0)); [reflexivity | apply IH].
Qed.

Lemma map_nth_seq {A} (l : list A) (d : A) :
  map (fun i => nth i l d) (seq 0 (List.length l)) = l.
Proof.
  induction l as [|a l IH]; [reflexivity|].
  cbn [List.length seq map nth]. f_equal.
  rewrite <- seq_shift, map_map. exact IH.
Qed.

Lemma newest_first (l : list Stash.git_reflog_entry) :
  map (fun i => nth (List.length l - i - 1) l Stash.null_entry)
    (seq 0 (List.length l))
  = rev l.
Proof.
  rewrite <- (map_nth_seq (rev l) Stash.null_entry) at 1.
  rewrite length_rev. apply map_ext_in. intros i Hi.
  apply in_seq in Hi. rewrite rev_nth by lia. f_equal. lia.
Qed.

Lemma stash_foreach_visits_newest_first_aux
    (payload_t : Type)
    (callback : nat -> string -> git_oid -> payload_t -> Z * payload_t)
    (rp : Stash.stash_repository) (stash : Stash.git_reference)
    (reflog : list Stash.git_reflog_entry) (payload : payload_t) :
  Stash.reference_lookup rp Stash.GIT_REFS_STASH_FILE = inr stash ->
  Stash.ref_reflog stash = inr reflog ->
  Stash.git_stash_foreach payload_t callback rp payload
  = Stash.visit_in_order callback
      (combine (seq 0 (List.length reflog)) (rev reflog)) payload.
Proof.
  intros Href Hlog.
  unfold Stash.git_stash_foreach, Stash.git_reference_lookup,
    Stash.git_reflog_read.
  rewrite Href, Hlog. cbn [Z.eqb Z.ltb Z.compare GIT_ENOTFOUND].
  change (0 =? GIT_ENOTFOUND) with false. cbv iota.
  rewrite stash_loop_visits, newest_first. reflexivity.
Qed.

(** [git_stash_foreach] shows the visitor the entries of the stash
    reflog newest first, numbered from zero, and stops with the
    user-cancellation code at the first visit that does not return
    zero. *)
Theorem stash_foreach_visits_newest_first
    (payload_t : Type)
    (callback : nat -> string -> git_oid -> payload_t -> Z * payload_t)
    (rp : Stash.stash_repository) (stash : Stash.git_reference)
    (reflog : list Stash.git_reflog_entry) (payload : payload_t) :
  Stash.reference_lookup rp Stash.GIT_REFS_STASH_FILE = inr stash ->
  Stash.ref_reflog stash = inr reflog ->
  Stash.git_stash_foreach payload_t callback rp payload
  = Stash.visit_in_order callback
      (combine (seq 0 (List.length reflog)) (rev reflog)) payload.
Proof. apply stash_foreach_visits_newest_first_aux. Qed.

Lemma stash_foreach_visits_newest_first_witness :
  Stash.git_stash_foreach _ Stash.record_visit Sample.two_stashes []
  = (0, [(0%nat, "newer"%string, 2); (1%nat, "older"%string, 1)]).
Proof.
  rewrite (stash_foreach_visits_newest_first _ Stash.record_visit
             Sample.two_stashes _ _ [] eq_refl eq_refl).
  reflexivity.
Defined.

Lemma visit_in_order_record (l : list (nat * Stash.git_reflog_entry)) :
  forall seen,
    Stash.visit_in_order Stash.record_visit l seen
    = (0, seen
          ++ map (fun ie =>
                    (fst ie, Stash.entry_msg (snd ie),
                     Stash.entry_oidnew (snd ie))) l).
Proof.
  induction l as [|[i e] l IH]; intros seen.
  - simpl. now rewrite app_nil_r.
  - cbn [Stash.visit_in_order Stash.record_visit map fst snd].
    change (negb (0 =? 0)) with false. cbv iota.
    rewrite IH, <- app_assoc. reflexivity.
Qed.

Lemma nth_error_combine_seq {A} (l : list A) (n k : nat) (x : A) :
  (k < n)%nat -> nth_error l k = Some x ->
  nth_error (combine (seq 0 n) l) k = Some (k, x).
Proof.
  intros Hk Hx.
  assert (Hgen : forall a n l k,
    (k < n)%nat -> nth_error l k = Some x ->
    nth_error (combine (seq a n) l) k = Some ((a + k)%nat, x)).
  { clear. intros a n. revert a.
    induction n as [|n IH]; intros a l k Hk Hx; [lia|].
    destruct l as [|y l]; [destruct k; discriminate|].
    destruct k as [|k]; simpl in *.
    - injection Hx as ->. now rewrite Nat.add_0_r.
    - rewrite (IH (S a) l k) by (auto; lia). do 2 f_equal. lia. }
  exact (Hgen 0%nat n l k Hk Hx).
Qed.

Lemma size_sub_small (a b : Z) :
  0 <= b <= a -> a < Stash.SIZE_MODULUS -> Stash.size_sub a b = a - b.
Proof.
  intros Hb Ha. unfold Stash.size_sub. apply Z.mod_small. lia.
Qed.

Lemma stash_drop_unfold (rp : Stash.stash_repository)
    (io : Stash.drop_results) (index : Z) (stash : Stash.git_reference)
    (reflog : list Stash.git_reflog_entry) :
  Stash.reference_lookup rp Stash.GIT_REFS_STASH_FILE = inr stash ->
  Stash.ref_reflog stash = inr reflog ->
  Stash.git_stash_drop rp io index
  = let max := Z.of_nat (List.length reflog) in
    if index >? Stash.size_sub max 1 then ([], GIT_ENOTFOUND)
    else
      let idx := Stash.size_sub (Stash.size_sub max index) 1 in
      if Stash.reflog_drop_result io idx <? 0
      then ([Stash.Call_reflog_drop idx true],
            Stash.reflog_drop_result io idx)
      else if Stash.reflog_write_result io <? 0
      then ([Stash.Call_reflog_drop idx true; Stash.Call_reflog_write],
            Stash.reflog_write_result io)
      else if max =? 1
      then ([Stash.Call_reflog_drop idx true; Stash.Call_reflog_write;
             Stash.Call_reference_delete],
            Stash.reference_delete_result io)
      else ([Stash.Call_reflog_drop idx true; Stash.Call_reflog_write],
            Stash.reflog_write_result io).
Proof.
  intros Href Hlog.
  unfold Stash.git_stash_drop, Stash.git_reference_lookup,
    Stash.git_reflog_read.
  rewrite Href, Hlog. reflexivity.
Qed.

(** On a stash with at least one state, [git_stash_drop] answers
    not-found for a position at or past the number of states, and makes
    no call on the reflog or the reference. *)
Theorem stash_drop_rejects_position_past_oldest
    (rp : Stash.stash_repository) (io : Stash.drop_results) (k : Z)
    (stash : Stash.git_reference) (reflog : list Stash.git_reflog_entry) :
  Stash.reference_lookup rp Stash.GIT_REFS_STASH_FILE = inr stash ->
  Stash.ref_reflog stash = inr reflog ->
  reflog <> [] ->
  Z.of_nat (List.length reflog) <= k ->
  k < Stash.SIZE_MODULUS ->
  Stash.git_stash_drop rp io k = ([], GIT_ENOTFOUND).
Proof.
  intros Href Hlog Hsome Hk Hsize.
  rewrite (stash_drop_unfold rp io k stash reflog Href Hlog). cbv zeta.
  assert (0 < Z.of_nat (List.length reflog))
    by (destruct reflog; [congruence | simpl; lia]).
  rewrite size_sub_small by lia.
  destruct (Z.gtb_spec k (Z.of_nat (List.length reflog) - 1));
    [reflexivity | lia].
Qed.

Lemma stash_drop_rejects_position_past_oldest_witness :
  Stash.git_stash_drop Sample.two_stashes Sample.drop_succeeds 2
  = ([], GIT_ENOTFOUND).
Proof.
  apply (stash_drop_rejects_position_past_oldest Sample.two_stashes
           Sample.drop_succeeds 2 _ _ eq_refl eq_refl).
  - discriminate.
  - simpl. lia.
  - reflexivity.
Defined.

(** For a position below the number of states, [git_stash_drop] first
    asks [git_reflog_drop], with the rewrite toggle set, for the reflog
    position that holds the very entry [git_stash_foreach] shows under
    that number. *)
Theorem stash_drop_asks_for_the_state_foreach_numbers
    (rp : Stash.stash_repository) (io : Stash.drop_results) (k : nat)
    (stash : Stash.git_reference) (reflog : list Stash.git_reflog_entry) :
  Stash.reference_lookup rp Stash.GIT_REFS_STASH_FILE = inr stash ->
  Stash.ref_reflog stash = inr reflog ->
  (k < List.length reflog)%nat ->
  Z.of_nat (List.length reflog) < Stash.SIZE_MODULUS ->
  let idx := (List.length reflog - k - 1)%nat in
  let dropped := nth idx reflog Stash.null_entry in
  (exists rest,
      fst (Stash.git_stash_drop rp io (Z.of_nat k))
      = Stash.Call_reflog_drop (Z.of_nat idx) true :: rest)
  /\ nth_error (snd (Stash.git_stash_foreach _ Stash.record_visit rp [])) k
     = Some (k, Stash.entry_msg dropped, Stash.entry_oidnew dropped).
Proof.
  intros Href Hlog Hk Hsize. cbv zeta. split.
  - rewrite (stash_drop_unfold rp io _ stash reflog Href Hlog). cbv zeta.
    rewrite (size_sub_small _ 1) by lia.
    rewrite (size_sub_small _ (Z.of_nat k)) by lia.
    rewrite (size_sub_small _ 1) by lia.
    destruct (Z.gtb_spec (Z.of_nat k) (Z.of_nat (List.length reflog) - 1));
      [lia|].
    replace (Z.of_nat (List.length reflog) - Z.of_nat k - 1)
      with (Z.of_nat (List.length reflog - k - 1)) by lia.
    repeat match goal with
           | |- context [if ?c then _ else _] => destruct c
           end; eexists; reflexivity.
  - rewrite (stash_foreach_visits_newest_first_aux _ Stash.record_visit rp
               stash reflog [] Href Hlog).
    rewrite visit_in_order_record. cbn [snd app].
    rewrite nth_error_map.
    assert (Hnth : nth_error (combine (seq 0 (List.length reflog))
                                (rev reflog)) k
                   = Some (k, nth (List.length reflog - k - 1) reflog
                                Stash.null_entry)).
    { apply nth_error_combine_seq; [exact Hk|].
      rewrite nth_error_nth' with (d := Stash.null_entry)
        by (rewrite length_rev; exact Hk).
      rewrite rev_nth by exact Hk. do 2 f_equal. lia. }
    rewrite Hnth. reflexivity.
Qed.

Lemma stash_drop_asks_for_the_state_foreach_numbers_witness :
  (exists rest,
      fst (Stash.git_stash_drop Sample.two_stashes Sample.drop_succeeds 0)
      = Stash.Call_reflog_drop 1 true :: rest)
  /\ nth_error
       (snd (Stash.git_stash_foreach _ Stash.record_visit
               Sample.two_stashes [])) 0
     = Some (0%nat, "newer"%string, 2).
Proof.
  apply (stash_drop_asks_for_the_state_foreach_numbers Sample.two_stashes
           Sample.drop_succeeds 0 _ _ eq_refl eq_refl).
  - simpl. lia.
  - reflexivity.
Defined.

(** [git_stash_drop] deletes the stash reference exactly when it has
    dropped and written the only state there was; its answer is then
    that of the deletion. *)
Theorem stash_drop_deletes_reference_with_last_state
    (rp : Stash.stash_repository) (io : Stash.drop_results) (k : Z)
    (stash : Stash.git_reference) (reflog : list Stash.git_reflog_entry) :
  Stash.reference_lookup rp Stash.GIT_REFS_STASH_FILE = inr stash ->
  Stash.ref_reflog stash = inr reflog ->
  0 <= k < Stash.SIZE_MODULUS ->
  Z.of_nat (List.length reflog) < Stash.SIZE_MODULUS ->
  (In Stash.Call_reference_delete (fst (Stash.git_stash_drop rp io k))
   <-> List.length reflog = 1%nat /\ k = 0
       /\ 0 <= Stash.reflog_drop_result io 0
       /\ 0 <= Stash.reflog_write_result io)
  /\ (In Stash.Call_reference_delete (fst (Stash.git_stash_drop rp io k)) ->
      snd (Stash.git_stash_drop rp io k) = Stash.reference_delete_result io).
Proof.
  intros Href Hlog Hk Hsize.
  rewrite (stash_drop_unfold rp io k stash reflog Href Hlog). cbv zeta.
  assert (Hno1 : forall idx b,
    ~ In Stash.Call_reference_delete [Stash.Call_reflog_drop idx b])
    by (intros idx b [H | []]; discriminate).
  assert (Hno2 : forall idx b,
    ~ In Stash.Call_reference_delete
        [Stash.Call_reflog_drop idx b; Stash.Call_reflog_write])
    by (intros idx b [H | [H | []]]; discriminate).
  destruct (Z.eqb_spec (Z.of_nat (List.length reflog)) 1) as [E1|E1].
  - rewrite E1. change (Stash.size_sub 1 1) with 0.
    destruct (Z.gtb_spec k 0) as [Hgt|Hle].
    + split; [|intros []]. split; [intros []|]. lia.
    + assert (k = 0) as -> by lia.
      change (Stash.size_sub (Stash.size_sub 1 0) 1) with 0.
      destruct (Z.ltb_spec (Stash.reflog_drop_result io 0) 0);
        [split; [split; [intros Hin; now apply Hno1 in Hin | lia]
                |intros Hin; now apply Hno1 in Hin]|].
      destruct (Z.ltb_spec (Stash.reflog_write_result io) 0);
        [split; [split; [intros Hin; now apply Hno2 in Hin | lia]
                |intros Hin; now apply Hno2 in Hin]|].
      split; [|reflexivity].
      split; [intros _; repeat split; lia|].
      intros _. right. right. now left.
  - repeat match goal with
           | |- context [if ?c then _ else _] => destruct c
           end; cbn [fst snd];
      (split; [split; [intros Hin; try contradiction;
                       try (now apply Hno1 in Hin);
                       try (now apply Hno2 in Hin)
                      | lia]
              |intros Hin; try contradiction; try (now apply Hno1 in Hin);
               try (now apply Hno2 in Hin)]).
Qed.

Lemma stash_drop_deletes_reference_with_last_state_witness :
  In Stash.Call_reference_delete
    (fst (Stash.git_stash_drop Sample.one_stash Sample.drop_succeeds 0))
  /\ ~ In Stash.Call_reference_delete
         (fst (Stash.git_stash_drop Sample.two_stashes
                 Sample.drop_succeeds 0)).
Proof.
  assert (Hk : 0 <= 0 < Stash.SIZE_MODULUS)
    by (split; [lia | reflexivity]).
  split.
  - destruct (stash_drop_deletes_reference_with_last_state
                Sample.one_stash Sample.drop_succeeds 0 _ _ eq_refl eq_refl
                Hk eq_refl) as [[_ Hback] _].
    apply Hback. repeat split; simpl; lia.
  - destruct (stash_drop_deletes_reference_with_last_state
                Sample.two_stashes Sample.drop_succeeds 0 _ _ eq_refl
                eq_refl Hk eq_refl) as [[Hfwd _] _].
    intros Hin. apply Hfwd in Hin. destruct Hin as [Hlen _].
    discriminate.
Defined.

(** On a stash reference whose reflog is empty, the bounds check of
    [git_stash_drop] rejects nothing, because [max - 1] wraps around:
    whatever the position, [git_reflog_drop] is asked for the position
    [SIZE_MAX - index], and the reference is not deleted. *)
Theorem stash_drop_on_empty_reflog_is_not_rejected
    (rp : Stash.stash_repository) (io : Stash.drop_results) (k : Z)
    (stash : Stash.git_reference) :
  Stash.reference_lookup rp Stash.GIT_REFS_STASH_FILE = inr stash ->
  Stash.ref_reflog stash = inr [] ->
  0 <= k < Stash.SIZE_MODULUS ->
  let idx := Stash.SIZE_MODULUS - 1 - k in
  Stash.git_stash_drop rp io k
  = if Stash.reflog_drop_result io idx <? 0
    then ([Stash.Call_reflog_drop idx true],
          Stash.reflog_drop_result io idx)
    else ([Stash.Call_reflog_drop idx true; Stash.Call_reflog_write],
          Stash.reflog_write_result io).
Proof.
  intros Href Hlog Hk. cbv zeta.
  rewrite (stash_drop_unfold rp io k stash [] Href Hlog). cbv zeta.
  change (Z.of_nat (List.length (@nil Stash.git_reflog_entry))) with 0.
  assert (H1 : Stash.size_sub 0 1 = Stash.SIZE_MODULUS - 1) by reflexivity.
  assert (H2 : Stash.size_sub (Stash.size_sub 0 k) 1
               = Stash.SIZE_MODULUS - 1 - k).
  { unfold Stash.size_sub.
    assert (0 < Stash.SIZE_MODULUS) by reflexivity.
    destruct (Z.eq_dec k 0) as [->|Hne].
    - reflexivity.
    - rewrite (Z.mod_eq (0 - k)) by lia.
      assert ((0 - k) / Stash.SIZE_MODULUS = -1) as ->.
      { symmetry. apply (Z.div_unique_pos (0 - k) Stash.SIZE_MODULUS (-1)
                           (Stash.SIZE_MODULUS - k)); lia. }
      rewrite Z.mod_small by lia. lia. }
  rewrite H1, H2.
  destruct (Z.gtb_spec k (Stash.SIZE_MODULUS - 1)); [lia|].
  change (0 =? 1) with false. cbv iota.
  destruct (Stash.reflog_drop_result io (Stash.SIZE_MODULUS - 1 - k) <? 0);
    [reflexivity|].
  destruct (Stash.reflog_write_result io <? 0); reflexivity.
Qed.

Lemma stash_drop_on_empty_reflog_is_not_rejected_witness :
  Stash.git_stash_drop Sample.empty_stash_reflog Sample.drop_succeeds 0
  = ([Stash.Call_reflog_drop 18446744073709551615 true;
      Stash.Call_reflog_write], 0).
Proof.
  apply (stash_drop_on_empty_reflog_is_not_rejected
           Sample.empty_stash_reflog Sample.drop_succeeds 0 _ eq_refl
           eq_refl).
  split; [lia | reflexivity].
Defined.

(* ================================================================== *)
(** * The index update of a stash *)

(** [update_index_cb] answers zero exactly for an ignored, untracked,
    added or modified delta that its toggles exclude or whose path the
    working directory can supply, and for a deleted delta that the
    toggles exclude; every other delta makes it fail. *)
Theorem update_index_cb_succeeds_exactly_for_additions
    (data : Stash.cb_data) (delta : git_diff_delta) (progress : nat * nat) :
  fst (Stash.update_index_cb data delta progress) = 0
  <-> match status delta with
      | GIT_DELTA_IGNORED =>
          Stash.include_ignored data = false
          \/ Stash.idx_in_workdir (Stash.index data)
               (f_path (new_file delta)) = true
      | GIT_DELTA_UNTRACKED =>
          Stash.include_untracked data = false
          \/ Stash.idx_in_workdir (Stash.index data)
               (f_path (new_file delta)) = true
      | GIT_DELTA_ADDED | GIT_DELTA_MODIFIED =>
          Stash.include_changed data = false
          \/ Stash.idx_in_workdir (Stash.index data)
               (f_path (new_file delta)) = true
      | GIT_DELTA_DELETED => Stash.include_changed data = false
      | _ => False
      end.
Proof.
  unfold Stash.update_index_cb, Stash.git_index_add_from_workdir,
    Stash.git_index_remove.
  destruct (status delta);
    try (cbn; split; [discriminate | contradiction]);
    try (destruct (Stash.include_ignored data);
         destruct (Stash.include_untracked data);
         destruct (Stash.include_changed data); cbn [negb];
         destruct (Stash.idx_in_workdir (Stash.index data)
                     (f_path (new_file delta)));
         cbn; split; intros H; auto; try discriminate;
         destruct H; discriminate).
  destruct (Stash.include_changed data); cbn [negb];
    [|cbn; split; auto].
  destruct (Stash.git_index_find (Stash.index data)
              (f_path (new_file delta)) <? 0);
    cbn; split; intros H; discriminate.
Qed.

Lemma update_index_cb_untracked_pass (data : Stash.cb_data)
    (delta : git_diff_delta) (progress : nat * nat) :
  Stash.include_changed data = false ->
  let data' := snd (Stash.update_index_cb data delta progress) in
  Stash.include_changed data' = false
  /\ (Stash.idx_paths (Stash.index data')
      = Stash.idx_paths (Stash.index data)
      \/ (Stash.idx_paths (Stash.index data')
          = Stash.idx_paths (Stash.index data) ++ [f_path (new_file delta)]
          /\ (status delta = GIT_DELTA_UNTRACKED
              \/ status delta = GIT_DELTA_IGNORED))).
Proof.
  intros Hc. unfold Stash.update_index_cb, Stash.git_index_add_from_workdir.
  rewrite Hc. cbn [negb].
  destruct (status delta); cbn [snd]; auto;
    match goal with
    | |- context [if negb ?c then _ else _] => destruct c
    end; cbn [negb snd]; auto;
    destruct (Stash.idx_in_workdir (Stash.index data)
                (f_path (new_file delta))); cbn; auto;
    destruct (Stash.git_index_find (Stash.index data)
                (f_path (new_file delta)) <? 0); cbn; auto.
Qed.

Lemma foreach_deltas_untracked_pass (ds : list git_diff_delta) :
  forall (i total : nat) (data : Stash.cb_data),
    Stash.include_changed data = false ->
    let data' :=
      snd (Stash.foreach_deltas ds i total data Stash.update_index_cb) in
    (forall p, In p (Stash.idx_paths (Stash.index data)) ->
               In p (Stash.idx_paths (Stash.index data')))
    /\ (forall p, In p (Stash.idx_paths (Stash.index data')) ->
                  In p (Stash.idx_paths (Stash.index data))
                  \/ exists d, In d ds /\ f_path (new_file d) = p
                               /\ (status d = GIT_DELTA_UNTRACKED
                                   \/ status d = GIT_DELTA_IGNORED)).
Proof.
  induction ds as [|d ds IH]; intros i total data Hc; cbv zeta.
  - simpl. auto.
  - cbn [Stash.foreach_deltas].
    destruct (update_index_cb_untracked_pass data d (i, total) Hc)
      as [Hc' Hpaths].
    destruct (Stash.update_index_cb data d (i, total)) as [rc data1].
    cbn [snd] in Hc', Hpaths.
    assert (Hstep :
      (forall p, In p (Stash.idx_paths (Stash.index data)) ->
                 In p (Stash.idx_paths (Stash.index data1)))
      /\ (forall p, In p (Stash.idx_paths (Stash.index data1)) ->
                    In p (Stash.idx_paths (Stash.index data))
                    \/ (f_path (new_file d) = p
                        /\ (status d = GIT_DELTA_UNTRACKED
                            \/ status d = GIT_DELTA_IGNORED)))).
    { destruct Hpaths as [-> | [-> Hst]]; [auto|]. split.
      - intros p Hp. apply in_or_app. now left.
      - intros p Hp. apply in_app_or in Hp as [Hp | [<- | []]]; auto. }
    destruct Hstep as [Hkeep Hnew].
    destruct (negb (rc =? 0)); cbn [snd].
    + split; [exact Hkeep|]. intros p Hp.
      destruct (Hnew p Hp) as [H | [H1 H2]]; [now left|].
      right. exists d. split; [now left | auto].
    + destruct (IH (S i) total data1 Hc') as [IHkeep IHnew].
      split; [auto|]. intros p Hp.
      destruct (IHnew p Hp) as [H | (d' & Hd' & H1 & H2)].
      * destruct (Hnew p H) as [H' | [H1 H2]]; [now left|].
        right. exists d. split; [now left | auto].
      * right. exists d'. split; [now right | auto].
Qed.

(** The index update that does not include changes (the pass that
    collects untracked and ignored files) never removes a path from the
    index, and every path it adds is the path of an untracked or ignored
    delta of the diff list. *)
Theorem untracked_pass_only_adds_untracked_and_ignored_paths
    (diff : git_diff_list) (data : Stash.cb_data) :
  Stash.include_changed data = false ->
  let data' := snd (Stash.git_diff_foreach diff data Stash.update_index_cb) in
  (forall p, In p (Stash.idx_paths (Stash.index data)) ->
             In p (Stash.idx_paths (Stash.index data')))
  /\ (forall p, In p (Stash.idx_paths (Stash.index data')) ->
                In p (Stash.idx_paths (Stash.index data))
                \/ exists d, In d (deltas diff) /\ f_path (new_file d) = p
                             /\ (status d = GIT_DELTA_UNTRACKED
                                 \/ status d = GIT_DELTA_IGNORED)).
Proof.
  intros Hc. unfold Stash.git_diff_foreach.
  now apply foreach_deltas_untracked_pass.
Qed.

Lemma untracked_pass_only_adds_untracked_and_ignored_paths_witness :
  let data' :=
    snd (Stash.git_diff_foreach Sample.diff_with_untracked
           Sample.untracked_data Stash.update_index_cb) in
  Stash.idx_paths (Stash.index data') = ["a.txt"%string; "new.txt"%string]
  /\ (forall p, In p (Stash.idx_paths (Stash.index Sample.untracked_data)) ->
                In p (Stash.idx_paths (Stash.index data'))).
Proof.
  cbv zeta. split; [reflexivity|].
  exact (proj1 (untracked_pass_only_adds_untracked_and_ignored_paths
                  Sample.diff_with_untracked Sample.untracked_data
                  eq_refl)).
Defined.

(* ================================================================== *)
(** * The message of a stash *)

Lemma string_app_assoc (a b c : string) :
  String.append (String.append a b) c
  = String.append a (String.append b c).
Proof. induction a as [|x a IH]; simpl; congruence. Qed.

Lemma substring_prefix (a b : string) :
  substring 0 (String.length a) (String.append a b) = a.
Proof.
  induction a as [|x a IH]; simpl.
  - destruct b; reflexivity.
  - now rewrite IH.
Qed.

Lemma substring_0_length (n : nat) (s : string) :
  (n <= String.length s)%nat -> String.length (substring 0 n s) = n.
Proof.
  revert s. induction n as [|n IH]; intros s Hn.
  - destruct s; reflexivity.
  - destruct s as [|c s]; simpl in *; [lia|]. rewrite IH; lia.
Qed.

Lemma contains_substring (c : ascii) (n : nat) (s : string) :
  Stash.contains c s = false ->
  Stash.contains c (substring 0 n s) = false.
Proof.
  revert s. induction n as [|n IH]; intros s Hs.
  - destruct s; reflexivity.
  - destruct s as [|x s]; simpl in *; [reflexivity|].
    apply orb_false_iff in Hs as [-> Hs]. simpl. now apply IH.
Qed.

Lemma hex_digit_cases (n : Z) :
  0 <= n < 16 ->
  Ascii.eqb (Stash.hex_digit n) ":" = false
  /\ Ascii.eqb (Stash.hex_digit n) Stash.newline = false.
Proof.
  intros Hn. destruct n as [|p|p]; [split; reflexivity | | lia].
  do 4 (try (destruct p as [p|p|]); try lia; try (split; reflexivity)).
Qed.

Lemma fmt_hex_facts (k : nat) :
  forall x acc,
    String.length (Stash.fmt_hex k x acc) = (k + String.length acc)%nat
    /\ (Stash.contains ":" acc = false ->
        Stash.contains ":" (Stash.fmt_hex k x acc) = false)
    /\ (Stash.contains Stash.newline acc = false ->
        Stash.contains Stash.newline (Stash.fmt_hex k x acc) = false).
Proof.
  induction k as [|k IH]; intros x acc; [simpl; auto|].
  cbn [Stash.fmt_hex].
  destruct (IH (x / 16) (String (Stash.hex_digit (x mod 16)) acc))
    as (Hlen & Hcolon & Hnl).
  destruct (hex_digit_cases (x mod 16)) as [Hc Hn];
    [apply Z.mod_pos_bound; lia|].
  split; [rewrite Hlen; simpl; lia|].
  split; intros Hacc; [apply Hcolon | apply Hnl]; simpl;
    rewrite ?Hc, ?Hn; exact Hacc.
Qed.

Lemma first_line_split (m : string) :
  let subject := substring 0 (Stash.first_line_length m) m in
  Stash.contains Stash.newline subject = false
  /\ (m = subject
      \/ exists rest,
           m = String.append subject (String Stash.newline rest)).
Proof.
  induction m as [|c m IH]; cbv zeta; [simpl; auto|].
  cbn [Stash.first_line_length].
  destruct (Ascii.eqb_spec c Stash.newline) as [->|Hne].
  - simpl. split; [reflexivity|]. right. now exists m.
  - cbn [substring Stash.contains]. destruct IH as [Hno Hsplit].
    apply Ascii.eqb_neq in Hne. rewrite Hne, Hno.
    split; [reflexivity|].
    destruct Hsplit as [Heq | [rest Heq]].
    + left. now rewrite <- Heq.
    + right. exists rest. cbn [String.append]. now rewrite <- Heq.
Qed.

(** [append_commit_description] appends one line: the first seven
    hexadecimal digits of the commit hash, a space, and the commit
    message up to its first newline; the abbreviation holds no colon. *)
Theorem append_commit_description_appends_one_line
    (out : string) (commit : Stash.git_commit) :
  let abbrev :=
    substring 0 7 (Stash.git_oid_allocfmt (Stash.commit_id commit)) in
  let message := Stash.commit_message commit in
  let subject := substring 0 (Stash.first_line_length message) message in
  Stash.append_commit_description out commit
  = String.append out
      (String.append abbrev
         (String.append " "
            (String.append subject (String Stash.newline EmptyString))))
  /\ String.length abbrev = 7%nat
  /\ Stash.contains ":" abbrev = false
  /\ Stash.contains Stash.newline abbrev = false
  /\ Stash.contains Stash.newline subject = false
  /\ (message = subject
      \/ exists rest,
           message = String.append subject (String Stash.newline rest)).
Proof.
  cbv zeta.
  destruct (fmt_hex_facts 40 (Stash.commit_id commit) EmptyString)
    as (Hlen & Hcolon & Hnl).
  destruct (first_line_split (Stash.commit_message commit)) as [Hno Hsplit].
  split; [|split; [|split; [|split; [|split]]]].
  - unfold Stash.append_commit_description, Stash.append_abbreviated_oid,
      Stash.git_buf_put.
    now rewrite !string_app_assoc.
  - apply substring_0_length. unfold Stash.git_oid_allocfmt.
    rewrite Hlen. simpl. lia.
  - apply contains_substring, Hcolon. reflexivity.
  - apply contains_substring, Hnl. reflexivity.
  - exact Hno.
  - exact Hsplit.
Qed.

Lemma strchr_first (a rest : string) (c : ascii) :
  Stash.contains c a = false ->
  Stash.strchr (String.append a (String c rest)) c
  = Some (String.length a).
Proof.
  induction a as [|x a IH]; intros Hno; simpl.
  - now rewrite Ascii.eqb_refl.
  - simpl in Hno. apply orb_false_iff in Hno as [-> Hno].
    now rewrite IH.
Qed.

Lemma strchr_found (a rest : string) (c : ascii) :
  Stash.strchr (String.append a (String c rest)) c <> None.
Proof.
  induction a as [|x a IH]; simpl.
  - now rewrite Ascii.eqb_refl.
  - destruct (Ascii.eqb x c); [discriminate|].
    destruct (Stash.strchr (String.append a (String c rest)) c);
      [discriminate | contradiction].
Qed.

Lemma substring_whole (s : string) :
  substring 0 (String.length s) s = s.
Proof. induction s as [|c s IH]; simpl; congruence. Qed.

Lemma skip_bytes_of_branch (branch : string) :
  Stash.skip_bytes (String.length Stash.GIT_REFS_HEADS_DIR)
    (String.append Stash.GIT_REFS_HEADS_DIR branch)
  = Some branch.
Proof.
  unfold Stash.skip_bytes, Stash.GIT_REFS_HEADS_DIR. simpl.
  rewrite Nat.sub_0_r. now rewrite substring_whole.
Qed.

(** On a repository whose head and head commit can be read, and whose
    head is detached (named [HEAD]) or a branch (named [refs/heads/] and
    then the branch), [retrieve_base_commit_and_message] succeeds with a
    message that starts with the branch part ([(no branch)] for a
    detached head) and a colon, so that
    [prepare_worktree_commit_message] never fails on it: without a user
    message the result is [WIP on] and that message, and with one, for a
    branch part that holds no colon, it is [On <branch>: <user
    message>] and a newline.  Of a head with another name nothing is
    said: a name shorter than [refs/heads/] is read past its end. *)
Theorem stash_message_names_the_branch
    (rp : Stash.working_repository) (head : Stash.head_reference)
    (commit : Stash.git_commit) (branch : string) :
  Stash.repository_head rp = inr head ->
  Stash.commit_lookup rp (Stash.head_oid head) = Some commit ->
  Stash.names_branch head branch ->
  exists description,
    Stash.retrieve_base_commit_and_message rp EmptyString
    = Some (0, Some commit,
            String.append branch (String.append ": " description))
    /\ description = Stash.append_commit_description EmptyString commit
    /\ (forall user_message,
           fst (Stash.prepare_worktree_commit_message
                  (String.append branch (String.append ": " description))
                  user_message) = 0)
    /\ Stash.prepare_worktree_commit_message
         (String.append branch (String.append ": " description)) None
       = (0, String.append "WIP on "
               (String.append branch (String.append ": " description)))
    /\ (Stash.contains ":" branch = false ->
        forall user_message,
          Stash.prepare_worktree_commit_message
            (String.append branch (String.append ": " description))
            (Some user_message)
          = (0, String.append "On "
                  (String.append branch
                     (String.append ": "
                        (String.append user_message
                           (String Stash.newline EmptyString)))))).
Proof.
  intros Hhead Hcommit Hname.
  exists (Stash.append_commit_description EmptyString commit).
  split; [|split; [reflexivity|split; [|split; [reflexivity|]]]].
  - unfold Stash.retrieve_base_commit_and_message, Stash.retrieve_head.
    rewrite Hhead.
    destruct Hname as [[Hn ->] | Hn]; rewrite Hn.
    + change (strcmp "HEAD" "HEAD" =? 0) with true. cbv iota.
      rewrite Hcommit.
      unfold Stash.append_commit_description, Stash.append_abbreviated_oid,
        Stash.git_buf_put.
      cbn [String.append]. reflexivity.
    + replace (strcmp "HEAD" (String.append Stash.GIT_REFS_HEADS_DIR branch)
               =? 0) with false by reflexivity.
      cbv iota. rewrite skip_bytes_of_branch, Hcommit.
      unfold Stash.append_commit_description, Stash.append_abbreviated_oid,
        Stash.git_buf_put.
      cbn [String.append]. now rewrite !string_app_assoc.
  - intros [um|]; [|reflexivity].
    unfold Stash.prepare_worktree_commit_message.
    pose proof (strchr_found branch
                  (String " " (Stash.append_commit_description
                                 EmptyString commit)) ":") as Hfound.
    change (String.append ": " ?x) with (String ":" (String " " x)).
    destruct (Stash.strchr _ ":"); [reflexivity | contradiction].
  - intros Hno um. unfold Stash.prepare_worktree_commit_message.
    change (String.append ": "
              (Stash.append_commit_description EmptyString commit))
      with (String ":" (String " " (Stash.append_commit_description
                                      EmptyString commit))).
    rewrite strchr_first by exact Hno.
    unfold Stash.git_buf_put. rewrite substring_prefix.
    reflexivity.
Qed.

Lemma stash_message_names_the_branch_witness :
  exists message,
    Stash.retrieve_base_commit_and_message Sample.on_master EmptyString
    = Some (0, Some Sample.head_commit, message)
    /\ Stash.prepare_worktree_commit_message message
         (Some "my work"%string)
       = (0, String.append "On master: my work"
               (String Stash.newline EmptyString))
    /\ Stash.prepare_worktree_commit_message message None
       = (0, String.append "WIP on master: 0000000 Fix: the bug"
               (String Stash.newline EmptyString)).
Proof.
  destruct (stash_message_names_the_branch Sample.on_master _ _
              "master"%string eq_refl eq_refl (or_intror eq_refl))
    as (description & Hmsg & Hdesc & _ & Hwip & Hon).
  eexists. split; [exact Hmsg|]. split.
  - exact (Hon eq_refl "my work"%string).
  - rewrite Hwip, Hdesc. reflexivity.
Defined.

(* ================================================================== *)
(** * Is there anything to stash *)

Lemma status_loop_is_dirty (entries : list Stash.status_entry) :
  Stash.status_loop entries Stash.is_dirty_cb
  = match entries with [] => 0 | _ => GIT_EUSER end.
Proof. destruct entries; reflexivity. Qed.

(** [ensure_there_are_changes_to_stash] answers zero when the status of
    the repository lists some entry and not-found when it lists none,
    and passes on any other failure of the status walk.  The status is
    asked for with the ignored files alone as soon as they are to be
    included: asking for untracked files as well changes nothing. *)
Theorem changes_to_stash_are_what_status_lists
    (rp : Stash.working_repository)
    (include_untracked_files include_ignored_files : bool) :
  let listing :=
    Stash.status_list rp Stash.GIT_STATUS_SHOW_INDEX_AND_WORKDIR
      (Stash.status_flags_for include_untracked_files
         include_ignored_files) in
  Stash.ensure_there_are_changes_to_stash rp include_untracked_files true
  = Stash.ensure_there_are_changes_to_stash rp false true
  /\ (forall entries,
         listing = inr entries ->
         Stash.ensure_there_are_changes_to_stash rp include_untracked_files
           include_ignored_files
         = match entries with [] => GIT_ENOTFOUND | _ => 0 end)
  /\ (forall error,
         listing = inl error -> error <> GIT_EUSER -> error <> 0 ->
         Stash.ensure_there_are_changes_to_stash rp include_untracked_files
           include_ignored_files = error).
Proof.
  cbv zeta. split; [destruct include_untracked_files; reflexivity|].
  unfold Stash.ensure_there_are_changes_to_stash,
    Stash.git_status_foreach_ext.
  split.
  - intros entries ->. rewrite status_loop_is_dirty.
    destruct entries; reflexivity.
  - intros error -> Huser Hzero.
    destruct (Z.eqb_spec error GIT_EUSER); [contradiction|].
    destruct (Z.eqb_spec error 0); [contradiction | reflexivity].
Qed.
(* ================================================================== *)
(** * The untracked pass of a stash, over the diff it runs *)

Lemma built_status_asked (diff : git_diff_list) (d : git_diff_delta) :
  built_delta single_sided diff d ->
  (status d = GIT_DELTA_UNMODIFIED ->
   flag_set (diff_flags diff) GIT_DIFF_INCLUDE_UNMODIFIED = true)
  /\ (status d = GIT_DELTA_TYPECHANGE ->
      flag_set (diff_flags diff) GIT_DIFF_INCLUDE_TYPECHANGE = true
      \/ flag_set (diff_flags diff) GIT_DIFF_INCLUDE_TYPECHANGE_TREES = true)
  /\ status d <> GIT_DELTA_RENAMED
  /\ status d <> GIT_DELTA_COPIED.
Proof.
  induction 1 as [st e Ha Hi Hu Hp | st o n om nm noid Hs Hu Ht Hp
                 | d side Htrees _ IH].
  - rewrite delta_from_one_status.
    destruct Ha as [-> | [-> | [-> | ->]]];
      destruct (flag_set (diff_flags diff) GIT_DIFF_REVERSE);
      cbn [reversed_status]; repeat split; discriminate.
  - destruct (delta_from_two_sides diff st o n om nm noid) as (-> & _).
    destruct Hs as [-> | [-> | ->]];
      destruct (flag_set (diff_flags diff) GIT_DIFF_REVERSE);
      cbn [reversed_status]; repeat split; auto; discriminate.
  - destruct side; cbn; repeat split; auto; discriminate.
Qed.

(** A finished run never holds a renamed or copied delta, and holds a
    typechange delta only when the caller asked for typechange deltas
    or for typechange of trees. *)
Theorem run_reports_typechange_only_on_request
    (rp : git_repository) (old_iter new_iter : git_iterator)
    (options : option git_diff_options) :
  can_descend (listing_as_read old_iter new_iter new_iter) ->
  finishes_with (diff_from_iterators rp old_iter new_iter options)
    (fun diff =>
       Forall (fun d =>
                 status d <> GIT_DELTA_RENAMED
                 /\ status d <> GIT_DELTA_COPIED
                 /\ (status d = GIT_DELTA_TYPECHANGE ->
                     flag_set (requested_flags options)
                       GIT_DIFF_INCLUDE_TYPECHANGE
                     || flag_set (requested_flags options)
                          GIT_DIFF_INCLUDE_TYPECHANGE_TREES = true))
         (deltas diff)).
Proof.
  intros Hdesc. eapply finishes_weaken; [|now apply run_built_flags].
  intros diff [(Htc & _ & Hk) Hall]. eapply Forall_impl; [|exact Hall].
  intros d Hd.
  destruct (built_status_asked diff d Hd) as (_ & Ht & Hr & Hc).
  repeat split; auto. intros Hst. rewrite <- Htc.
  destruct (Ht Hst) as [H | H]; [exact H|].
  rewrite Htc. unfold GIT_DIFF_INCLUDE_TYPECHANGE_TREES in *.
  rewrite Hk in H by lia. rewrite H. apply orb_true_r.
Qed.

Lemma run_reports_typechange_only_on_request_witness :
  finishes_with
    (diff_from_iterators Sample.rp
       (Sample.source GIT_ITERATOR_INDEX [Sample.indexed_symlink])
       (Sample.source GIT_ITERATOR_WORKDIR [Sample.scanned_file])
       (Sample.options GIT_DIFF_INCLUDE_TYPECHANGE))
    (fun diff =>
       Forall (fun d =>
                 status d <> GIT_DELTA_RENAMED
                 /\ status d <> GIT_DELTA_COPIED
                 /\ (status d = GIT_DELTA_TYPECHANGE ->
                     flag_set (requested_flags
                                 (Sample.options GIT_DIFF_INCLUDE_TYPECHANGE))
                       GIT_DIFF_INCLUDE_TYPECHANGE
                     || flag_set (requested_flags
                                    (Sample.options
                                       GIT_DIFF_INCLUDE_TYPECHANGE))
                          GIT_DIFF_INCLUDE_TYPECHANGE_TREES = true))
         (deltas diff)).
Proof.
  apply run_reports_typechange_only_on_request. left. reflexivity.
Defined.

Lemma update_index_cb_addition (data : Stash.cb_data)
    (delta : git_diff_delta) (progress : nat * nat) :
  Stash.include_changed data = false ->
  (forall p, Stash.idx_in_workdir (Stash.index data) p = true) ->
  status delta = GIT_DELTA_ADDED \/ status delta = GIT_DELTA_DELETED
  \/ status delta = GIT_DELTA_MODIFIED
  \/ status delta = GIT_DELTA_UNTRACKED
  \/ status delta = GIT_DELTA_IGNORED ->
  let r := Stash.update_index_cb data delta progress in
  fst r = 0
  /\ Stash.include_changed (snd r) = false
  /\ (forall p, Stash.idx_in_workdir (Stash.index (snd r)) p = true).
Proof.
  intros Hc Hwd Hst. cbv zeta.
  unfold Stash.update_index_cb, Stash.git_index_add_from_workdir.
  rewrite Hc, Hwd. cbn [negb].
  destruct Hst as [-> | [-> | [-> | [-> | ->]]]]; cbn [fst snd]; auto;
    match goal with
    | |- context [if negb ?c then _ else _] => destruct c
    end; cbn [negb fst snd Stash.set_index Stash.index
              Stash.include_changed Stash.idx_in_workdir]; auto.
Qed.

Lemma foreach_deltas_additions (ds : list git_diff_delta) :
  forall (i total : nat) (data : Stash.cb_data),
    Stash.include_changed data = false ->
    (forall p, Stash.idx_in_workdir (Stash.index data) p = true) ->
    Forall (fun d =>
              status d = GIT_DELTA_ADDED \/ status d = GIT_DELTA_DELETED
              \/ status d = GIT_DELTA_MODIFIED
              \/ status d = GIT_DELTA_UNTRACKED
              \/ status d = GIT_DELTA_IGNORED) ds ->
    fst (Stash.foreach_deltas ds i total data Stash.update_index_cb) = 0.
Proof.
  induction ds as [|d ds IH]; intros i total data Hc Hwd Hall;
    [reflexivity|].
  inversion Hall as [|? ? Hd Hrest]; subst.
  cbn [Stash.foreach_deltas].
  destruct (update_index_cb_addition data d (i, total) Hc Hwd Hd)
    as (Hrc & Hc' & Hwd').
  destruct (Stash.update_index_cb data d (i, total)) as [rc data'].
  cbn [fst snd] in *. subst rc. change (negb (0 =? 0)) with false.
  cbv iota. now apply IH.
Qed.

(** The untracked pass of a stash cannot fail in its index update when
    the working directory can supply every path: the diff it runs, with
    the options it sets up, holds added, deleted, modified, untracked
    and ignored deltas only, none of which [update_index_cb] rejects
    while changes are not included. *)
Theorem untracked_pass_meets_no_unimplemented_status
    (rp : git_repository) (idx : Stash.git_index) (flags : Z)
    (tree_iter workdir_iter : git_iterator) :
  can_descend (listing_as_read tree_iter workdir_iter workdir_iter) ->
  (forall p, Stash.idx_in_workdir idx p = true) ->
  finishes_with
    (Stash.build_untracked_index rp idx flags tree_iter workdir_iter)
    (fun r => fst r = 0).
Proof.
  intros Hdesc Hwd. unfold Stash.build_untracked_index.
  assert (Hrun : forall opts_flags u i,
    flag_set opts_flags GIT_DIFF_INCLUDE_UNMODIFIED = false ->
    flag_set opts_flags GIT_DIFF_INCLUDE_TYPECHANGE = false ->
    flag_set opts_flags GIT_DIFF_INCLUDE_TYPECHANGE_TREES = false ->
    finishes_with
      (diff <- diff_from_iterators rp tree_iter workdir_iter
                 (Some (mk_opts opts_flags None None [])) ;;
       ret (let '(rc, data) :=
              Stash.git_diff_foreach diff
                (Stash.mk_cb_data (Stash.git_index_clear idx) false u i)
                Stash.update_index_cb in
            (rc, Stash.index data)))
      (fun r => fst r = 0)).
  { intros opts_flags u i Hun Htc Htrees. apply finishes_bind.
    eapply finishes_weaken; [|now apply run_built_flags].
    intros diff [(Hftc & _ & Hk) Hall]. apply finishes_ret.
    cbn [requested_flags opt_flags] in Hftc, Hk.
    assert (Hst : Forall (fun d =>
              status d = GIT_DELTA_ADDED \/ status d = GIT_DELTA_DELETED
              \/ status d = GIT_DELTA_MODIFIED
              \/ status d = GIT_DELTA_UNTRACKED
              \/ status d = GIT_DELTA_IGNORED) (deltas diff)).
    { eapply Forall_impl; [|exact Hall]. intros d Hd.
      destruct (built_status_asked diff d Hd) as (Hu & Ht & Hr & Hcp).
      destruct (status d) eqn:Est; auto; try congruence.
      - specialize (Hu eq_refl).
        unfold GIT_DIFF_INCLUDE_UNMODIFIED in *.
        rewrite Hk in Hu by lia. congruence.
      - destruct (Ht eq_refl) as [H | H].
        + rewrite Hftc, Htc, Htrees in H. discriminate.
        + unfold GIT_DIFF_INCLUDE_TYPECHANGE_TREES in *.
          rewrite Hk in H by lia. congruence. }
    pose proof (foreach_deltas_additions (deltas diff) 0
                  (List.length (deltas diff))
                  (Stash.mk_cb_data (Stash.git_index_clear idx) false u i)
                  eq_refl Hwd Hst) as Hrc.
    unfold Stash.git_diff_foreach.
    destruct (Stash.foreach_deltas _ _ _ _ _) as [rc data].
    exact Hrc. }
  destruct (flag_set flags Stash.GIT_STASH_INCLUDE_UNTRACKED),
    (flag_set flags Stash.GIT_STASH_INCLUDE_IGNORED);
    cbn [Stash.index Stash.include_changed Stash.include_untracked
         Stash.include_ignored]; apply Hrun; reflexivity.
Qed.

Lemma untracked_pass_meets_no_unimplemented_status_witness :
  finishes_with
    (Stash.build_untracked_index Sample.rp
       (Stash.mk_index ["a.txt"%string] (fun _ => true))
       Stash.GIT_STASH_INCLUDE_UNTRACKED Sample.index_two_files
       Sample.workdir_with_directory)
    (fun r => fst r = 0).
Proof.
  apply untracked_pass_meets_no_unimplemented_status.
  - left. reflexivity.
  - reflexivity.
Defined.

(* ================================================================== *)
(** * The ignored prefix across the content of a directory *)

Lemma runs_to_inv (s s' : loop_state) :
  runs_to s s' ->
  s' = s
  \/ exists s1 calls,
       diff_iteration s = (calls, Ok s1) /\ runs_to s1 s'.
Proof. destruct 1; eauto. Qed.

(** At an entry under the active ignored prefix the new-only branch
    never replaces the prefix. *)
Lemma new_only_keeps_active_prefix (s : loop_state)
    (oitem : option git_index_entry) (n : git_index_entry) :
  ls_ignore_prefix s <> EmptyString ->
  pfxcomp (ls_diff s) (e_path n) (ls_ignore_prefix s) = 0 ->
  exists diff' new_iter',
    new_only s oitem n
    = ret (mk_loop diff' (ls_old s) new_iter' (ls_ignore_prefix s)).
Proof.
  intros Hne Hunder. unfold new_only. cbv zeta. rewrite Hunder.
  assert (Hlen : (Z.of_nat (String.length (ls_ignore_prefix s)) =? 0)
                 = false).
  { destruct (ls_ignore_prefix s); [contradiction|reflexivity]. }
  rewrite Hlen. change (0 =? 0) with true. cbn [negb andb].
  change (delta_t_eqb GIT_DELTA_IGNORED GIT_DELTA_UNTRACKED) with false.
  change (delta_t_eqb GIT_DELTA_IGNORED GIT_DELTA_IGNORED) with true.
  cbn [negb andb].
  repeat match goal with
         | |- context [if ?c then _ else _] => destruct c
         end; do 2 eexists; reflexivity.
Qed.

(** Every pass leaves the new source at a later point of its listing,
    and changes nothing of the diff list but its deltas. *)
Lemma pass_moves_forward (s : loop_state) :
  finishes_with (diff_iteration s)
    (fun s1 =>
       later_in (ls_new s) (ls_new s1)
       /\ ls_diff s1 = set_deltas (ls_diff s) (deltas (ls_diff s1))).
Proof.
  destruct (it_items (ls_old s)) as [|io lo] eqn:Ho.
  1: destruct (it_items (ls_new s)) as [|i_n ln] eqn:Hn.
  1:{ unfold diff_iteration, git_iterator_current. rewrite Ho, Hn.
      apply finishes_ret. split; [apply later_in_refl|].
      now destruct (ls_diff s). }
  all: apply diff_iteration_cases;
    [ intros o _ _;
      destruct (old_only_shape s o (git_iterator_current (ls_new s)))
        as (diff' & -> & [E _]);
      apply finishes_ret; cbn [ls_new ls_diff];
      split; [apply later_in_refl | exact E]
    | intros n _ _;
      destruct (new_only_shape s (git_iterator_current (ls_old s)) n)
        as (diff' & new' & prefix' & -> & [E _] & Hnew);
      apply finishes_ret; cbn [ls_new ls_diff];
      split; [|exact E];
      destruct Hnew as [-> | [_ ->]];
      [apply later_in_advance | apply later_in_advance_into_directory]
    | intros o n _ _ _;
      eapply finishes_weaken; [|apply matched_shape];
      intros s1 (diff' & -> & [E _]); cbn [ls_new ls_diff];
      split; [apply later_in_advance | exact E]
    | ].
  - right. rewrite Hn. discriminate.
  - left. rewrite Ho. discriminate.
Qed.

(** A pass at an entry under the active ignored prefix keeps the
    prefix, whichever branch it takes. *)
Lemma pass_under_active_prefix (s : loop_state) (f : source_item)
    (more : list source_item) :
  it_items (ls_new s) = f :: more ->
  ls_ignore_prefix s <> EmptyString ->
  pfxcomp (ls_diff s) (e_path (si_entry f)) (ls_ignore_prefix s) = 0 ->
  finishes_with (diff_iteration s)
    (fun s1 => ls_ignore_prefix s1 = ls_ignore_prefix s).
Proof.
  intros Hitems Hne Hunder. apply diff_iteration_cases.
  - intros o _ _.
    destruct (old_only_shape s o (git_iterator_current (ls_new s)))
      as (diff' & -> & _).
    now apply finishes_ret.
  - intros n Hn _.
    assert (n = si_entry f) as ->.
    { unfold git_iterator_current in Hn. rewrite Hitems in Hn.
      congruence. }
    destruct (new_only_keeps_active_prefix s
                (git_iterator_current (ls_old s)) (si_entry f) Hne Hunder)
      as (diff' & new' & ->).
    now apply finishes_ret.
  - intros o n _ _ _.
    eapply finishes_weaken; [|apply matched_shape].
    now intros s1 (diff' & -> & _).
  - right. rewrite Hitems. discriminate.
Qed.

(** While the new listing goes on with entries under the prefix, passes
    that do not fail keep the prefix active; [rest] is the listing
    behind those entries. *)
Lemma runs_keep_active_prefix (diff0 : git_diff_list) (prefix : string)
    (rest : list source_item) :
  prefix <> EmptyString ->
  forall s s',
    runs_to s s' ->
    ((exists post,
         it_items (ls_new s) = post ++ rest
         /\ Forall (under_prefix diff0 prefix) post
         /\ ls_ignore_prefix s = prefix
         /\ pfxcomp (ls_diff s) = pfxcomp diff0)
     \/ exists pre, rest = pre ++ it_items (ls_new s)) ->
    (exists post,
        it_items (ls_new s') = post ++ rest
        /\ Forall (under_prefix diff0 prefix) post
        /\ ls_ignore_prefix s' = prefix
        /\ pfxcomp (ls_diff s') = pfxcomp diff0)
    \/ exists pre, rest = pre ++ it_items (ls_new s').
Proof.
  intros Hne s s' Hruns.
  induction Hruns as [s | s s1 s' calls Hpass Hruns IH]; intros HJ;
    [exact HJ|].
  apply IH.
  pose proof (pass_moves_forward s) as Hfw. unfold finishes_with in Hfw.
  rewrite Hpass in Hfw. cbn [snd] in Hfw.
  destruct Hfw as [(_ & _ & pre & Hpre) Hd].
  destruct HJ as [(post & Hitems & Hall & Hpfx & Hcmp) | (pre0 & Hrest)].
  - destruct post as [|f post'].
    + right. exists pre. rewrite <- Hpre. now rewrite Hitems.
    + pose proof (pass_under_active_prefix s f (post' ++ rest) Hitems)
        as Hkeep.
      unfold finishes_with in Hkeep. rewrite Hpass in Hkeep.
      cbn [snd] in Hkeep.
      assert (Hp1 : ls_ignore_prefix s1 = prefix).
      { rewrite <- Hpfx. apply Hkeep.
        - now rewrite Hpfx.
        - rewrite Hcmp, Hpfx. exact (Forall_inv Hall). }
      rewrite Hitems in Hpre.
      apply app_eq_app in Hpre as [l [[H1 H2] | [H1 H2]]].
      * left. exists l. split; [exact H2|].
        split; [rewrite H1 in Hall; now apply Forall_app in Hall|].
        split; [exact Hp1|]. rewrite Hd. exact Hcmp.
      * right. exists l. exact H2.
  - right. exists (pre0 ++ pre). rewrite Hrest, Hpre.
    now rewrite app_assoc.
Qed.

(** C3, as the code has it.  In a working-directory comparison, when the
    driver descends into a new-only directory that an ignore rule
    matches and that does not itself lie under the active ignored
    prefix, the directory's path becomes the active ignored prefix, and
    it stays so for as long as the new listing goes on with entries
    under that path, whatever passes (over subdirectories, matched or
    old-only entries) are made on the way.  Every one of these entries
    that is not itself a directory and has no old-side counterpart is
    skipped completely: the pass at it appends no delta and only moves
    the new source on, whether or not ignored or untracked deltas were
    asked for and whatever the ignore rules say of the file. *)
Theorem ignored_directory_content_is_skipped
    (s0 : loop_state) (dir : source_item) (inside rest : list source_item)
    (s : loop_state) (f : source_item) (more : list source_item) :
  it_type (ls_new s0) = GIT_ITERATOR_WORKDIR ->
  it_items (ls_new s0) = dir :: inside ++ rest ->
  new_only_position (ls_diff s0) (ls_old s0) (si_entry dir) ->
  S_ISDIR (e_mode (si_entry dir)) = true ->
  si_ignored dir = true ->
  e_path (si_entry dir) <> EmptyString ->
  (ls_ignore_prefix s0 = EmptyString
   \/ pfxcomp (ls_diff s0) (e_path (si_entry dir)) (ls_ignore_prefix s0)
      <> 0) ->
  (entry_is_prefixed (ls_diff s0) (si_entry dir)
     (git_iterator_current (ls_old s0)) = true
   \/ (flag_set (diff_flags (ls_diff s0)) GIT_DIFF_RECURSE_UNTRACKED_DIRS
       = true /\ si_has_dot_git dir = false)) ->
  Forall (under_prefix (ls_diff s0) (e_path (si_entry dir))) inside ->
  runs_to s0 s ->
  it_items (ls_new s) = f :: more ->
  (List.length rest < List.length (f :: more))%nat ->
  S_ISDIR (e_mode (si_entry f)) = false ->
  new_only_position (ls_diff s) (ls_old s) (si_entry f) ->
  ls_ignore_prefix s = e_path (si_entry dir)
  /\ diff_iteration s
     = ret (mk_loop (ls_diff s) (ls_old s) (set_items (ls_new s) more)
              (e_path (si_entry dir))).
Proof.
  intros Hwd Hitems Hpos Hdir Hign Hne Hfree Hrec Hall Hruns Hcur Hlen
    Hfile Hfpos.
  pose proof (ignored_directory_becomes_prefix s0 dir (inside ++ rest)
                Hwd Hitems Hpos Hdir Hign Hfree Hrec) as Hfirst.
  assert (HJ :
    (exists post,
        it_items (ls_new s) = post ++ rest
        /\ Forall (under_prefix (ls_diff s0) (e_path (si_entry dir))) post
        /\ ls_ignore_prefix s = e_path (si_entry dir)
        /\ pfxcomp (ls_diff s) = pfxcomp (ls_diff s0))
    \/ exists pre, rest = pre ++ it_items (ls_new s)).
  { destruct (runs_to_inv s0 s Hruns)
      as [-> | (s1 & calls & Hpass & Hrest)].
    - rewrite Hitems in Hcur. injection Hcur as <- _. congruence.
    - rewrite Hfirst in Hpass. unfold ret in Hpass.
      injection Hpass as _ <-.
      apply (runs_keep_active_prefix (ls_diff s0) (e_path (si_entry dir))
               rest Hne _ _ Hrest).
      left. exists inside. cbn [ls_new ls_diff ls_ignore_prefix set_items
                                it_items].
      repeat split; auto. }
  destruct HJ as [(post & Hp & Hallp & Hpfx & Hcmp) | (pre & Hpre)].
  2:{ exfalso. rewrite Hcur in Hpre. rewrite Hpre, length_app in Hlen.
      lia. }
  rewrite Hcur in Hp. destruct post as [|f' post'].
  { exfalso. simpl in Hp. rewrite <- Hp in Hlen. lia. }
  injection Hp as <- _.
  split; [exact Hpfx|]. rewrite <- Hpfx.
  apply (entry_under_ignored_prefix_is_skipped s f more); auto.
  - now rewrite Hpfx.
  - rewrite Hcmp, Hpfx. exact (Forall_inv Hallp).
Qed.

Lemma ignored_directory_content_is_skipped_witness :
  let diff :=
    Sample.diff_with Sample.report_everything 13 GIT_ITERATOR_WORKDIR in
  let old_iter := Sample.source GIT_ITERATOR_TREE [] in
  let z := mk_item (Sample.entry "build/z.o" 33188 0) false false in
  exists s,
    runs_to (mk_loop diff old_iter Sample.ignored_build_tree EmptyString) s
    /\ it_items (ls_new s) = [z]
    /\ map (fun d => (delta_path d, status d)) (deltas (ls_diff s))
       = [("build/sub/"%string, GIT_DELTA_IGNORED)]
    /\ ls_ignore_prefix s = "build/"%string
    /\ diff_iteration s
       = ret (mk_loop (ls_diff s) (ls_old s) (set_items (ls_new s) [])
                "build/").
Proof.
  intros diff old_iter z.
  assert (Hruns : exists s,
    runs_to (mk_loop diff old_iter Sample.ignored_build_tree EmptyString) s
    /\ it_items (ls_new s) = [z]
    /\ map (fun d => (delta_path d, status d)) (deltas (ls_diff s))
       = [("build/sub/"%string, GIT_DELTA_IGNORED)]
    /\ ls_old s = old_iter).
  { eexists. split; [|split; [|split]].
    - eapply runs_to_pass; [vm_compute; reflexivity|].
      eapply runs_to_pass; [vm_compute; reflexivity|].
      eapply runs_to_pass; [vm_compute; reflexivity|].
      apply runs_to_here.
    - reflexivity.
    - reflexivity.
    - reflexivity. }
  destruct Hruns as (s & Hruns & Hcur & Hdeltas & Hold).
  exists s. split; [exact Hruns|]. split; [exact Hcur|].
  split; [exact Hdeltas|].
  apply (ignored_directory_content_is_skipped
           (mk_loop diff old_iter Sample.ignored_build_tree EmptyString)
           (mk_item (Sample.entry "build/" 16384 0) true false)
           [mk_item (Sample.entry "build/a.o" 33188 0) false false;
            mk_item (Sample.entry "build/sub/" 16384 0) false false;
            mk_item (Sample.entry "build/sub/q.o" 33188 0) false false;
            z]
           [] s z []);
    try reflexivity; try exact Hruns; try exact Hcur.
  - discriminate.
  - left. reflexivity.
  - right. split; reflexivity.
  - repeat constructor.
  - simpl. lia.
  - unfold new_only_position. rewrite Hold. exact I.
Defined.
